(** * vendista: serial protocol engine of a payment terminal driver

    A shallow embedding of [vendista.py]: the frame codec ([decode], the
    packet built in [request]), the session object [Vendista] with its
    request/response exchange, the event dispatcher and the poll loop's
    tick, followed by the properties of the codec and of the session state
    machine. *)

From Stdlib Require Import String Ascii.
From Stdlib Require Import NArith ZArith QArith Qround Qpower Lqa.
From Stdlib Require Import List Bool Lia.
From Stdlib Require Import PrimFloat SpecFloat FloatOps.
From Stdlib Require Import Init.Byte.
Import ListNotations.

Local Open Scope N_scope.

(* ================================================================== *)
(** ** Bytes *)

Definition bytes := list byte.

(** [int.to_bytes(1)] on a value known to fit; values are reduced modulo
    256 so that the function is total. *)
Definition byte_of_N (n : N) : byte :=
  match Byte.of_N (n mod 256) with
  | Some b => b
  | None => "000"%byte
  end.

(* ================================================================== *)
(** ** Enumerations *)

(** [class Type(IntEnum)] *)
Inductive Type_ : Set :=
| READ_CARD | PACKET_FROM_SERVER | SHOW_PICTURE | SHOW_QR | REBOOT
| PING_SERVER | CANCEL_LAST_TRANSACTION | CANCEL_READ_CARD | FILL_SCREEN
| WRITE_LINE | SERVER_CONNECT_STATE | SET_CUSTOM_VALUE | VEND_REPORT
| PACKET_TO_EXT_SERVER | CONNECT_STATE_REQUEST | TOUCH | PACKET_TO_SERVER
| CARD_READ_RESULT | CARD_AUTH_RESULT | ACK | REBOOT_REPORT
| CONNECT_STATE_REPORT | PACKET_TO_MASTER | WRITE_TEXT_RECT | VEND_REQUEST.

Definition Type_value (t : Type_) : N :=
  match t with
  | READ_CARD => 0x01 | PACKET_FROM_SERVER => 0x02 | SHOW_PICTURE => 0x03
  | SHOW_QR => 0x04 | REBOOT => 0x05 | PING_SERVER => 0x06
  | CANCEL_LAST_TRANSACTION => 0x07 | CANCEL_READ_CARD => 0x08
  | FILL_SCREEN => 0x09 | WRITE_LINE => 0x0A | SERVER_CONNECT_STATE => 0x0B
  | SET_CUSTOM_VALUE => 0x0C | VEND_REPORT => 0x0E
  | PACKET_TO_EXT_SERVER => 0x0F | CONNECT_STATE_REQUEST => 0x10
  | TOUCH => 0x11 | PACKET_TO_SERVER => 0x12 | CARD_READ_RESULT => 0x13
  | CARD_AUTH_RESULT => 0x14 | ACK => 0x15 | REBOOT_REPORT => 0x16
  | CONNECT_STATE_REPORT => 0x18 | PACKET_TO_MASTER => 0x1B
  | WRITE_TEXT_RECT => 0x30 | VEND_REQUEST => 0x31
  end.

(** [Type(v)]: the member with value [v]; [None] stands for [ValueError]. *)
Definition Type_of_N (v : N) : option Type_ :=
  match v with
  | 0x01 => Some READ_CARD | 0x02 => Some PACKET_FROM_SERVER
  | 0x03 => Some SHOW_PICTURE | 0x04 => Some SHOW_QR | 0x05 => Some REBOOT
  | 0x06 => Some PING_SERVER | 0x07 => Some CANCEL_LAST_TRANSACTION
  | 0x08 => Some CANCEL_READ_CARD | 0x09 => Some FILL_SCREEN
  | 0x0A => Some WRITE_LINE | 0x0B => Some SERVER_CONNECT_STATE
  | 0x0C => Some SET_CUSTOM_VALUE | 0x0E => Some VEND_REPORT
  | 0x0F => Some PACKET_TO_EXT_SERVER | 0x10 => Some CONNECT_STATE_REQUEST
  | 0x11 => Some TOUCH | 0x12 => Some PACKET_TO_SERVER
  | 0x13 => Some CARD_READ_RESULT | 0x14 => Some CARD_AUTH_RESULT
  | 0x15 => Some ACK | 0x16 => Some REBOOT_REPORT
  | 0x18 => Some CONNECT_STATE_REPORT | 0x1B => Some PACKET_TO_MASTER
  | 0x30 => Some WRITE_TEXT_RECT | 0x31 => Some VEND_REQUEST
  | _ => None
  end.

(** [bytes(packet_type)], through [IntEnum.__bytes__]. *)
Definition Type_bytes (t : Type_) : bytes := [byte_of_N (Type_value t)].

Definition Type_eqb (a b : Type_) : bool := Type_value a =? Type_value b.

(** [class Picture(IntEnum)] *)
Inductive Picture : Set :=
| PRESS_KEY_FOR_PAYMENT | SELECT_GOODS | AUTHORIZATION | SUCCESS | REJECTED
| UNAVAILABLE | WAIT | ERROR | CUSTOM | CANCEL.

Definition Picture_value (p : Picture) : N :=
  match p with
  | PRESS_KEY_FOR_PAYMENT => 1 | SELECT_GOODS => 2 | AUTHORIZATION => 4
  | SUCCESS => 5 | REJECTED => 6 | UNAVAILABLE => 8 | WAIT => 9
  | ERROR => 12 | CUSTOM => 13 | CANCEL => 14
  end.

(** [class ConnectState(IntEnum)] *)
Inductive ConnectState : Set :=
| NONE | DISCONNECTED | SIM800_FOUND | SIM800_NOT_FOUND | SIM_FOUND
| REG_PASSED | PHONE_NUM_ACQ | GPRS_ACTIVE | IP_ACQ | SERVER_CONNECTED.

Definition ConnectState_value (c : ConnectState) : N :=
  match c with
  | NONE => 0 | DISCONNECTED => 1 | SIM800_FOUND => 2
  | SIM800_NOT_FOUND => 3 | SIM_FOUND => 4 | REG_PASSED => 5
  | PHONE_NUM_ACQ => 6 | GPRS_ACTIVE => 7 | IP_ACQ => 8
  | SERVER_CONNECTED => 9
  end.

(** [ConnectState(v)]; [None] stands for [ValueError]. *)
Definition ConnectState_of_N (v : N) : option ConnectState :=
  match v with
  | 0 => Some NONE | 1 => Some DISCONNECTED | 2 => Some SIM800_FOUND
  | 3 => Some SIM800_NOT_FOUND | 4 => Some SIM_FOUND | 5 => Some REG_PASSED
  | 6 => Some PHONE_NUM_ACQ | 7 => Some GPRS_ACTIVE | 8 => Some IP_ACQ
  | 9 => Some SERVER_CONNECTED
  | _ => None
  end.

(** [IntEnum.__eq__] and [__ne__] compare values; [>] is the one of [int]. *)
Definition ConnectState_eqb (a b : ConnectState) : bool :=
  ConnectState_value a =? ConnectState_value b.

Definition ConnectState_gtb (a b : ConnectState) : bool :=
  ConnectState_value b <? ConnectState_value a.

(* ================================================================== *)
(** ** CRC16 *)

(** Modelled from the spec: [libscrc.hacker16] is a third-party routine
    whose code is not part of the repository.  It is the generic CRC-16
    with the parameters of the call site; for [refin=False, refout=False]
    (the only use in [vendista.py]) this is the most-significant-bit-first
    division by the polynomial [poly], starting from [init], the final
    register being combined with [xorout]. *)
Definition crc16_bit (poly c : N) : N :=
  let shifted := N.land (N.shiftl c 1) 0xFFFF in
  if N.testbit c 15 then N.lxor shifted poly else shifted.

Definition crc16_byte (poly c : N) (b : byte) : N :=
  N.iter 8 (crc16_bit poly) (N.lxor c (N.shiftl (Byte.to_N b) 8)).

Definition hacker16 (data : bytes) (poly init xorout : N) : N :=
  N.lxor (fold_left (crc16_byte poly) data init) xorout.

(** The call the driver makes, in [request] and in [decode]. *)
Definition body_crc (body : bytes) : N :=
  hacker16 body 0x8005 0xFFFF 0xFFFF.

(* ================================================================== *)
(** ** Frame codec *)

(** [struct.Struct('<HH')]: two little-endian unsigned 16-bit fields.
    [pack] fails ([struct.error], here [None]) on a value above 65535. *)
Definition pack_H (v : N) : bytes := [byte_of_N v; byte_of_N (v / 256)].

Definition header_pack (body_length crc16 : N) : option bytes :=
  if (body_length <=? 0xFFFF) && (crc16 <=? 0xFFFF)
  then Some (pack_H body_length ++ pack_H crc16)
  else None.

Definition unpack_H (lo hi : byte) : N := Byte.to_N lo + 256 * Byte.to_N hi.

(** The packet that [request] writes to the port:
    [header_format.pack(len(body), crc16) + body] with
    [body = bytes(packet_type) + data]. *)
Definition request_body (packet_type : Type_) (data : option bytes) : bytes :=
  match data with
  | Some d => Type_bytes packet_type ++ d
  | None => Type_bytes packet_type
  end.

Definition request_packet (packet_type : Type_) (data : option bytes)
  : option bytes :=
  let body := request_body packet_type data in
  match header_pack (N.of_nat (length body)) (body_crc body) with
  | Some header => Some (header ++ body)
  | None => None
  end.

(** Python slice [data[i:j]]. *)
Definition slice (i j : nat) (data : bytes) : bytes := skipn i (firstn j data).

(** What a call of [decode] yields: a frame, one of the four silent
    rejections (all of them Python's [None]), or the [IndexError] of
    [body[0]] on an empty body whose checksum matches. *)
Inductive decoded : Type :=
| Frame (packet_type : Type_) (payload : bytes)
| InvalidPacket
| InvalidLength
| InvalidCrc
| UnknownType (b : byte)
| BodyIndexError.

(** [decode(self, data)]: the result and the contents of the bytearray
    [data] after the call. *)
Definition decode (data : bytes) : decoded * bytes :=
  if (length data <? 5)%nat then (InvalidPacket, data)
  else
    match data with
    | l0 :: l1 :: c0 :: c1 :: _ =>
        let body_length := unpack_H l0 l1 in
        let crc16 := unpack_H c0 c1 in
        let packet_len := N.to_nat (body_length + 4) in
        if (length data <? packet_len)%nat then (InvalidLength, data)
        else
          let body := slice 4 packet_len data in
          let rest := skipn packet_len data in
          if negb (body_crc body =? crc16) then (InvalidCrc, rest)
          else
            match body with
            | [] => (BodyIndexError, rest)
            | b :: payload =>
                match Type_of_N (Byte.to_N b) with
                | Some packet_type => (Frame packet_type payload, rest)
                | None => (UnknownType b, rest)
                end
            end
    | _ => (InvalidPacket, data)
    end.

(** The value Python code sees: a pair, or [None]. *)
Definition frame_of (d : decoded) : option (Type_ * bytes) :=
  match d with
  | Frame t p => Some (t, p)
  | _ => None
  end.

Definition ascii_bytes (s : string) : bytes := list_byte_of_string s.

(** A single-bit corruption of a byte, and of the byte at index [i] of a
    buffer. *)
Definition flip_bit (k : N) (b : byte) : byte :=
  byte_of_N (N.lxor (Byte.to_N b) (2 ^ k)).

Fixpoint flip_at (i : nat) (k : N) (data : bytes) : bytes :=
  match data, i with
  | [], _ => []
  | b :: tl, O => flip_bit k b :: tl
  | b :: tl, S i' => b :: flip_at i' k tl
  end.

(** The payload a request carries: [data], or nothing. *)
Definition payload_of (data : option bytes) : bytes :=
  match data with Some d => d | None => [] end.

(** The length field of a buffer, where there is one to read. *)
Definition declared_length (data : bytes) : option N :=
  match data with
  | l0 :: l1 :: _ => Some (unpack_H l0 l1)
  | _ => None
  end.

(* ================================================================== *)
(** ** The session object and its collaborators *)

(** The dict kept in [self.pending_payment]. *)
Record Payment : Type := {
  p_amount : Q;
  p_active : bool;
  p_time : Q;
  p_card_number : option string
}.

(** The attributes of a [Vendista] object.  [port] is [None] or a
    [Serial] object, of which only [is_open] matters; [lock] tells
    whether the [threading.Lock] is held; [last_request_time] is not set
    by [__init__] and is absent until the first [request]. *)
Record Vendista : Type := {
  port : option bool;
  lock : bool;
  pending_payment : option Payment;
  connect_state : ConnectState;
  connection_error : bool;
  last_check_time : option Q;
  error_counter : Z;
  last_request_time : option Q
}.

Inductive Level : Set := LOG_DEBUG | LOG_INFO | LOG_ERROR.

(** The messages handed to [logger]. *)
Inductive Message : Type :=
| Port_opened
| Send_packet (packet_type : Type_) (body : bytes)
| Response_ack
| Response (packet_type : Type_) (body : bytes)
| Bad_response (received : bytes)
| No_response
| Serial_error
| Invalid_packet (data : bytes)
| Invalid_length (data : bytes)
| Invalid_crc
| Unknown_type (b : byte)
| Card_not_found
| Card_not_readed
| Card_readed (card_number : string)
| Card_auth_ok
| Card_auth_fail
| Card_auth_len (n : nat)
| Connect_state (c : ConnectState)
| Close_payment.

(** The dicts put on [event_queue]. *)
Inductive QueueItem : Type :=
| Touch_item
| Card_auth_item (amount : Q) (card_number : string)
| Connect_state_item (state : string).

(** One answer of the serial port to a call made on it: the call raises
    [SerialException], or it succeeds and, for a read, delivers [rx]. *)
Inductive io : Type :=
| PortError
| PortData (rx : bytes).

(** Everything outside the object: what the port will answer to the calls
    still to come ([script]; past its end the line is silent: calls
    succeed and reads deliver nothing), the successive values of [time()],
    and what the driver has handed over so far. *)
Record World : Type := {
  script : list io;
  clock : nat -> Q;
  clock_reads : nat;
  written : list bytes;
  event_queue : list QueueItem;
  log : list (Level * Message)
}.

Record State : Type := { self : Vendista; world : World }.

(** *** Field updates *)

Definition set_port (v : option bool) (s : Vendista) : Vendista :=
  {| port := v; lock := lock s; pending_payment := pending_payment s;
     connect_state := connect_state s; connection_error := connection_error s;
     last_check_time := last_check_time s; error_counter := error_counter s;
     last_request_time := last_request_time s |}.

Definition set_lock (v : bool) (s : Vendista) : Vendista :=
  {| port := port s; lock := v; pending_payment := pending_payment s;
     connect_state := connect_state s; connection_error := connection_error s;
     last_check_time := last_check_time s; error_counter := error_counter s;
     last_request_time := last_request_time s |}.

Definition set_pending_payment (v : option Payment) (s : Vendista) : Vendista :=
  {| port := port s; lock := lock s; pending_payment := v;
     connect_state := connect_state s; connection_error := connection_error s;
     last_check_time := last_check_time s; error_counter := error_counter s;
     last_request_time := last_request_time s |}.

Definition set_connect_state (v : ConnectState) (s : Vendista) : Vendista :=
  {| port := port s; lock := lock s; pending_payment := pending_payment s;
     connect_state := v; connection_error := connection_error s;
     last_check_time := last_check_time s; error_counter := error_counter s;
     last_request_time := last_request_time s |}.

Definition set_connection_error (v : bool) (s : Vendista) : Vendista :=
  {| port := port s; lock := lock s; pending_payment := pending_payment s;
     connect_state := connect_state s; connection_error := v;
     last_check_time := last_check_time s; error_counter := error_counter s;
     last_request_time := last_request_time s |}.

Definition set_last_check_time (v : option Q) (s : Vendista) : Vendista :=
  {| port := port s; lock := lock s; pending_payment := pending_payment s;
     connect_state := connect_state s; connection_error := connection_error s;
     last_check_time := v; error_counter := error_counter s;
     last_request_time := last_request_time s |}.

Definition set_error_counter (v : Z) (s : Vendista) : Vendista :=
  {| port := port s; lock := lock s; pending_payment := pending_payment s;
     connect_state := connect_state s; connection_error := connection_error s;
     last_check_time := last_check_time s; error_counter := v;
     last_request_time := last_request_time s |}.

Definition set_last_request_time (v : option Q) (s : Vendista) : Vendista :=
  {| port := port s; lock := lock s; pending_payment := pending_payment s;
     connect_state := connect_state s; connection_error := connection_error s;
     last_check_time := last_check_time s; error_counter := error_counter s;
     last_request_time := v |}.

Definition set_script (v : list io) (w : World) : World :=
  {| script := v; clock := clock w; clock_reads := clock_reads w;
     written := written w; event_queue := event_queue w; log := log w |}.

Definition set_clock_reads (v : nat) (w : World) : World :=
  {| script := script w; clock := clock w; clock_reads := v;
     written := written w; event_queue := event_queue w; log := log w |}.

Definition set_written (v : list bytes) (w : World) : World :=
  {| script := script w; clock := clock w; clock_reads := clock_reads w;
     written := v; event_queue := event_queue w; log := log w |}.

Definition set_event_queue (v : list QueueItem) (w : World) : World :=
  {| script := script w; clock := clock w; clock_reads := clock_reads w;
     written := written w; event_queue := v; log := log w |}.

Definition set_log (v : list (Level * Message)) (w : World) : World :=
  {| script := script w; clock := clock w; clock_reads := clock_reads w;
     written := written w; event_queue := event_queue w; log := v |}.

(* ================================================================== *)
(** ** Commands: state, exceptions, and calls that do not come back *)

Inductive exn : Set :=
| SerialException | RuntimeError | StructError | IndexError | AttributeError.

(** Why a call did not return: an exception left it, it waits for a lock
    that is held, or the bound on nested calls and loop rounds ran out. *)
Inductive halt : Set :=
| Raised (e : exn)
| Blocked
| OutOfFuel.

Inductive outcome (A : Type) : Type :=
| Done (a : A)
| Halt (h : halt).
Arguments Done {A} a.
Arguments Halt {A} h.

(** A command runs from a state to an outcome and a state: what an
    exception leaves behind stays changed, as in Python. *)
Definition M (A : Type) : Type := State -> outcome A * State.

Definition ret {A} (a : A) : M A := fun st => (Done a, st).

Definition bind {A B} (m : M A) (k : A -> M B) : M B :=
  fun st =>
    match m st with
    | (Done a, st') => k a st'
    | (Halt h, st') => (Halt h, st')
    end.

Declare Scope cmd_scope.
Delimit Scope cmd_scope with cmd.
Notation "x <- m ;; k" := (bind m (fun x => k))
  (at level 61, m at next level, right associativity) : cmd_scope.
Notation "' pat <- m ;; k" := (bind m (fun x => match x with pat => k end))
  (at level 61, pat pattern, m at next level, right associativity) : cmd_scope.
Notation "m ;; k" := (bind m (fun _ => k))
  (at level 61, right associativity) : cmd_scope.
Local Open Scope cmd_scope.

Definition stop {A} (h : halt) : M A := fun st => (Halt h, st).
Definition raise {A} (e : exn) : M A := stop (Raised e).

Definition get_self : M Vendista := fun st => (Done (self st), st).
Definition get_world : M World := fun st => (Done (world st), st).

Definition modify_self (f : Vendista -> Vendista) : M unit :=
  fun st => (Done tt, {| self := f (self st); world := world st |}).

Definition modify_world (f : World -> World) : M unit :=
  fun st => (Done tt, {| self := self st; world := f (world st) |}).

(** [try: body  except SerialException: handler] *)
Definition try_except_serial {A} (body handler : M A) : M A :=
  fun st =>
    match body st with
    | (Halt (Raised SerialException), st') => handler st'
    | r => r
    end.

(** [try: body  finally: cleanup] (the exit of a [with] block). *)
Definition finally {A} (body : M A) (cleanup : M unit) : M A :=
  fun st =>
    match body st with
    | (Done a, st') => (cleanup ;; ret a) st'
    | (Halt (Raised e), st') => (cleanup ;; raise e) st'
    | r => r
    end.

(** *** The collaborators *)

Definition logger (level : Level) (msg : Message) : M unit :=
  modify_world (fun w => set_log (log w ++ [(level, msg)]) w).

Definition queue_put (item : QueueItem) : M unit :=
  modify_world (fun w => set_event_queue (event_queue w ++ [item]) w).

(** *** Floating-point time

    [time()] returns a Python float, an IEEE 754 binary64 number; every
    finite one is a rational, and the clock and the stored timestamps are
    kept as these rationals.  Storing and comparing are exact; a difference
    [a - b] is the exact difference rounded to the nearest binary64 number,
    the one with the even significand when two are equally near.  The
    rounding below has no largest exponent: the driver only compares a
    difference with a constant, and a difference beyond the binary64 range
    ([inf] in Python) compares as the huge number it stands for. *)

(** [floor(log2 q)], for [q > 0] *)
Definition Qlog2 (q : Q) : Z :=
  let e := (Z.log2 (Qnum q) - Z.log2 (Zpos (Qden q)))%Z in
  if Qle_bool (2 ^ e)%Q q then e else (e - 1)%Z.

(** The integer nearest to [q], the even one of the two when [q] is half
    way between them. *)
Definition round_half_even (q : Q) : Z :=
  let k := Qfloor q in
  match ((q - inject_Z k) * 2 ?= 1)%Q with
  | Lt => k
  | Gt => (k + 1)%Z
  | Eq => if Z.even k then k else (k + 1)%Z
  end.

(** [q > 0] rounded to 53 significant bits; below [2^-1022] the unit in
    the last place stays [2^-1074] (subnormal numbers). *)
Definition binary64_abs (q : Q) : Q :=
  let ulp := (2 ^ (Z.max (Qlog2 q) (-1022) - 52))%Q in
  (inject_Z (round_half_even (q / ulp)) * ulp)%Q.

Definition binary64 (q : Q) : Q :=
  match Qnum q with
  | Z0 => 0%Q
  | Zpos _ => binary64_abs q
  | Zneg _ => (- binary64_abs (- q))%Q
  end.

(** [a - b] on floats *)
Definition float_sub (a b : Q) : Q := binary64 (a - b)%Q.

(** The rational a finite machine float stands for. *)
Definition float_value (f : float) : Q :=
  match Prim2SF f with
  | S754_finite s m e =>
      if s then (- (inject_Z (Zpos m) * 2 ^ e))%Q
      else (inject_Z (Zpos m) * 2 ^ e)%Q
  | _ => 0%Q
  end.

(** [time()] *)
Definition time : M Q :=
  w <- get_world ;;
  modify_world (set_clock_reads (S (clock_reads w))) ;;
  ret (clock w (clock_reads w)).

(** The next answer of the port. *)
Definition transport : M bytes :=
  w <- get_world ;;
  match script w with
  | [] => ret []
  | PortError :: tl => modify_world (set_script tl) ;; raise SerialException
  | PortData rx :: tl => modify_world (set_script tl) ;; ret rx
  end.

(** [Serial(port=..., ...)]: opens the device. *)
Definition Serial : M unit :=
  transport ;; modify_self (set_port (Some true)).

(** A call on [self.port]: [AttributeError] when there is no port object,
    [SerialException] when it is closed. *)
Definition on_port {A} (call : M A) : M A :=
  s <- get_self ;;
  match port s with
  | None => raise AttributeError
  | Some false => raise SerialException
  | Some true => call
  end.

Definition port_write (packet : bytes) : M unit :=
  on_port (transport ;;
           modify_world (fun w => set_written (written w ++ [packet]) w)).

Definition port_read (size : nat) : M bytes :=
  on_port (rx <- transport ;; ret (firstn size rx)).

Definition port_read_all : M bytes := on_port transport.

(** [self.lock.acquire()], [self.lock.release()], [self.lock.locked()] *)
Definition lock_acquire : M unit :=
  s <- get_self ;;
  if lock s then stop Blocked else modify_self (set_lock true).

Definition lock_release : M unit :=
  s <- get_self ;;
  if lock s then modify_self (set_lock false) else raise RuntimeError.

Definition with_lock {A} (body : M A) : M A :=
  lock_acquire ;; finally body lock_release.

(* ================================================================== *)
(** ** The methods of [Vendista] *)

(** [Vendista.__init__]: the attributes of a fresh object. *)
Definition init : Vendista :=
  {| port := None;
     lock := false;
     pending_payment := None;
     connect_state := NONE;
     connection_error := false;
     last_check_time := None;
     error_counter := 10;
     last_request_time := None |}.

(** [self.decode(received)] as a command: the debug line of a rejection
    goes to the logger; the result is Python's value and the bytearray as
    the call leaves it. *)
Definition decode_logged (data : bytes) : M (option (Type_ * bytes) * bytes) :=
  let (d, rest) := decode data in
  match d with
  | Frame t payload => ret (Some (t, payload), rest)
  | InvalidPacket => logger LOG_DEBUG (Invalid_packet data) ;; ret (None, rest)
  | InvalidLength => logger LOG_DEBUG (Invalid_length data) ;; ret (None, rest)
  | InvalidCrc => logger LOG_DEBUG Invalid_crc ;; ret (None, rest)
  | UnknownType b => logger LOG_DEBUG (Unknown_type b) ;; ret (None, rest)
  | BodyIndexError => raise IndexError
  end.

(** What [request] returns besides [None]: the bare type for an ACK, the
    pair otherwise. *)
Inductive Reply : Type :=
| Reply_type (packet_type : Type_)
| Reply_pair (packet_type : Type_) (body : bytes).

(** [result == Type.ACK] *)
Definition is_ack (result : option Reply) : bool :=
  match result with
  | Some (Reply_type t) => Type_eqb t ACK
  | _ => false
  end.

(** [binascii.hexlify(bytes(card)).decode()] *)
Definition hex_digit (n : N) : ascii :=
  match n with
  | 0 => "0" | 1 => "1" | 2 => "2" | 3 => "3" | 4 => "4" | 5 => "5"
  | 6 => "6" | 7 => "7" | 8 => "8" | 9 => "9" | 10 => "a" | 11 => "b"
  | 12 => "c" | 13 => "d" | 14 => "e" | _ => "f"
  end%char.

Fixpoint hexlify (data : bytes) : string :=
  match data with
  | [] => EmptyString
  | b :: tl =>
      String (hex_digit (Byte.to_N b / 16))
        (String (hex_digit (Byte.to_N b mod 16)) (hexlify tl))
  end.

(** [card_number[:4] + "********" + card_number[12:]] *)
Definition mask_card (card_number : string) : string :=
  (substring 0 4 card_number ++ "********"
   ++ substring 12 (String.length card_number - 12) card_number)%string.

(** [str(connect_state)] *)
Definition ConnectState_str (c : ConnectState) : string :=
  match c with
  | NONE => "None" | DISCONNECTED => "Disconnected"
  | SIM800_FOUND => "SIM800 found" | SIM800_NOT_FOUND => "SIM800 not found"
  | SIM_FOUND => "SIM found" | REG_PASSED => "GSM reg passed"
  | PHONE_NUM_ACQ => "Phone num acquired" | GPRS_ACTIVE => "GPRS active"
  | IP_ACQ => "IP acquired" | SERVER_CONNECTED => "Server connected"
  end%string.

(** [if self.error_counter < 10: self.error_counter += 1] *)
Definition count_error : M unit :=
  modify_self (fun s =>
    if (error_counter s <? 10)%Z
    then set_error_counter (error_counter s + 1)%Z s
    else s).

(** [self.pending_payment["time"] = time()] and
    [self.pending_payment["active"] = False], when there is a payment. *)
Definition touch_payment (card_number : option string) : M unit :=
  s <- get_self ;;
  match pending_payment s with
  | None => ret tt
  | Some p =>
      now <- time ;;
      modify_self (set_pending_payment (Some
        {| p_amount := p_amount p;
           p_active := false;
           p_time := now;
           p_card_number := match card_number with
                            | Some c => Some c
                            | None => p_card_number p
                            end |}))
  end.

(** [ConnectState(data[0])], with [NONE] in place of [ValueError]. *)
Definition reported_state (b : byte) : ConnectState :=
  match ConnectState_of_N (Byte.to_N b) with
  | Some c => c
  | None => NONE
  end.

(** The picture of the idle screen. *)
Definition idle_picture (c : ConnectState) : Picture :=
  if ConnectState_eqb c SERVER_CONNECTED then SELECT_GOODS else UNAVAILABLE.

Section Methods.
(** [request] calls [open] and [event], and both call [request] again
    through [show_picture]; the methods below take the [request] of the
    nested calls as a parameter, and [request] itself closes the loop. *)
Variable request : Type_ -> option bytes -> M (option Reply).

Definition show_picture (id : Picture) : M bool :=
  result <- request SHOW_PICTURE (Some [byte_of_N (Picture_value id)]) ;;
  ret (is_ack result).

Definition get_connect_state : M bool :=
  result <- request CONNECT_STATE_REQUEST None ;;
  ret (is_ack result).

Definition open : M unit :=
  s <- get_self ;;
  match port s with
  | Some true => ret tt
  | _ =>
      Serial ;;
      logger LOG_INFO Port_opened ;;
      show_picture WAIT ;;
      ret tt
  end.

Definition show_idle_picture : M unit :=
  s <- get_self ;;
  show_picture (idle_picture (connect_state s)) ;;
  ret tt.

Definition close_payment : M unit :=
  s <- get_self ;;
  match pending_payment s with
  | Some _ =>
      modify_self (set_pending_payment None) ;;
      logger LOG_DEBUG Close_payment
  | None => ret tt
  end ;;
  show_idle_picture.

Definition event (packet_type : Type_) (data : bytes) : M unit :=
  match packet_type with
  | TOUCH => queue_put Touch_item
  | CARD_READ_RESULT =>
      (* result, card = self.packet_card_read_result.unpack_from(data) *)
      match data with
      | result :: rest =>
          if (length rest <? 8)%nat then raise StructError
          else
            let card := firstn 8 rest in
            match Byte.to_N result with
            | 0 => logger LOG_DEBUG Card_not_found ;; touch_payment None
            | 1 => logger LOG_DEBUG Card_not_readed ;; touch_payment None
            | 2 =>
                let card_number := mask_card (hexlify card) in
                logger LOG_DEBUG (Card_readed card_number) ;;
                touch_payment (Some card_number)
            | _ => ret tt
            end
      | [] => raise StructError
      end
  | CARD_AUTH_RESULT =>
      match data with
      | [b] =>
          if Byte.to_N b =? 1 then
            s <- get_self ;;
            match pending_payment s with
            | Some p =>
                logger LOG_DEBUG Card_auth_ok ;;
                queue_put (Card_auth_item (p_amount p)
                             match p_card_number p with
                             | Some c => c
                             | None => EmptyString
                             end)
            | None => ret tt
            end
          else logger LOG_ERROR Card_auth_fail
      | _ => logger LOG_DEBUG (Card_auth_len (length data))
      end ;;
      touch_payment None
  | CONNECT_STATE_REPORT =>
      match data with
      | [b] =>
          let connect_state' := reported_state b in
          modify_self (set_error_counter 0%Z) ;;
          s <- get_self ;;
          if negb (ConnectState_eqb connect_state' (connect_state s)) then
            (if connection_error s
                && ConnectState_eqb connect_state' SERVER_CONNECTED
             then queue_put (Connect_state_item
                               (ConnectState_str connect_state'))
             else if ConnectState_eqb (connect_state s) SERVER_CONNECTED
             then modify_self (set_connection_error true) ;;
                  queue_put (Connect_state_item
                               (ConnectState_str connect_state'))
             else ret tt) ;;
            modify_self (set_connect_state connect_state') ;;
            logger LOG_INFO (Connect_state connect_state') ;;
            show_idle_picture
          else ret tt
      | _ => ret tt
      end
  | _ => ret tt
  end.

(** The loop that follows a decoded response in [request]:
    [while len(received) > 0], each round one [decode] and, for a frame,
    one [event]. *)
Fixpoint dispatch_rest (rounds : nat) (received : bytes) : M unit :=
  match received with
  | [] => ret tt
  | _ :: _ =>
      match rounds with
      | O => stop OutOfFuel
      | S rounds' =>
          '(result, received') <- decode_logged received ;;
          match result with
          | Some (t, data) => event t data
          | None => ret tt
          end ;;
          dispatch_rest rounds' received'
      end
  end.

(** The loop of [vendista_loop] over what [read_all] delivered: as
    above, and a connect-state request after a round without frame. *)
Fixpoint dispatch_received (rounds : nat) (received : bytes) : M unit :=
  match received with
  | [] => ret tt
  | _ :: _ =>
      match rounds with
      | O => stop OutOfFuel
      | S rounds' =>
          '(result, received') <- decode_logged received ;;
          match result with
          | Some (t, data) => event t data
          | None => get_connect_state ;; ret tt
          end ;;
          dispatch_received rounds' received'
      end
  end.

(** The body of [request]; [rounds] bounds its two loops. *)
Definition request_once (rounds : nat)
    (packet_type : Type_) (data : option bytes) : M (option Reply) :=
  let body := request_body packet_type data in
  logger LOG_DEBUG (Send_packet packet_type body) ;;
  packet <- match request_packet packet_type data with
            | Some packet => ret packet
            | None => raise StructError
            end ;;
  now <- time ;;
  modify_self (set_last_request_time (Some now)) ;;
  try_except_serial
    (open ;;
     lock_acquire ;;
     port_write packet ;;
     received <- port_read 128 ;;
     lock_release ;;
     match received with
     | _ :: _ =>
         '(response, received') <- decode_logged received ;;
         match response with
         | Some (packet_type', body') =>
             if Type_eqb packet_type' ACK then
               modify_self (set_error_counter 0%Z) ;;
               logger LOG_DEBUG Response_ack ;;
               dispatch_rest rounds received' ;;
               ret (Some (Reply_type packet_type'))
             else
               logger LOG_DEBUG (Response packet_type' body') ;;
               dispatch_rest rounds received' ;;
               ret (Some (Reply_pair packet_type' body'))
         | None =>
             count_error ;;
             logger LOG_DEBUG (Bad_response received') ;;
             ret None
         end
     | [] =>
         count_error ;;
         logger LOG_DEBUG No_response ;;
         ret None
     end)
    (lock_release ;;
     count_error ;;
     logger LOG_ERROR Serial_error ;;
     ret None).

(** The three housekeeping blocks of one round of [vendista_loop]. *)

(** [# Check pending transaction] *)
Definition check_pending_transaction : M unit :=
  s <- get_self ;;
  match pending_payment s with
  | Some p =>
      now <- time ;;
      let elapsed := float_sub now (p_time p) in
      let timeout := (if p_active p then 70 else 50)%Q in
      if negb (Qle_bool elapsed timeout) then close_payment else ret tt
  | None => ret tt
  end.

(** [# Check connection status], the two branches on the counter. *)
Definition check_connection_status : M unit :=
  s <- get_self ;;
  if (error_counter s =? 0)%Z && ConnectState_eqb (connect_state s) NONE
  then modify_self (set_connect_state DISCONNECTED)
  else if (5 <? error_counter s)%Z && ConnectState_gtb (connect_state s) NONE
  then modify_self (set_connect_state NONE) ;;
       logger LOG_ERROR (Connect_state NONE)
  else ret tt.

(** [if self.last_check_time is None or time() - self.last_check_time > 10] *)
Definition check_heartbeat : M unit :=
  s <- get_self ;;
  due <- match last_check_time s with
         | None => ret true
         | Some t =>
             now <- time ;; ret (negb (Qle_bool (float_sub now t) 10%Q))
         end ;;
  if due then
    now <- time ;;
    modify_self (set_last_check_time (Some now)) ;;
    get_connect_state ;;
    ret tt
  else ret tt.

(** [# Prevent sleep of terminal] *)
Definition prevent_sleep : M unit :=
  s <- get_self ;;
  match last_request_time s with
  | Some t =>
      now <- time ;;
      if negb (Qle_bool (float_sub now t) (10 * 60)%Q)
      then show_idle_picture
      else ret tt
  | None => raise AttributeError
  end.

(** One round of the inner [while] of [vendista_loop]. *)
Definition loop_round (rounds : nat) : M unit :=
  received <- with_lock port_read_all ;;
  dispatch_received rounds received ;;
  check_pending_transaction ;;
  check_connection_status ;;
  check_heartbeat ;;
  prevent_sleep.

(** The handler of [vendista_loop]: [except SerialException]. *)
Definition loop_except : M unit :=
  s <- get_self ;;
  (if lock s then lock_release else ret tt) ;;
  modify_self (set_connect_state NONE) ;;
  logger LOG_ERROR Serial_error.
End Methods.

(** [Vendista.request]; [depth] bounds the nesting of calls and the rounds
    of each loop. *)
Fixpoint request (depth : nat) (packet_type : Type_) (data : option bytes)
  : M (option Reply) :=
  match depth with
  | O => stop OutOfFuel
  | S depth' => request_once (request depth') depth' packet_type data
  end.

(** [m] run [n] times in a row, stopping where a run does not return. *)
Fixpoint times (n : nat) (m : M unit) : M unit :=
  match n with
  | O => ret tt
  | S n' => m ;; times n' m
  end.

(** One pass of the outer loop of [vendista_loop]: [open], then rounds of
    the inner loop -- [n] of them before [stop_request] is seen set, which
    is for the other threads to decide -- under the handler. *)
Definition loop_pass (depth rounds n : nat) : M unit :=
  try_except_serial
    (open (request depth) ;; times n (loop_round (request depth) rounds))
    loop_except.

(* ================================================================== *)
(** ** Vocabulary of the statements *)

(** An invariant of the whole state, made of one on the object and one on
    its surroundings. *)
Definition inv (Is : Vendista -> Prop) (Iw : World -> Prop) (st : State)
  : Prop :=
  Is (self st) /\ Iw (world st).

(** Run from [st], [m] ends in a state where [I] holds -- whether it
    returns, raises or hangs -- and what it returns satisfies [Q]. *)
Definition keeps_at {A} (I : State -> Prop) (m : M A) (Q : A -> Prop)
    (st : State) : Prop :=
  I (snd (m st)) /\ forall a, fst (m st) = Done a -> Q a.

(** [m] keeps [I]. *)
Definition keeps {A} (I : State -> Prop) (m : M A) (Q : A -> Prop) : Prop :=
  forall st, I st -> keeps_at I m Q st.

Definition any {A} (_ : A) : Prop := True.

(** [m] lets no [SerialException] out. *)
Definition calm {A} (m : M A) : Prop :=
  forall st, fst (m st) <> Halt (Raised SerialException).

(** A frame that resets the error counter: an ACK, or a connect-state
    report. *)
Definition resets (d : decoded) : bool :=
  match d with
  | Frame ACK _ | Frame CONNECT_STATE_REPORT _ => true
  | _ => false
  end.

(** No reading position of [data] yields such a frame. *)
Definition quiet_bytes (data : bytes) : bool :=
  forallb (fun k => negb (resets (fst (decode (skipn k data)))))
          (seq 0 (S (length data))).

(** An answer of the port from which neither [read(128)] nor [read_all]
    can deliver such a frame. *)
Definition quiet_io (x : io) : bool :=
  match x with
  | PortError => true
  | PortData rx => quiet_bytes rx && quiet_bytes (firstn 128 rx)
  end.

Definition quiet (w : World) : bool := forallb quiet_io (script w).

(** The four invariants of the statements: the counter is in range; the
    flag is set; there is no payment; the object is unconnected. *)
Definition counter_in_range (s : Vendista) : Prop :=
  (0 <= error_counter s <= 10)%Z.

Definition error_flagged (s : Vendista) : Prop := connection_error s = true.

Definition no_payment (s : Vendista) : Prop := pending_payment s = None.

Definition unconnected (s : Vendista) : Prop :=
  (1 <= error_counter s <= 10)%Z /\ connect_state s = NONE.

(** The Prop forms of [quiet]: for the world, for a buffer under any
    reading position, and for the types such a buffer can yield. *)
Definition quiet_world (w : World) : Prop := quiet w = true.

Definition quiet_buffer (data : bytes) : Prop :=
  forall k, resets (fst (decode (skipn k data))) = false.

Definition quiet_type (t : Type_) : Prop :=
  t <> ACK /\ t <> CONNECT_STATE_REPORT.

(** A world at its start: nothing read from the clock, nothing written,
    queued or logged. *)
Definition world_of (sc : list io) (ck : nat -> Q) : World :=
  {| script := sc; clock := ck; clock_reads := 0; written := [];
     event_queue := []; log := [] |}.

Definition demo_clock (n : nat) : Q := inject_Z (Z.of_nat n).


(** The line is silent: the port is open, the lock free, and nothing more
    will come from the port. *)
Definition silent (st : State) : Prop :=
  port (self st) = Some true /\ lock (self st) = false
  /\ script (world st) = [].

(** The object at the check: a payment made at time 0, the port open, the
    state as given; the clock reads [now]. *)
Definition at_check (active : bool) (c : ConnectState) (now : Q) : State :=
  {| self := set_pending_payment
               (Some {| p_amount := 150; p_active := active;
                        p_time := 0; p_card_number := None |})
               (set_connect_state c (set_port (Some true) init));
     world := world_of [] (fun _ => now) |}.

(** What [request] does once the packet is written: the read, the release
    of the lock, and what it makes of the bytes it has read. *)
Definition after_write
    (request' : Type_ -> option bytes -> M (option Reply)) (rounds : nat)
  : M (option Reply) :=
  received <- port_read 128 ;;
  lock_release ;;
  match received with
  | _ :: _ =>
      '(response, received') <- decode_logged received ;;
      match response with
      | Some (packet_type', body') =>
          if Type_eqb packet_type' ACK then
            modify_self (set_error_counter 0%Z) ;;
            logger LOG_DEBUG Response_ack ;;
            dispatch_rest request' rounds received' ;;
            ret (Some (Reply_type packet_type'))
          else
            logger LOG_DEBUG (Response packet_type' body') ;;
            dispatch_rest request' rounds received' ;;
            ret (Some (Reply_pair packet_type' body'))
      | None =>
          count_error ;;
          logger LOG_DEBUG (Bad_response received') ;;
          ret None
      end
  | [] =>
      count_error ;;
      logger LOG_DEBUG No_response ;;
      ret None
  end.

(** What has been written to the port starts with [pre]. *)
Definition written_from (pre : list bytes) (w : World) : Prop :=
  exists more, written w = pre ++ more.


(* ================================================================== *)
(** ** The rest of the interface *)

(** [header_format.pack(len(body), crc16) + body], for any body: the
    packet of [request] is the one of its body. *)
Definition framed (body : bytes) : option bytes :=
  match header_pack (N.of_nat (length body)) (body_crc body) with
  | Some header => Some (header ++ body)
  | None => None
  end.

(** [class Currency(IntEnum)] *)
Inductive Currency : Set := RUB | USD | EUR.

Definition Currency_value (c : Currency) : N :=
  match c with
  | RUB => 643 | USD => 840 | EUR => 978
  end.

(** The [while number > 0] loop of [Currency.bcd]; [fuel] bounds its
    rounds. *)
Fixpoint bcd_loop (fuel : nat) (number bcd_value multiplier : N) : N :=
  match fuel with
  | O => bcd_value
  | S fuel' =>
      if 0 <? number then
        let digit := number mod 10 in
        bcd_loop fuel' (number / 10) (bcd_value + digit * multiplier)
          (multiplier * 16)
      else bcd_value
  end.

(** The body of [Currency.bcd] on the value [number]: the loop, given as
    many rounds as [number] has bits, then the swap of the two low
    bytes. *)
Definition bcd_of (number : N) : N :=
  let bcd_value := bcd_loop (N.to_nat (N.size number)) number 0 1 in
  let lower_byte := N.shiftl (N.land bcd_value 0x00FF) 8 in
  let upper_byte := N.shiftr (N.land bcd_value 0xFF00) 8 in
  N.lor lower_byte upper_byte.

(** [Currency.bcd] *)
Definition bcd (c : Currency) : N := bcd_of (Currency_value c).

(** One unsigned field of a [struct] format with [<]: [size] bytes, low
    byte first; [None] stands for [struct.error], raised when the value
    does not fit. *)
Fixpoint le_bytes (size : nat) (v : N) : bytes :=
  match size with
  | O => []
  | S size' => byte_of_N v :: le_bytes size' (v / 256)
  end.

Definition pack_field (size : nat) (v : Z) : option bytes :=
  if ((0 <=? v) && (v <? 2 ^ (8 * Z.of_nat size)))%Z
  then Some (le_bytes size (Z.to_N v))
  else None.

(** [struct.Struct('<LHLB').pack], the payload of a read-card request. *)
Definition packet_read_card_pack (amount currency unix_time flag : Z)
  : option bytes :=
  match pack_field 4 amount, pack_field 2 currency,
        pack_field 4 unix_time, pack_field 1 flag with
  | Some a, Some c, Some u, Some f => Some (a ++ c ++ u ++ f)
  | _, _, _, _ => None
  end.

(** [struct.Struct('<HHB').pack], the payload of a vend request. *)
Definition packet_vend_request_pack (amount a b : Z) : option bytes :=
  match pack_field 2 amount, pack_field 2 a, pack_field 1 b with
  | Some x, Some y, Some z => Some (x ++ y ++ z)
  | _, _, _ => None
  end.

(** The payment a request for payment leaves in [self.pending_payment]:
    [{"amount": sum, "active": True, "time": time()}]. *)
Definition new_payment (sum : Z) (now : Q) : Payment :=
  {| p_amount := inject_Z sum;
     p_active := true;
     p_time := now;
     p_card_number := None |}.

Section Interface.
(** The four methods that open and cancel a payment.  Each starts with an
  info line that [Message] does not list: the records of these lines are
  parameters.  Amounts are Python ints. *)
Variable request : Type_ -> option bytes -> M (option Reply).
Variable Read_card_request : Z -> Currency -> Message.
Variable Cancel_read_card : Message.
Variable Cancel_last_transaction : Message.
Variable Vend_request : Z -> Message.

Definition read_card (sum : Z) (currency : Currency) : M bool :=
logger LOG_INFO (Read_card_request sum currency) ;;
now <- time ;;
modify_self (set_pending_payment (Some (new_payment sum now))) ;;
body <- match packet_read_card_pack (sum * 100) (Z.of_N (bcd currency))
                0 1 with
        | Some body => ret body
        | None => raise StructError
        end ;;
result <- request READ_CARD (Some body) ;;
ret (is_ack result).

Definition cancel_read_card : M unit :=
logger LOG_INFO Cancel_read_card ;;
request CANCEL_READ_CARD None ;;
close_payment request.

Definition cancel_last_transaction : M bool :=
logger LOG_INFO Cancel_last_transaction ;;
result <- request CANCEL_LAST_TRANSACTION None ;;
touch_payment None ;;
ret (is_ack result).

Definition vend_request (sum : Z) : M unit :=
logger LOG_INFO (Vend_request sum) ;;
now <- time ;;
modify_self (set_pending_payment (Some (new_payment sum now))) ;;
body <- match packet_vend_request_pack (sum * 100) 1 1 with
        | Some body => ret body
        | None => raise StructError
        end ;;
request VEND_REQUEST (Some body) ;;
ret tt.
End Interface.

(** The object is ready for an exchange: its port is open and its lock is
    free. *)
Definition ready (s : Vendista) : Prop :=
  port s = Some true /\ lock s = false.

(** The handler of [request]: [except SerialException]. *)
Definition request_except : M (option Reply) :=
  lock_release ;;
  count_error ;;
  logger LOG_ERROR Serial_error ;;
  ret None.

(** Two states with the same connection: nothing but the payment, the
    queue, the log and the clock tells them apart. *)
Definition same_connection (st st' : State) : Prop :=
  port (self st') = port (self st)
  /\ lock (self st') = lock (self st)
  /\ connect_state (self st') = connect_state (self st)
  /\ connection_error (self st') = connection_error (self st)
  /\ error_counter (self st') = error_counter (self st)
  /\ last_check_time (self st') = last_check_time (self st)
  /\ last_request_time (self st') = last_request_time (self st)
  /\ script (world st') = script (world st)
  /\ written (world st') = written (world st).

(** [card_number] of the payment, [""] when it has none:
    [self.pending_payment.get("card_number", "")]. *)
Definition card_number_of (p : Payment) : string :=
  match p_card_number p with
  | Some c => c
  | None => EmptyString
  end.

(** The two bytes of a code of up to four decimal digits
    [d3 d2 d1 d0]: [d1 d0] in the high byte and [d3 d2] in the low one. *)
Definition bcd_swapped (n : N) : N :=
  (16 * (n / 10 mod 10) + n mod 10) * 256
  + (16 * (n / 1000) + n / 100 mod 10).

(** The lock is free. *)
Definition lock_free (s : Vendista) : Prop := lock s = false.

(** A payment of amount [a] is pending. *)
Definition pending_amount (a : Q) (s : Vendista) : Prop :=
  exists p, pending_payment s = Some p /\ p_amount p = a.
(* ================================================================== *)
(** * Properties of the codec *)

Ltac nlia := zify; Z.to_euclidean_division_equations; lia.

Example crc16_check_value :
  hacker16 (ascii_bytes "123456789") 0x8005 0xFFFF 0x0000 = 0xAEE7.
Proof. reflexivity. Qed.

Example decode_ack :
  request_packet ACK None = Some ["001"; "000"; "128"; "130"; "021"]%byte
  /\ decode ["001"; "000"; "128"; "130"; "021"]%byte = (Frame ACK [], []).
Proof. split; reflexivity. Qed.

(** *** Bytes and 16-bit fields *)

Lemma to_N_lt (b : byte) : Byte.to_N b < 256.
Proof. pose proof (Byte.to_N_bounded b). lia. Qed.

Lemma to_N_byte_of_N (n : N) : Byte.to_N (byte_of_N n) = n mod 256.
Proof.
  unfold byte_of_N.
  destruct (Byte.of_N (n mod 256)) as [b|] eqn:E.
  - now apply Byte.to_of_N.
  - apply Byte.of_N_None_iff in E. nlia.
Qed.

Lemma byte_of_N_to_N (b : byte) : byte_of_N (Byte.to_N b) = b.
Proof.
  unfold byte_of_N. pose proof (to_N_lt b).
  rewrite N.mod_small by assumption. now rewrite Byte.of_to_N.
Qed.

Lemma to_N_inj (a b : byte) : Byte.to_N a = Byte.to_N b -> a = b.
Proof.
  intros H. rewrite <- (byte_of_N_to_N a), <- (byte_of_N_to_N b).
  now rewrite H.
Qed.

Lemma unpack_pack_H (v : N) :
  v < 65536 ->
  match pack_H v with
  | [lo; hi] => unpack_H lo hi = v
  | _ => False
  end.
Proof.
  intros Hv. unfold pack_H, unpack_H. rewrite !to_N_byte_of_N. nlia.
Qed.

Lemma lxor_lt_pow2 (a b n : N) : a < 2 ^ n -> b < 2 ^ n -> N.lxor a b < 2 ^ n.
Proof.
  intros Ha Hb.
  destruct (N.eq_dec (N.lxor a b) 0) as [E|E].
  - rewrite E. apply N.neq_0_lt_0. apply N.pow_nonzero. discriminate.
  - apply N.log2_lt_pow2; [lia|].
    eapply N.le_lt_trans; [apply N.log2_lxor|].
    destruct (N.eq_dec a 0) as [->|Ha0], (N.eq_dec b 0) as [->|Hb0].
    + now elim E.
    + rewrite N.max_r by apply N.le_0_l. apply N.log2_lt_pow2; lia.
    + rewrite N.max_l by apply N.le_0_l. apply N.log2_lt_pow2; lia.
    + apply N.max_lub_lt; apply N.log2_lt_pow2; lia.
Qed.

Lemma lxor_cancel_r (a b p : N) : N.lxor a p = N.lxor b p -> a = b.
Proof.
  intros H.
  assert (undo : forall x, N.lxor (N.lxor x p) p = x).
  { intros x. now rewrite N.lxor_assoc, N.lxor_nilpotent, N.lxor_0_r. }
  now rewrite <- (undo a), H, undo.
Qed.

Lemma lxor_cancel_l (a b p : N) : N.lxor p a = N.lxor p b -> a = b.
Proof. rewrite !(N.lxor_comm p). apply lxor_cancel_r. Qed.

(** *** The checksum tells two bodies apart that differ in one byte *)

Section Crc16.
Variable poly : N.
Hypothesis poly_16 : poly < 65536.
Hypothesis poly_odd : N.odd poly = true.

Lemma testbit_15 (c : N) : c < 65536 -> N.testbit c 15 = (32768 <=? c).
Proof.
  intros Hc. rewrite N.testbit_eqb. change (2 ^ 15) with 32768.
  destruct (N.leb_spec 32768 c); [apply N.eqb_eq | apply N.eqb_neq]; nlia.
Qed.

Lemma shifted_eq (c : N) :
  N.land (N.shiftl c 1) 0xFFFF = (2 * c) mod 65536.
Proof.
  change 0xFFFF with (N.ones 16).
  rewrite N.land_ones, N.shiftl_mul_pow2. change (2 ^ 16) with 65536.
  f_equal. lia.
Qed.

Lemma crc16_bit_lt (c : N) : crc16_bit poly c < 65536.
Proof.
  unfold crc16_bit. rewrite shifted_eq.
  assert ((2 * c) mod 65536 < 65536) by nlia.
  destruct (N.testbit c 15); [|assumption].
  now apply (lxor_lt_pow2 _ _ 16).
Qed.

Lemma crc16_bit_inj (c d : N) :
  c < 65536 -> d < 65536 -> crc16_bit poly c = crc16_bit poly d -> c = d.
Proof.
  intros Hc Hd. unfold crc16_bit. rewrite !shifted_eq.
  rewrite (testbit_15 c Hc), (testbit_15 d Hd).
  assert (even : forall x, N.odd ((2 * x) mod 65536) = false).
  { intros x. rewrite <- N.negb_even. apply negb_false_iff.
    apply N.even_spec. exists ((2 * x) mod 65536 / 2). nlia. }
  assert (odd : forall x, N.odd (N.lxor ((2 * x) mod 65536) poly) = true).
  { intros x. rewrite <- N.bit0_odd, N.lxor_spec, !N.bit0_odd.
    now rewrite even, poly_odd. }
  destruct (N.leb_spec 32768 c), (N.leb_spec 32768 d); intros E.
  - apply lxor_cancel_r in E. nlia.
  - pose proof (odd c) as Ho. rewrite E, even in Ho. discriminate.
  - pose proof (odd d) as Ho. rewrite <- E, even in Ho. discriminate.
  - nlia.
Qed.

Lemma iter_crc16_bit_lt (n : nat) (c : N) :
  c < 65536 -> Nat.iter n (crc16_bit poly) c < 65536.
Proof. intros Hc. destruct n; [assumption | apply crc16_bit_lt]. Qed.

Lemma iter_crc16_bit_inj (n : nat) (c d : N) :
  c < 65536 -> d < 65536 ->
  Nat.iter n (crc16_bit poly) c = Nat.iter n (crc16_bit poly) d -> c = d.
Proof.
  intros Hc Hd. induction n as [|n IH]; [trivial|].
  cbn [Nat.iter]. intros E. apply IH.
  apply crc16_bit_inj; auto using iter_crc16_bit_lt.
Qed.

Lemma feed_lt (c : N) (b : byte) :
  c < 65536 -> N.lxor c (N.shiftl (Byte.to_N b) 8) < 65536.
Proof.
  intros Hc. apply (lxor_lt_pow2 _ _ 16); [assumption|].
  rewrite N.shiftl_mul_pow2. pose proof (to_N_lt b).
  change (2 ^ 8) with 256. change (2 ^ 16) with 65536. lia.
Qed.

Lemma crc16_byte_lt (c : N) (b : byte) : crc16_byte poly c b < 65536.
Proof.
  unfold crc16_byte. rewrite N2Nat.inj_iter.
  change (N.to_nat 8) with 8%nat. apply crc16_bit_lt.
Qed.

Lemma crc16_byte_inj (c d : N) (a b : byte) :
  c < 65536 -> d < 65536 ->
  crc16_byte poly c a = crc16_byte poly d b ->
  N.lxor c (N.shiftl (Byte.to_N a) 8) = N.lxor d (N.shiftl (Byte.to_N b) 8).
Proof.
  intros Hc Hd. unfold crc16_byte. rewrite !N2Nat.inj_iter.
  apply iter_crc16_bit_inj; now apply feed_lt.
Qed.

Lemma crc16_fold_lt (data : bytes) (c : N) :
  c < 65536 -> fold_left (crc16_byte poly) data c < 65536.
Proof.
  revert c. induction data as [|b tl IH]; intros c Hc; [assumption|].
  apply IH, crc16_byte_lt.
Qed.

Lemma crc16_fold_inj (data : bytes) (c d : N) :
  c < 65536 -> d < 65536 ->
  fold_left (crc16_byte poly) data c = fold_left (crc16_byte poly) data d ->
  c = d.
Proof.
  revert c d. induction data as [|b tl IH]; intros c d Hc Hd E; [assumption|].
  cbn [fold_left] in E. apply IH in E; try apply crc16_byte_lt.
  apply crc16_byte_inj in E; try assumption.
  now apply lxor_cancel_r in E.
Qed.

Lemma hacker16_lt (data : bytes) (init xorout : N) :
  init < 65536 -> xorout < 65536 -> hacker16 data poly init xorout < 65536.
Proof.
  intros Hi Hx. apply (lxor_lt_pow2 _ _ 16); [|assumption].
  now apply crc16_fold_lt.
Qed.

(** Two messages that differ in exactly one byte never share a checksum. *)
Lemma hacker16_one_byte (pre post : bytes) (a b : byte) (init xorout : N) :
  init < 65536 -> a <> b ->
  hacker16 (pre ++ a :: post) poly init xorout
  <> hacker16 (pre ++ b :: post) poly init xorout.
Proof.
  intros Hi Hab E. unfold hacker16 in E. apply lxor_cancel_r in E.
  rewrite !fold_left_app in E. cbn [fold_left] in E.
  apply crc16_fold_inj in E; try apply crc16_byte_lt.
  apply crc16_byte_inj in E; try now apply crc16_fold_lt.
  apply lxor_cancel_l in E. rewrite !N.shiftl_mul_pow2 in E.
  apply Hab, to_N_inj. change (2 ^ 8) with 256 in E. lia.
Qed.
End Crc16.

Lemma body_crc_lt (body : bytes) : body_crc body < 65536.
Proof. apply hacker16_lt; reflexivity. Qed.

Lemma body_crc_one_byte (pre post : bytes) (a b : byte) :
  a <> b -> body_crc (pre ++ a :: post) <> body_crc (pre ++ b :: post).
Proof. apply hacker16_one_byte; reflexivity. Qed.

(** *** Decoding a well-formed header *)

Lemma Type_of_N_value (t : Type_) :
  Type_of_N (Byte.to_N (byte_of_N (Type_value t))) = Some t.
Proof. destruct t; reflexivity. Qed.

Lemma slice_frame (h0 h1 h2 h3 : byte) (body tail : bytes) :
  slice 4 (length body + 4) (h0 :: h1 :: h2 :: h3 :: body ++ tail) = body.
Proof.
  unfold slice. rewrite Nat.add_comm. cbn [Nat.add firstn skipn].
  rewrite firstn_app, Nat.sub_diag, firstn_all. cbn [firstn].
  apply app_nil_r.
Qed.

Lemma skipn_frame (h0 h1 h2 h3 : byte) (body tail : bytes) :
  skipn (length body + 4) (h0 :: h1 :: h2 :: h3 :: body ++ tail) = tail.
Proof.
  rewrite Nat.add_comm. cbn [Nat.add skipn].
  rewrite skipn_app, skipn_all, Nat.sub_diag. reflexivity.
Qed.

(** A buffer that starts with a header announcing [body], then [body]:
    the frame is taken off the buffer and judged by checksum and type. *)
Lemma decode_framed (l0 l1 c0 c1 b : byte) (payload tail : bytes) :
  unpack_H l0 l1 = N.of_nat (length (b :: payload)) ->
  decode (l0 :: l1 :: c0 :: c1 :: (b :: payload) ++ tail) =
  (if negb (body_crc (b :: payload) =? unpack_H c0 c1) then InvalidCrc
   else match Type_of_N (Byte.to_N b) with
        | Some t => Frame t payload
        | None => UnknownType b
        end,
   tail).
Proof.
  intros Hlen. unfold decode.
  replace (length (l0 :: l1 :: c0 :: c1 :: (b :: payload) ++ tail) <? 5)%nat
    with false by (symmetry; apply Nat.ltb_ge; cbn; lia).
  rewrite Hlen.
  replace (N.to_nat (N.of_nat (length (b :: payload)) + 4))
    with (length (b :: payload) + 4)%nat by lia.
  replace (length (l0 :: l1 :: c0 :: c1 :: (b :: payload) ++ tail)
           <? length (b :: payload) + 4)%nat
    with false
    by (symmetry; apply Nat.ltb_ge; cbn [length]; rewrite length_app;
        cbn [length]; lia).
  rewrite slice_frame, skipn_frame.
  destruct (negb (body_crc (b :: payload) =? unpack_H c0 c1)); [reflexivity|].
  destruct (Type_of_N (Byte.to_N b)); reflexivity.
Qed.

(** The packet of [request] is a header in front of the body. *)
Lemma request_packet_shape (t : Type_) (data : option bytes) (packet : bytes) :
  request_packet t data = Some packet ->
  exists l0 l1 c0 c1,
    packet = l0 :: l1 :: c0 :: c1 :: request_body t data
    /\ unpack_H l0 l1 = N.of_nat (length (request_body t data))
    /\ unpack_H c0 c1 = body_crc (request_body t data).
Proof.
  unfold request_packet, header_pack.
  set (body := request_body t data).
  destruct (N.leb_spec (N.of_nat (length body)) 0xFFFF) as [Hl|];
    [|discriminate].
  pose proof (body_crc_lt body) as Hc.
  destruct (N.leb_spec (body_crc body) 0xFFFF) as [_|]; [|lia].
  cbn [andb]. intros [= <-].
  pose proof (unpack_pack_H (N.of_nat (length body))) as P1.
  pose proof (unpack_pack_H (body_crc body)) as P2.
  unfold pack_H in *. cbn [app].
  repeat eexists; [apply P1; lia | apply P2; lia].
Qed.

Lemma request_packet_fits (t : Type_) (data : option bytes) :
  N.of_nat (length (request_body t data)) < 65536 ->
  exists packet, request_packet t data = Some packet.
Proof.
  intros Hl. unfold request_packet, header_pack.
  pose proof (body_crc_lt (request_body t data)) as Hc.
  destruct (N.leb_spec (N.of_nat (length (request_body t data))) 0xFFFF);
    [|lia].
  destruct (N.leb_spec (body_crc (request_body t data)) 0xFFFF); [|lia].
  cbn [andb]. eauto.
Qed.

Lemma request_body_cons (t : Type_) (data : option bytes) :
  request_body t data = byte_of_N (Type_value t) :: payload_of data.
Proof. destruct data; reflexivity. Qed.

(** *** Flipping a bit *)

Lemma flip_bit_neq (k : N) (b : byte) : k < 8 -> flip_bit k b <> b.
Proof.
  intros Hk E. apply (f_equal Byte.to_N) in E.
  unfold flip_bit in E. rewrite to_N_byte_of_N in E.
  assert (Hp : 2 ^ k < 2 ^ 8) by (apply N.pow_lt_mono_r; lia).
  rewrite N.mod_small in E
    by (apply (lxor_lt_pow2 _ _ 8); [apply to_N_lt | assumption]).
  rewrite <- (N.lxor_0_r (Byte.to_N b)) in E at 2.
  apply lxor_cancel_l in E.
  apply N.pow_nonzero in E; [assumption | discriminate].
Qed.

Lemma flip_at_split (i : nat) (k : N) (data : bytes) :
  (i < length data)%nat ->
  exists pre a post,
    data = pre ++ a :: post /\ flip_at i k data = pre ++ flip_bit k a :: post.
Proof.
  revert i. induction data as [|b tl IH]; intros i Hi; [cbn in Hi; lia|].
  destruct i as [|i].
  - exists [], b, tl. split; reflexivity.
  - destruct (IH i) as (pre & a & post & -> & E); [cbn in Hi; lia|].
    exists (b :: pre), a, post. cbn [flip_at app]. now rewrite E.
Qed.

Lemma flip_at_length (i : nat) (k : N) (data : bytes) :
  length (flip_at i k data) = length data.
Proof.
  revert i. induction data as [|b tl IH]; intros [|i]; cbn; auto.
Qed.

(** *** The three codec properties *)

(** C1. For every packet type [t] and every payload whose body fits the
    16-bit length field, [decode] applied to a buffer holding exactly the
    packet that [request] builds (little-endian length and CRC16 in front of
    the body [t ++ payload]) returns [(t, payload)] and leaves the buffer
    empty. *)
Theorem decode_request_packet_roundtrip (t : Type_) (data : option bytes) :
  N.of_nat (length (payload_of data)) < 65535 ->
  exists packet,
    request_packet t data = Some packet
    /\ decode packet = (Frame t (payload_of data), [])
    /\ frame_of (fst (decode packet)) = Some (t, payload_of data).
Proof.
  intros Hlen.
  destruct (request_packet_fits t data) as [packet Hp].
  { rewrite request_body_cons. cbn [length]. lia. }
  exists packet. split; [assumption|].
  destruct (request_packet_shape _ _ _ Hp)
    as (l0 & l1 & c0 & c1 & -> & Hl & Hc).
  rewrite request_body_cons in *.
  rewrite <- (app_nil_r (_ :: payload_of data)).
  rewrite decode_framed by assumption.
  rewrite Hc, N.eqb_refl, Type_of_N_value. cbn. auto.
Qed.

Lemma decode_request_packet_roundtrip_witness :
  exists packet,
    request_packet SHOW_PICTURE (Some ["002"%byte]) = Some packet
    /\ decode packet = (Frame SHOW_PICTURE ["002"%byte], [])
    /\ frame_of (fst (decode packet)) = Some (SHOW_PICTURE, ["002"%byte]).
Proof.
  apply (decode_request_packet_roundtrip SHOW_PICTURE (Some ["002"%byte])).
  vm_compute. reflexivity.
Defined.

(** C7. A buffer holding fewer bytes than its length field announces plus
    four -- and any buffer of fewer than four bytes, where there is no
    header to read -- yields no frame and is left as it was. *)
Theorem decode_short_buffer_untouched (data : bytes) :
  (length data < 4)%nat
  \/ (exists n, declared_length data = Some n
                /\ N.of_nat (length data) < n + 4) ->
  frame_of (fst (decode data)) = None /\ snd (decode data) = data.
Proof.
  intros H. unfold decode.
  destruct (Nat.ltb_spec (length data) 5) as [|H5]; [auto|].
  destruct data as [|l0 [|l1 [|c0 [|c1 tl]]]]; try (cbn in H5; lia).
  destruct H as [H4|(n & Hn & Hlt)]; [cbn in H4; lia|].
  cbn [declared_length] in Hn. injection Hn as <-.
  destruct (Nat.ltb_spec (length (l0 :: l1 :: c0 :: c1 :: tl))
              (N.to_nat (unpack_H l0 l1 + 4))); [auto | lia].
Qed.

Lemma decode_short_buffer_untouched_witness :
  frame_of (fst (decode ["002"; "000"; "253"; "245"; "003"]%byte)) = None
  /\ snd (decode ["002"; "000"; "253"; "245"; "003"]%byte)
     = ["002"; "000"; "253"; "245"; "003"]%byte.
Proof.
  apply (decode_short_buffer_untouched
           ["002"; "000"; "253"; "245"; "003"]%byte).
  right. exists 2. split; [reflexivity | vm_compute; reflexivity].
Defined.

(** C8. Take the packet [request] builds for any type and payload and flip
    one bit of one body byte (the type byte or a payload byte).  [decode]
    then reports no frame, and the whole corrupted frame -- its declared
    length plus four bytes -- is gone from the buffer: what follows it is
    all that remains. *)
Theorem decode_rejects_flipped_bit
    (t : Type_) (data : option bytes) (packet tail : bytes) (i : nat) (k : N) :
  request_packet t data = Some packet ->
  (i < length (request_body t data))%nat ->
  k < 8 ->
  let buffer := flip_at (4 + i) k packet ++ tail in
  exists n,
    declared_length buffer = Some n
    /\ frame_of (fst (decode buffer)) = None
    /\ snd (decode buffer) = skipn (N.to_nat (n + 4)) buffer
    /\ snd (decode buffer) = tail.
Proof.
  intros Hp Hi Hk buffer. subst buffer.
  destruct (request_packet_shape _ _ _ Hp)
    as (l0 & l1 & c0 & c1 & -> & Hl & Hc).
  cbn [Nat.add flip_at].
  destruct (flip_at_split i k _ Hi) as (pre & a & post & Hbody & Hflip).
  pose proof (flip_at_length i k (request_body t data)) as Hlen.
  set (body' := flip_at i k (request_body t data)) in *.
  assert (Hcrc : body_crc body' <> unpack_H c0 c1).
  { rewrite Hc, Hflip, Hbody. apply body_crc_one_byte.
    now apply flip_bit_neq. }
  destruct body' as [|b payload] eqn:Eb.
  { rewrite request_body_cons in Hlen. discriminate. }
  exists (N.of_nat (length (b :: payload))).
  cbn [app declared_length]. rewrite Hl, <- Hlen.
  split; [reflexivity|].
  change (l0 :: l1 :: c0 :: c1 :: b :: payload ++ tail)
    with (l0 :: l1 :: c0 :: c1 :: (b :: payload) ++ tail).
  rewrite decode_framed by (now rewrite Hl, <- Hlen).
  apply N.eqb_neq in Hcrc. rewrite Hcrc. cbn [negb fst snd frame_of].
  replace (N.to_nat (N.of_nat (length (b :: payload)) + 4))
    with (length (b :: payload) + 4)%nat by lia.
  now rewrite skipn_frame.
Qed.

Lemma decode_rejects_flipped_bit_witness :
  exists n,
    declared_length
      (flip_at 5 3 ["002"; "000"; "253"; "245"; "003"; "002"]%byte
       ++ ["001"; "000"]%byte) = Some n
    /\ frame_of (fst (decode
         (flip_at 5 3 ["002"; "000"; "253"; "245"; "003"; "002"]%byte
          ++ ["001"; "000"]%byte))) = None
    /\ snd (decode
         (flip_at 5 3 ["002"; "000"; "253"; "245"; "003"; "002"]%byte
          ++ ["001"; "000"]%byte))
       = skipn (N.to_nat (n + 4))
           (flip_at 5 3 ["002"; "000"; "253"; "245"; "003"; "002"]%byte
            ++ ["001"; "000"]%byte)
    /\ snd (decode
         (flip_at 5 3 ["002"; "000"; "253"; "245"; "003"; "002"]%byte
          ++ ["001"; "000"]%byte)) = ["001"; "000"]%byte.
Proof.
  apply (decode_rejects_flipped_bit SHOW_PICTURE (Some ["002"%byte])
           ["002"; "000"; "253"; "245"; "003"; "002"]%byte
           ["001"; "000"]%byte 1 3).
  - reflexivity.
  - cbn. lia.
  - reflexivity.
Defined.
(* ================================================================== *)
(** * Rounding to binary64 *)

Lemma pow2_pos (x : Z) : (0 < 2 ^ x)%Q.
Proof. now apply Qpower_0_lt. Qed.

Lemma pow2_add (x y : Z) : (2 ^ (x + y) == 2 ^ x * 2 ^ y)%Q.
Proof. now apply Qpower_plus. Qed.

Lemma pow2_succ (x : Z) : (2 ^ (x + 1) == 2 * 2 ^ x)%Q.
Proof. rewrite pow2_add. change (2 ^ 1)%Q with 2%Q. ring. Qed.

Lemma pow2_Z (x : Z) : (0 <= x)%Z -> (inject_Z (2 ^ x) == 2 ^ x)%Q.
Proof. intros H. now rewrite Zpower_Qpower. Qed.

Lemma pow2_le (x y : Z) : (x <= y)%Z -> (2 ^ x <= 2 ^ y)%Q.
Proof. intros H. apply Qpower_le_compat_l; [exact H | discriminate]. Qed.

Lemma log2_bounds (n : Z) :
  (0 < n)%Z ->
  (2 ^ Z.log2 n <= inject_Z n /\ inject_Z n < 2 * 2 ^ Z.log2 n)%Q.
Proof.
  intros Hn. destruct (Z.log2_spec n Hn) as [H1 H2].
  pose proof (Z.log2_nonneg n) as H0.
  rewrite <- pow2_succ, <- !pow2_Z by lia.
  rewrite <- Zle_Qle, <- Zlt_Qlt. split; [exact H1|].
  now rewrite <- Z.add_1_r in H2.
Qed.

Lemma Qlog2_spec (q : Q) :
  (0 < q)%Q -> (2 ^ Qlog2 q <= q /\ q < 2 ^ (Qlog2 q + 1))%Q.
Proof.
  intros Hq. unfold Qlog2.
  destruct q as [n d]. cbn [Qnum Qden].
  assert (Hn : (0 < n)%Z).
  { unfold Qlt in Hq. cbn in Hq. lia. }
  destruct (log2_bounds n Hn) as [A1 A2].
  destruct (log2_bounds (Zpos d) eq_refl) as [B1 B2].
  set (a := Z.log2 n) in *. set (b := Z.log2 (Zpos d)) in *.
  pose proof (pow2_pos a) as Pa. pose proof (pow2_pos b) as Pb.
  assert (E : (2 ^ (a - b) * 2 ^ b == 2 ^ a)%Q).
  { rewrite <- pow2_add. now replace (a - b + b)%Z with a by ring. }
  pose proof (pow2_pos (a - b)) as Pe.
  assert (Eq : (inject_Z n == (n # d) * inject_Z (Zpos d))%Q).
  { rewrite (Qmake_Qdiv n d). field. discriminate. }
  assert (Pd : (0 < inject_Z (Zpos d))%Q) by reflexivity.
  destruct (Qle_bool (2 ^ (a - b)) (n # d)) eqn:T.
  - apply Qle_bool_iff in T. split; [exact T|].
    rewrite pow2_succ.
    apply Qnot_le_lt. intros C.
    assert ((2 * 2 ^ (a - b) * 2 ^ b <= (n # d) * inject_Z (Zpos d))%Q).
    { apply Qmult_le_compat_nonneg; split; lra. }
    lra.
  - assert (T' : (n # d < 2 ^ (a - b))%Q).
    { apply Qnot_le_lt. intros C. apply Qle_bool_iff in C. congruence. }
    replace (a - b - 1 + 1)%Z with (a - b)%Z by ring.
    split; [|exact T'].
    assert (E1 : (2 ^ (a - b) == 2 * 2 ^ (a - b - 1))%Q).
    { rewrite <- pow2_succ.
      now replace (a - b - 1 + 1)%Z with (a - b)%Z by ring. }
    apply Qnot_lt_le. intros C.
    assert (((n # d) * inject_Z (Zpos d) <= 2 ^ (a - b - 1) * (2 * 2 ^ b))%Q).
    { apply Qmult_le_compat_nonneg; split; lra. }
    pose proof (pow2_pos (a - b - 1)).
    nra.
Qed.

Lemma round_half_even_cases (q : Q) :
  let k := Qfloor q in
  (inject_Z k <= q /\ q < inject_Z k + 1)%Q
  /\ (((q - inject_Z k) * 2 < 1)%Q /\ round_half_even q = k
      \/ (1 < (q - inject_Z k) * 2)%Q /\ round_half_even q = (k + 1)%Z
      \/ ((q - inject_Z k) * 2 == 1)%Q
         /\ round_half_even q = if Z.even k then k else (k + 1)%Z).
Proof.
  intros k. split.
  - split; [apply Qfloor_le|].
    pose proof (Qlt_floor q) as H. rewrite inject_Z_plus in H. exact H.
  - unfold round_half_even. fold k.
    destruct (((q - inject_Z k) * 2 ?= 1)%Q) eqn:E.
    + right; right. split; [now apply Qeq_alt | reflexivity].
    + left. split; [now apply Qlt_alt | reflexivity].
    + right; left. split; [now apply Qgt_alt | reflexivity].
Qed.

Lemma round_half_even_le (q : Q) (j : Z) :
  (q <= inject_Z j)%Q -> (round_half_even q <= j)%Z.
Proof.
  intros H. destruct (round_half_even_cases q) as [[F1 F2] C].
  set (k := Qfloor q) in *.
  assert (Hk : (k <= j)%Z) by (rewrite Zle_Qle; lra).
  destruct (Z.eq_dec k j) as [->|N].
  - destruct C as [[_ ->]|[[C _]|[C _]]]; [lia | lra | lra].
  - assert (k + 1 <= j)%Z by lia.
    destruct C as [[_ ->]|[[_ ->]|[_ ->]]]; [lia | lia |].
    destruct (Z.even k); lia.
Qed.

Lemma round_half_even_ge (q : Q) (j : Z) :
  (inject_Z j <= q)%Q -> (j <= round_half_even q)%Z.
Proof.
  intros H. destruct (round_half_even_cases q) as [[F1 F2] C].
  set (k := Qfloor q) in *.
  assert (Hk : (j <= k)%Z).
  { rewrite <- (Qfloor_Z j). now apply Qfloor_resp_le. }
  destruct C as [[_ ->]|[[_ ->]|[_ ->]]]; [lia | lia |].
  destruct (Z.even k); lia.
Qed.

Lemma round_half_even_gt (q : Q) (j : Z) :
  Z.even j = true ->
  ((j < round_half_even q)%Z <-> (inject_Z j + (1 # 2) < q)%Q).
Proof.
  intros Ej. destruct (round_half_even_cases q) as [[F1 F2] C].
  set (k := Qfloor q) in *.
  destruct (Z.lt_trichotomy k j) as [L|[->|G]].
  - assert (Hk : (inject_Z (k + 1) <= inject_Z j)%Q)
      by (rewrite <- Zle_Qle; lia).
    rewrite inject_Z_plus in Hk. change (inject_Z 1) with 1%Q in Hk.
    split; [|intros; exfalso; lra].
    intros H. exfalso.
    destruct C as [[_ E]|[[_ E]|[_ E]]]; rewrite E in H; try lia.
    destruct (Z.even k); lia.
  - destruct C as [[C ->]|[[C ->]|[C ->]]].
    + split; [intros; exfalso; lia | intros; exfalso; lra].
    + split; [intros; lra | intros; lia].
    + rewrite Ej. split; [intros; exfalso; lia | intros; exfalso; lra].
  - assert (Hk : (inject_Z (j + 1) <= inject_Z k)%Q)
      by (rewrite <- Zle_Qle; lia).
    rewrite inject_Z_plus in Hk. change (inject_Z 1) with 1%Q in Hk.
    split; [intros; lra|]. intros _.
    destruct C as [[_ ->]|[[_ ->]|[_ ->]]]; try lia.
    destruct (Z.even k); lia.
Qed.

Lemma Qlog2_unique (q : Q) (e : Z) :
  (2 ^ e <= q)%Q -> (q < 2 ^ (e + 1))%Q -> Qlog2 q = e.
Proof.
  intros H1 H2.
  assert (Hq : (0 < q)%Q) by (pose proof (pow2_pos e); lra).
  destruct (Qlog2_spec q Hq) as [S1 S2].
  set (e' := Qlog2 q) in *.
  destruct (Z.lt_trichotomy e' e) as [L|[E|G]]; [|exact E|].
  - pose proof (pow2_le (e' + 1) e ltac:(lia)). lra.
  - pose proof (pow2_le (e + 1) e' ltac:(lia)). lra.
Qed.

Lemma scaled_unit (c x : Z) :
  (x <= 0)%Z -> (inject_Z (c * 2 ^ (- x)) * 2 ^ x == inject_Z c)%Q.
Proof.
  intros Hx. rewrite inject_Z_mult, pow2_Z by lia.
  rewrite <- Qmult_assoc, <- pow2_add.
  replace (- x + x)%Z with 0%Z by ring. change (2 ^ 0)%Q with 1%Q. ring.
Qed.

Lemma scaled_le (q u : Q) (j : Z) :
  (0 < u)%Q -> (q <= inject_Z j * u)%Q ->
  (inject_Z (round_half_even (q / u)) * u <= inject_Z j * u)%Q.
Proof.
  intros Hu H. apply Qmult_le_compat_r; [|lra].
  rewrite <- Zle_Qle. apply round_half_even_le.
  apply Qle_shift_div_r; assumption.
Qed.

Lemma scaled_ge (q u : Q) (j : Z) :
  (0 < u)%Q -> (inject_Z j * u <= q)%Q ->
  (inject_Z j * u <= inject_Z (round_half_even (q / u)) * u)%Q.
Proof.
  intros Hu H. apply Qmult_le_compat_r; [|lra].
  rewrite <- Zle_Qle. apply round_half_even_ge.
  apply Qle_shift_div_l; assumption.
Qed.

Lemma binary64_abs_nonneg (q : Q) : (0 <= q)%Q -> (0 <= binary64_abs q)%Q.
Proof.
  intros Hq. unfold binary64_abs.
  set (u := (2 ^ _)%Q). assert (Hu : (0 < u)%Q) by apply pow2_pos.
  pose proof (scaled_ge q u 0 Hu) as H.
  change (inject_Z 0) with 0%Q in H. lra.
Qed.

Lemma Qnum_pos (q : Q) (p : positive) : Qnum q = Zpos p -> (0 < q)%Q.
Proof. destruct q as [n d]. cbn. intros ->. reflexivity. Qed.

Lemma Qnum_neg (q : Q) (p : positive) : Qnum q = Zneg p -> (q < 0)%Q.
Proof. destruct q as [n d]. cbn. intros ->. reflexivity. Qed.

Lemma Qnum_zero (q : Q) : Qnum q = 0%Z -> (q == 0)%Q.
Proof. destruct q as [n d]. cbn. intros ->. reflexivity. Qed.

Lemma binary64_pos (q : Q) : (0 < q)%Q -> binary64 q = binary64_abs q.
Proof.
  destruct q as [[|p|p] d]; intros H; [discriminate H | reflexivity |].
  discriminate H.
Qed.

(** Rounding does not cross an integer below [2^53]. *)
Lemma binary64_le_Z (q : Q) (c : Z) :
  (0 <= c < 2 ^ 53)%Z -> (q <= inject_Z c)%Q -> (binary64 q <= inject_Z c)%Q.
Proof.
  intros Hc Hq.
  assert (C0 : (0 <= inject_Z c)%Q).
  { change 0%Q with (inject_Z 0). rewrite <- Zle_Qle. lia. }
  unfold binary64. destruct (Qnum q) as [|p|p] eqn:E.
  - exact C0.
  - apply Qnum_pos in E.
    destruct (Qlog2_spec q E) as [S1 _].
    unfold binary64_abs. set (e := Qlog2 q) in *.
    assert (He : (e < 53)%Z).
    { apply (Qpower_lt_compat_l_inv 2); [|reflexivity].
      rewrite <- (pow2_Z 53) by lia.
      assert (inject_Z c < inject_Z (2 ^ 53))%Q by (rewrite <- Zlt_Qlt; lia).
      lra. }
    set (x := (Z.max e (-1022) - 52)%Z).
    assert (Hx : (x <= 0)%Z) by lia.
    rewrite <- (scaled_unit c x Hx).
    apply scaled_le; [apply pow2_pos|].
    now rewrite (scaled_unit c x Hx).
  - apply Qnum_neg in E.
    pose proof (binary64_abs_nonneg (- q) ltac:(lra)). lra.
Qed.

Lemma binary64_ge_Z (q : Q) (c : Z) :
  (0 < c <= 2 ^ 53)%Z -> (inject_Z c <= q)%Q -> (inject_Z c <= binary64 q)%Q.
Proof.
  intros Hc Hq.
  assert (C0 : (0 < inject_Z c)%Q).
  { change 0%Q with (inject_Z 0). rewrite <- Zlt_Qlt. lia. }
  rewrite binary64_pos by lra.
  destruct (Qlog2_spec q ltac:(lra)) as [S1 _].
  unfold binary64_abs. set (e := Qlog2 q) in *.
  set (x := (Z.max e (-1022) - 52)%Z).
  destruct (Z.le_gt_cases x 0) as [Hx|Hx].
  - rewrite <- (scaled_unit c x Hx).
    apply scaled_ge; [apply pow2_pos|].
    now rewrite (scaled_unit c x Hx).
  - assert (Ex : (e = 52 + x)%Z) by lia.
    assert (E2 : (inject_Z (2 ^ 52) * 2 ^ x == 2 ^ e)%Q).
    { rewrite pow2_Z, <- pow2_add by lia. now rewrite Ex. }
    assert (C1 : (inject_Z c <= inject_Z (2 ^ 52) * 2 ^ x)%Q).
    { rewrite E2. apply Qle_trans with (2 ^ 53)%Q.
      - rewrite <- (pow2_Z 53) by lia. rewrite <- Zle_Qle. lia.
      - apply pow2_le. lia. }
    apply Qle_trans with (1 := C1).
    apply scaled_ge; [apply pow2_pos|]. now rewrite E2.
Qed.

(** Where rounding crosses an integer [c]: half a unit in the last place
    above it, the significand of [c] being even. *)
Lemma binary64_gt_Z (q : Q) (c : Z) :
  (1 <= c < 2 ^ 52)%Z ->
  (inject_Z c < binary64 q <-> inject_Z c + 2 ^ (Z.log2 c - 53) < q)%Q.
Proof.
  intros Hc.
  destruct (Z.log2_spec c ltac:(lia)) as [L1 L2].
  pose proof (Z.log2_nonneg c) as L0.
  set (e := Z.log2 c) in *.
  assert (He : (e < 52)%Z).
  { apply (Z.pow_lt_mono_r_iff 2); lia. }
  pose proof (pow2_pos (e - 53)) as Pu.
  assert (Eu : (2 ^ (e - 52) == 2 * 2 ^ (e - 53))%Q).
  { rewrite <- pow2_succ. now replace (e - 53 + 1)%Z with (e - 52)%Z by ring. }
  assert (U1 : (2 ^ (e - 52) <= 1)%Q).
  { change 1%Q with (2 ^ 0)%Q. apply pow2_le. lia. }
  assert (T : (inject_Z (c + 1) <= 2 ^ (e + 1))%Q).
  { rewrite <- pow2_Z by lia. rewrite <- Zle_Qle.
    rewrite (Z.add_1_r e). lia. }
  rewrite inject_Z_plus in T. change (inject_Z 1) with 1%Q in T.
  destruct (Qlt_le_dec (inject_Z c) q) as [Hq|Hq].
  - destruct (Qlt_le_dec q (2 ^ (e + 1))) as [Hq'|Hq'].
    + assert (B : (2 ^ e <= q)%Q).
      { rewrite <- pow2_Z by lia.
        assert (inject_Z (2 ^ e) <= inject_Z c)%Q by (rewrite <- Zle_Qle; lia).
        lra. }
      assert (Q0 : (0 < q)%Q) by (pose proof (pow2_pos e); lra).
      rewrite binary64_pos by exact Q0.
      unfold binary64_abs. rewrite (Qlog2_unique q e B Hq').
      replace (Z.max e (-1022) - 52)%Z with (e - 52)%Z by lia.
      set (x := (e - 52)%Z) in *.
      pose proof (pow2_pos x) as Px.
      assert (Hx : (x <= 0)%Z) by lia.
      rewrite <- (scaled_unit c x Hx).
      assert (Ej : Z.even (c * 2 ^ (- x)) = true).
      { rewrite Z.even_mul. replace (- x)%Z with (Z.succ (- x - 1)) by lia.
        rewrite Z.pow_succ_r by lia. rewrite Z.even_mul.
        apply orb_true_r. }
      set (j := (c * 2 ^ (- x))%Z) in *.
      rewrite Qmult_lt_r by exact Px.
      rewrite <- Zlt_Qlt, (round_half_even_gt _ _ Ej).
      split; intros H.
      * apply (Qmult_lt_r _ _ _ Px) in H.
        assert (Eq : (q / 2 ^ x * 2 ^ x == q)%Q) by (field; lra).
        rewrite Eq, Qmult_plus_distr_l in H. lra.
      * apply Qlt_shift_div_l; [exact Px|].
        rewrite Qmult_plus_distr_l. lra.
    + split; intros _; [lra|].
      apply Qlt_le_trans with (2 ^ (e + 1))%Q; [lra|].
      rewrite <- (pow2_Z (e + 1)) by lia.
      apply binary64_ge_Z.
      * split; [lia|]. apply Z.pow_le_mono_r; lia.
      * rewrite pow2_Z by lia. exact Hq'.
  - pose proof (binary64_le_Z q c ltac:(lia) Hq).
    split; intros; lra.
Qed.

Lemma float_sub_le_Z (a b : Q) (c : Z) :
  (0 <= c < 2 ^ 53)%Z ->
  (a - b <= inject_Z c)%Q -> Qle_bool (float_sub a b) (inject_Z c) = true.
Proof. intros Hc H. apply Qle_bool_iff. now apply binary64_le_Z. Qed.

(** [float_sub] against the subtraction of the machine's own binary64
    numbers, on differences that are exact, that round up, that round
    down, that round to even, that are subnormal, and that cancel. *)
Example float_sub_agrees_with_machine_floats :
  forallb
    (fun ab =>
       Qeq_bool (float_sub (float_value (fst ab)) (float_value (snd ab)))
                (float_value (fst ab - snd ab)%float))
    [(0x1.18010624dd2f2p+6, 0x1.0624dd2f1a9fcp-10);
     (0x1.1cp+6, 0x0p+0);
     (0x1.8p+0, 0x1.3333333333333p-2);
     (0x1.999999999999ap-4, 0x1.3333333333333p-2);
     (0x1.954fc2f907df4p+30, 0x1.954fc2e7820c5p+30);
     (0x1.954fc2f907df4p+30, 0x1.999999999999ap-4);
     (0x1p+53, 0x1p+0);
     (0x1p+53, -0x1.8p+1);
     (-0x1.4p+1, 0x1.70ef54646d497p-57);
     (0x0.0000000000001p-1022, 0x0.0000000000002p-1022);
     (0x1p-1022, 0x0.fffffffffffffp-1022);
     (0x1.7e43c8800759cp+996, -0x1.56e1fc2f8f359p-997)]%float
  = true.
Proof. vm_compute. reflexivity. Qed.


(* ================================================================== *)
(** * Invariants of the session *)

(** ** Commands that keep an invariant *)

Ltac case_if :=
  match goal with
  | |- keeps _ (if ?c then _ else _) _ => destruct c eqn:?
  | |- keeps_at _ (if ?c then _ else _) _ _ => destruct c eqn:?
  | |- context [if ?c then _ else _] => destruct c eqn:?
  end.

Section Keeps.
Variable I : State -> Prop.

Lemma keeps_ret {A} (a : A) (Q : A -> Prop) : Q a -> keeps I (ret a) Q.
Proof. intros HQ st HI. split; [exact HI|]. now intros ? [= <-]. Qed.

Lemma keeps_stop {A} (h : halt) (Q : A -> Prop) : keeps I (stop h) Q.
Proof. intros st HI. split; [exact HI | discriminate]. Qed.

Lemma keeps_raise {A} (e : exn) (Q : A -> Prop) : keeps I (raise e) Q.
Proof. apply keeps_stop. Qed.

Lemma keeps_at_bind {A B} (m : M A) (k : A -> M B)
    (Q : A -> Prop) (R : B -> Prop) (st : State) :
  keeps_at I m Q st -> (forall a, Q a -> keeps I (k a) R) ->
  keeps_at I (bind m k) R st.
Proof.
  intros [HI' HQ] Hk. unfold keeps_at, bind.
  destruct (m st) as [[a|h] st']; cbn [fst snd] in *.
  - now apply (Hk a (HQ a eq_refl)).
  - split; [exact HI' | discriminate].
Qed.

Lemma keeps_bind {A B} (m : M A) (k : A -> M B)
    (Q : A -> Prop) (R : B -> Prop) :
  keeps I m Q -> (forall a, Q a -> keeps I (k a) R) -> keeps I (bind m k) R.
Proof. intros Hm Hk st HI. eapply keeps_at_bind; eauto. Qed.

(** Reading the object: what follows may use that [s] is the object as
    it is now. *)
Lemma keeps_read {B} (k : Vendista -> M B) (R : B -> Prop) :
  (forall st, I st -> keeps_at I (k (self st)) R st) ->
  keeps I (bind get_self k) R.
Proof. intros Hk st HI. exact (Hk st HI). Qed.

Lemma keeps_at_modify_self (f : Vendista -> Vendista) (st : State) :
  I {| self := f (self st); world := world st |} ->
  keeps_at I (modify_self f) any st.
Proof. intros HI. split; [exact HI | constructor]. Qed.

Lemma keeps_weaken {A} (m : M A) (Q R : A -> Prop) :
  keeps I m Q -> (forall a, Q a -> R a) -> keeps I m R.
Proof.
  intros Hm HQR st HI. destruct (Hm st HI) as [HI' HQ]. split; auto.
Qed.

Lemma keeps_try {A} (body handler : M A) (Q : A -> Prop) :
  keeps I body Q -> keeps I handler Q ->
  keeps I (try_except_serial body handler) Q.
Proof.
  intros Hb Hh st HI. unfold keeps_at, try_except_serial.
  destruct (Hb st HI) as [HI' HQ].
  destruct (body st) as [[a|[[]| |]] st']; cbn [fst snd] in *;
    try (split; [exact HI' | first [exact HQ | discriminate]]).
  now apply Hh.
Qed.

Lemma keeps_finally {A} (body : M A) (cleanup : M unit) (Q : A -> Prop) :
  keeps I body Q -> keeps I cleanup any -> keeps I (finally body cleanup) Q.
Proof.
  intros Hb Hc st HI. unfold keeps_at, finally.
  destruct (Hb st HI) as [HI' HQ].
  destruct (body st) as [[a|[e| |]] st']; cbn [fst snd] in *;
    try (split; [exact HI' | discriminate]).
  - apply (keeps_bind cleanup _ any); [exact Hc | | exact HI'].
    intros _ _. apply keeps_ret. now apply HQ.
  - apply (keeps_bind cleanup _ any); [exact Hc | | exact HI'].
    intros _ _. apply keeps_raise.
Qed.

Lemma keeps_times (n : nat) (m : M unit) :
  keeps I m any -> keeps I (times n m) any.
Proof.
  intros Hm. induction n as [|n IH]; cbn [times].
  - now apply keeps_ret.
  - apply (keeps_bind _ _ any); auto.
Qed.
End Keeps.

(** ** An invariant carried through every method

    [Is] is a property of the object, [Iw] of its surroundings, [okb] of a
    buffer of received bytes and [okf] of the types of frame such a buffer
    can yield.  Under the closure conditions below, which name each
    assignment of the source with the test that guards it, every method
    keeps [inv Is Iw]. *)

Section Invariant.
Variable Is : Vendista -> Prop.
Variable Iw : World -> Prop.
Variable okb : bytes -> Prop.
Variable okf : Type_ -> Prop.

Hypothesis Iw_set_log : forall w v, Iw w -> Iw (set_log v w).
Hypothesis Iw_set_event_queue : forall w v, Iw w -> Iw (set_event_queue v w).
Hypothesis Iw_set_written :
  forall w packet, Iw w -> Iw (set_written (written w ++ [packet]) w).
Hypothesis Iw_set_clock_reads : forall w v, Iw w -> Iw (set_clock_reads v w).
Hypothesis Iw_set_script :
  forall w x tl, Iw w -> script w = x :: tl -> Iw (set_script tl w).
Hypothesis Iw_rx :
  forall w rx tl, Iw w -> script w = PortData rx :: tl ->
                  okb rx /\ okb (firstn 128 rx).
Hypothesis okb_nil : okb [].
Hypothesis okb_rest : forall data, okb data -> okb (snd (decode data)).
Hypothesis okb_frame :
  forall data t p, okb data -> fst (decode data) = Frame t p -> okf t.

Hypothesis Is_set_port : forall s v, Is s -> Is (set_port v s).
Hypothesis Is_set_lock : forall s v, Is s -> Is (set_lock v s).
Hypothesis Is_set_last_check_time :
  forall s v, Is s -> Is (set_last_check_time v s).
Hypothesis Is_set_last_request_time :
  forall s v, Is s -> Is (set_last_request_time v s).
Hypothesis Is_count_error :
  forall s, Is s -> (error_counter s < 10)%Z ->
            Is (set_error_counter (error_counter s + 1)%Z s).
Hypothesis Is_touch :
  forall s p now c,
    Is s -> pending_payment s = Some p ->
    Is (set_pending_payment
          (Some {| p_amount := p_amount p; p_active := false;
                   p_time := now; p_card_number := c |}) s).
Hypothesis Is_close : forall s, Is s -> Is (set_pending_payment None s).
Hypothesis Is_ack :
  forall s, okf ACK -> Is s -> Is (set_error_counter 0%Z s).
Hypothesis Is_report :
  forall s, okf CONNECT_STATE_REPORT -> Is s ->
            Is (set_error_counter 0%Z s).
Hypothesis Is_loss :
  forall s, okf CONNECT_STATE_REPORT -> Is s ->
            connect_state s = SERVER_CONNECTED ->
            Is (set_connection_error true s).
Hypothesis Is_state :
  forall s c, okf CONNECT_STATE_REPORT -> Is s -> Is (set_connect_state c s).
Hypothesis Is_promote :
  forall s, Is s -> error_counter s = 0%Z ->
            Is (set_connect_state DISCONNECTED s).
Hypothesis Is_demote : forall s, Is s -> Is (set_connect_state NONE s).

Let I := inv Is Iw.

Ltac run :=
  intros st [HIs HIw]; unfold keeps_at, I, inv; cbn; repeat split; auto;
  try discriminate.

Lemma keeps_get_self : keeps I get_self Is.
Proof. run. now intros ? [= <-]. Qed.

Lemma keeps_get_world : keeps I get_world Iw.
Proof. run. now intros ? [= <-]. Qed.

Lemma keeps_logger (level : Level) (msg : Message) :
  keeps I (logger level msg) any.
Proof. run. Qed.

Lemma keeps_queue_put (item : QueueItem) : keeps I (queue_put item) any.
Proof. run. Qed.

Lemma keeps_time : keeps I time any.
Proof. run. Qed.

Lemma keeps_transport :
  keeps I transport (fun rx => okb rx /\ okb (firstn 128 rx)).
Proof.
  intros st [HIs HIw]. unfold keeps_at, transport, bind, get_world. cbn.
  destruct (script (world st)) as [|[|rx] tl] eqn:E; cbn.
  - split; [now split|]. intros ? [= <-]. auto.
  - split; [split; eauto | discriminate].
  - split; [split; eauto|]. intros ? [= <-]. eauto.
Qed.

Lemma keeps_set_port (v : option bool) : keeps I (modify_self (set_port v)) any.
Proof. run. Qed.

Lemma keeps_Serial : keeps I Serial any.
Proof.
  apply (keeps_bind _ _ _ _ _ keeps_transport). intros _ _.
  apply keeps_set_port.
Qed.

Lemma keeps_on_port {A} (call : M A) (Q : A -> Prop) :
  keeps I call Q -> keeps I (on_port call) Q.
Proof.
  intros Hc. apply (keeps_bind _ _ _ _ _ keeps_get_self). intros s _.
  destruct (port s) as [[|]|]; auto using keeps_raise.
Qed.

Lemma keeps_port_write (packet : bytes) : keeps I (port_write packet) any.
Proof.
  apply keeps_on_port.
  apply (keeps_bind _ _ _ _ _ keeps_transport). intros _ _. run.
Qed.

Lemma keeps_port_read : keeps I (port_read 128) okb.
Proof.
  apply keeps_on_port.
  apply (keeps_bind _ _ _ _ _ keeps_transport). intros rx [_ Hrx].
  now apply keeps_ret.
Qed.

Lemma keeps_port_read_all : keeps I port_read_all okb.
Proof.
  apply keeps_on_port.
  apply (keeps_weaken _ _ _ _ keeps_transport). now intros rx [Hrx _].
Qed.

Lemma keeps_lock_acquire : keeps I lock_acquire any.
Proof.
  apply (keeps_bind _ _ _ _ _ keeps_get_self). intros s _.
  destruct (lock s); [apply keeps_stop | run].
Qed.

Lemma keeps_lock_release : keeps I lock_release any.
Proof.
  apply (keeps_bind _ _ _ _ _ keeps_get_self). intros s _.
  destruct (lock s); [run | apply keeps_raise].
Qed.

Lemma keeps_with_lock {A} (body : M A) (Q : A -> Prop) :
  keeps I body Q -> keeps I (with_lock body) Q.
Proof.
  intros Hb. apply (keeps_bind _ _ _ _ _ keeps_lock_acquire). intros _ _.
  apply keeps_finally; [exact Hb | apply keeps_lock_release].
Qed.

Lemma keeps_decode_logged (data : bytes) :
  okb data ->
  keeps I (decode_logged data)
    (fun r => okb (snd r)
              /\ forall t p, fst r = Some (t, p) -> okf t).
Proof.
  intros Hd. unfold decode_logged.
  pose proof (okb_rest data Hd) as Hrest.
  pose proof (okb_frame data) as Hframe.
  destruct (decode data) as [d rest]. cbn [fst snd] in *.
  destruct d;
    try (apply (keeps_bind _ _ _ _ _ (keeps_logger _ _)); intros _ _);
    try apply keeps_raise;
    apply keeps_ret; cbn [fst snd]; (split; [assumption|]);
    try discriminate.
  intros t p [= <- <-]. eauto.
Qed.

Lemma keeps_count_error : keeps I count_error any.
Proof.
  intros st [HIs HIw]. unfold keeps_at, count_error, modify_self, I, inv. cbn.
  destruct (Z.ltb_spec (error_counter (self st)) 10); repeat split; auto.
Qed.

Lemma keeps_touch_payment (card_number : option string) :
  keeps I (touch_payment card_number) any.
Proof.
  intros st [HIs HIw]. unfold keeps_at, touch_payment, bind, get_self. cbn.
  destruct (pending_payment (self st)) as [p|] eqn:E; cbn;
    unfold I, inv; cbn; repeat split; eauto.
Qed.

(** *** The methods, given that nested requests keep the invariant *)

Section Nested.
Variable request' : Type_ -> option bytes -> M (option Reply).
Hypothesis keeps_request' : forall t d, keeps I (request' t d) any.

Lemma keeps_show_picture (id : Picture) :
keeps I (show_picture request' id) any.
Proof.
apply (keeps_bind _ _ _ _ _ (keeps_request' _ _)). intros result _.
now apply keeps_ret.
Qed.

Lemma keeps_get_connect_state : keeps I (get_connect_state request') any.
Proof.
apply (keeps_bind _ _ _ _ _ (keeps_request' _ _)). intros result _.
now apply keeps_ret.
Qed.

Lemma keeps_open : keeps I (open request') any.
Proof.
apply (keeps_bind _ _ _ _ _ keeps_get_self). intros s _.
assert (keeps I (Serial ;; logger LOG_INFO Port_opened ;;
                 show_picture request' WAIT ;; ret tt) any) as H.
{ apply (keeps_bind _ _ _ _ _ keeps_Serial). intros _ _.
  apply (keeps_bind _ _ _ _ _ (keeps_logger _ _)). intros _ _.
  apply (keeps_bind _ _ _ _ _ (keeps_show_picture _)). intros _ _.
  now apply keeps_ret. }
destruct (port s) as [[|]|]; [now apply keeps_ret | exact H | exact H].
Qed.

Lemma keeps_show_idle_picture : keeps I (show_idle_picture request') any.
Proof.
apply (keeps_bind _ _ _ _ _ keeps_get_self). intros s _.
apply (keeps_bind _ _ _ _ _ (keeps_show_picture _)). intros _ _.
now apply keeps_ret.
Qed.

Lemma keeps_close_payment : keeps I (close_payment request') any.
Proof.
apply (keeps_bind _ _ _ _ _ keeps_get_self). intros s _.
apply (keeps_bind _ _ _ any); [|intros; apply keeps_show_idle_picture].
destruct (pending_payment s); [|now apply keeps_ret].
apply (keeps_bind _ _ _ any); [|intros; apply keeps_logger].
intros st [HIs HIw]. apply keeps_at_modify_self. split; cbn; auto.
Qed.

Lemma keeps_report (b : byte) :
okf CONNECT_STATE_REPORT ->
keeps I (event request' CONNECT_STATE_REPORT [b]) any.
Proof.
intros Hok. cbn [event].
set (c := reported_state b).
apply (keeps_bind _ _ _ any).
{ intros st [HIs HIw]. apply keeps_at_modify_self. split; cbn; auto. }
intros _ _. apply keeps_read. intros st HI.
destruct (negb (ConnectState_eqb c (connect_state (self st))));
  [|now apply keeps_ret].
assert (keeps I (modify_self (set_connect_state c) ;;
                 logger LOG_INFO (Connect_state c) ;;
                 show_idle_picture request') any) as Htail.
{ apply (keeps_bind _ _ _ any).
  { intros st' [HIs HIw]. apply keeps_at_modify_self. split; cbn; auto. }
  intros _ _. apply (keeps_bind _ _ _ _ _ (keeps_logger _ _)).
  intros _ _. apply keeps_show_idle_picture. }
apply (keeps_at_bind _ _ _ any); [|intros _ _; exact Htail].
destruct (connection_error (self st) && ConnectState_eqb c SERVER_CONNECTED).
{ now apply keeps_queue_put. }
destruct (ConnectState_eqb (connect_state (self st)) SERVER_CONNECTED) eqn:E;
  [|now apply keeps_ret].
apply (keeps_at_bind _ _ _ any); [|intros _ _; apply keeps_queue_put].
apply keeps_at_modify_self. destruct HI as [HIs HIw]. split; cbn; auto.
apply Is_loss; auto.
destruct (connect_state (self st)); try discriminate. reflexivity.
Qed.

Lemma keeps_event (t : Type_) (data : bytes) :
okf t -> keeps I (event request' t data) any.
Proof.
intros Hok. destruct t; try now apply keeps_ret.
- (* TOUCH *) apply keeps_queue_put.
- (* CARD_READ_RESULT *)
  cbn [event]. destruct data as [|result rest]; [apply keeps_raise|].
  destruct (length rest <? 8)%nat; [apply keeps_raise|].
  destruct (Byte.to_N result) as [|[[]|[]|]];
    try (now apply keeps_ret);
    apply (keeps_bind _ _ _ _ _ (keeps_logger _ _)); intros _ _;
    apply keeps_touch_payment.
- (* CARD_AUTH_RESULT *)
  cbn [event]. apply (keeps_bind _ _ _ any);
    [|intros; apply keeps_touch_payment].
  destruct data as [|b [|]]; try apply keeps_logger.
  destruct (Byte.to_N b =? 1); [|apply keeps_logger].
  apply (keeps_bind _ _ _ _ _ keeps_get_self). intros s _.
  destruct (pending_payment s); [|now apply keeps_ret].
  apply (keeps_bind _ _ _ _ _ (keeps_logger _ _)); intros _ _.
  apply keeps_queue_put.
- (* CONNECT_STATE_REPORT *)
  destruct data as [|b [|]]; try now apply keeps_ret.
  now apply keeps_report.
Qed.

Lemma keeps_dispatch_rest (rounds : nat) (received : bytes) :
okb received -> keeps I (dispatch_rest request' rounds received) any.
Proof.
revert received. induction rounds as [|n IH]; intros received Hok;
  destruct received as [|b tl]; cbn [dispatch_rest];
  try (now apply keeps_ret); try apply keeps_stop.
apply (keeps_bind _ _ _ _ _ (keeps_decode_logged _ Hok)).
intros [result received'] [Hrest Hframe]. cbn [fst snd] in *.
apply (keeps_bind _ _ _ any); [|intros; now apply IH].
destruct result as [[t p]|]; [|now apply keeps_ret].
apply keeps_event. eauto.
Qed.

Lemma keeps_dispatch_received (rounds : nat) (received : bytes) :
okb received -> keeps I (dispatch_received request' rounds received) any.
Proof.
revert received. induction rounds as [|n IH]; intros received Hok;
  destruct received as [|b tl]; cbn [dispatch_received];
  try (now apply keeps_ret); try apply keeps_stop.
apply (keeps_bind _ _ _ _ _ (keeps_decode_logged _ Hok)).
intros [result received'] [Hrest Hframe]. cbn [fst snd] in *.
apply (keeps_bind _ _ _ any); [|intros; now apply IH].
destruct result as [[t p]|].
- apply keeps_event. eauto.
- apply (keeps_bind _ _ _ _ _ keeps_get_connect_state). intros _ _.
  now apply keeps_ret.
Qed.

Lemma keeps_after_write (rounds : nat) :
keeps I (after_write request' rounds) any.
Proof.
unfold after_write.
apply (keeps_bind _ _ _ _ _ keeps_port_read). intros received Hrx.
apply (keeps_bind _ _ _ _ _ keeps_lock_release). intros _ _.
destruct received as [|b tl].
{ apply (keeps_bind _ _ _ _ _ keeps_count_error). intros _ _.
  apply (keeps_bind _ _ _ _ _ (keeps_logger _ _)). intros _ _.
  now apply keeps_ret. }
apply (keeps_bind _ _ _ _ _ (keeps_decode_logged _ Hrx)).
intros [response received'] [Hrest Hframe]. cbn [fst snd] in *.
destruct response as [[t' body']|].
- destruct (Type_eqb t' ACK) eqn:E.
  + assert (t' = ACK) as ->
      by (destruct t'; try discriminate; reflexivity).
    apply (keeps_bind _ _ _ any).
    { intros st [HIs HIw]. apply keeps_at_modify_self.
      split; cbn; eauto. }
    intros _ _.
    apply (keeps_bind _ _ _ _ _ (keeps_logger _ _)). intros _ _.
    apply (keeps_bind _ _ _ _ _ (keeps_dispatch_rest _ _ Hrest)).
    intros _ _. now apply keeps_ret.
  + apply (keeps_bind _ _ _ _ _ (keeps_logger _ _)). intros _ _.
    apply (keeps_bind _ _ _ _ _ (keeps_dispatch_rest _ _ Hrest)).
    intros _ _. now apply keeps_ret.
- apply (keeps_bind _ _ _ _ _ keeps_count_error). intros _ _.
  apply (keeps_bind _ _ _ _ _ (keeps_logger _ _)). intros _ _.
  now apply keeps_ret.
Qed.

Lemma keeps_request_except :
keeps I (lock_release ;; count_error ;;
         logger LOG_ERROR Serial_error ;; ret None) (@any (option Reply)).
Proof.
apply (keeps_bind _ _ _ _ _ keeps_lock_release). intros _ _.
apply (keeps_bind _ _ _ _ _ keeps_count_error). intros _ _.
apply (keeps_bind _ _ _ _ _ (keeps_logger _ _)). intros _ _.
now apply keeps_ret.
Qed.

Lemma keeps_request_once (rounds : nat) (t : Type_) (data : option bytes) :
keeps I (request_once request' rounds t data) any.
Proof.
unfold request_once.
apply (keeps_bind _ _ _ _ _ (keeps_logger _ _)). intros _ _.
apply (keeps_bind _ _ _ any).
{ destruct (request_packet t data);
    [now apply keeps_ret | apply keeps_raise]. }
intros packet _.
apply (keeps_bind _ _ _ _ _ keeps_time). intros now _.
apply (keeps_bind _ _ _ any).
{ intros st [HIs HIw]. apply keeps_at_modify_self. split; cbn; auto. }
intros _ _. apply keeps_try.
- apply (keeps_bind _ _ _ _ _ keeps_open). intros _ _.
  apply (keeps_bind _ _ _ _ _ keeps_lock_acquire). intros _ _.
  apply (keeps_bind _ _ _ _ _ (keeps_port_write _)). intros _ _.
  apply keeps_after_write.
- apply keeps_request_except.
Qed.

Lemma keeps_check_pending_transaction :
keeps I (check_pending_transaction request') any.
Proof.
apply (keeps_bind _ _ _ _ _ keeps_get_self). intros s _.
destruct (pending_payment s); [|now apply keeps_ret].
apply (keeps_bind _ _ _ _ _ keeps_time). intros now _. cbv zeta.
case_if; [apply keeps_close_payment | now apply keeps_ret].
Qed.

Lemma keeps_check_connection_status : keeps I check_connection_status any.
Proof.
apply keeps_read. intros st [HIs HIw].
destruct (Z.eqb_spec (error_counter (self st)) 0); cbn [andb].
- case_if.
  + apply keeps_at_modify_self. split; cbn; auto.
  + case_if; [|now apply keeps_ret].
    apply (keeps_at_bind _ _ _ any); [|intros; apply keeps_logger].
    apply keeps_at_modify_self. split; cbn; auto.
- case_if; [|now apply keeps_ret].
  apply (keeps_at_bind _ _ _ any); [|intros; apply keeps_logger].
  apply keeps_at_modify_self. split; cbn; auto.
Qed.

Lemma keeps_check_heartbeat : keeps I (check_heartbeat request') any.
Proof.
apply (keeps_bind _ _ _ _ _ keeps_get_self). intros s _.
apply (keeps_bind _ _ _ any).
{ destruct (last_check_time s); [|now apply keeps_ret].
  apply (keeps_bind _ _ _ _ _ keeps_time). intros now _.
  now apply keeps_ret. }
intros [|] _; [|now apply keeps_ret].
apply (keeps_bind _ _ _ _ _ keeps_time). intros now _.
apply (keeps_bind _ _ _ any).
{ intros st [HIs HIw]. apply keeps_at_modify_self. split; cbn; auto. }
intros _ _.
apply (keeps_bind _ _ _ _ _ keeps_get_connect_state). intros _ _.
now apply keeps_ret.
Qed.

Lemma keeps_prevent_sleep : keeps I (prevent_sleep request') any.
Proof.
apply (keeps_bind _ _ _ _ _ keeps_get_self). intros s _.
destruct (last_request_time s); [|apply keeps_raise].
apply (keeps_bind _ _ _ _ _ keeps_time). intros now _.
case_if; [apply keeps_show_idle_picture | now apply keeps_ret].
Qed.

Lemma keeps_loop_round (rounds : nat) :
keeps I (loop_round request' rounds) any.
Proof.
apply (keeps_bind _ _ _ okb).
{ apply keeps_with_lock, keeps_port_read_all. }
intros received Hrx.
apply (keeps_bind _ _ _ _ _ (keeps_dispatch_received _ _ Hrx)).
intros _ _.
apply (keeps_bind _ _ _ _ _ keeps_check_pending_transaction). intros _ _.
apply (keeps_bind _ _ _ _ _ keeps_check_connection_status). intros _ _.
apply (keeps_bind _ _ _ _ _ keeps_check_heartbeat). intros _ _.
apply keeps_prevent_sleep.
Qed.
End Nested.

Lemma keeps_loop_except : keeps I loop_except any.
Proof.
  apply (keeps_bind _ _ _ _ _ keeps_get_self). intros s _.
  apply (keeps_bind _ _ _ any).
  { destruct (lock s); [apply keeps_lock_release | now apply keeps_ret]. }
  intros _ _. apply (keeps_bind _ _ _ any); [|intros; apply keeps_logger].
  intros st [HIs HIw]. apply keeps_at_modify_self. split; cbn; auto.
Qed.

(** [request], at every depth of nesting. *)
Lemma keeps_request (depth : nat) (t : Type_) (data : option bytes) :
  keeps I (request depth t data) any.
Proof.
  revert t data. induction depth as [|depth IH]; intros t data.
  - apply keeps_stop.
  - cbn [request]. now apply keeps_request_once.
Qed.
End Invariant.

(** ** Four invariants *)

(** *** The error counter stays within [0, 10] *)

Lemma request_keeps_counter_in_range (depth : nat) (t : Type_)
    (data : option bytes) :
  keeps (inv counter_in_range any) (request depth t data) any.
Proof.
  apply keeps_request with (okb := any) (okf := any);
    unfold counter_in_range, any; cbn; intros; auto; lia.
Qed.


(** *** The flag [connection_error], once set, stays set *)

Lemma request_keeps_error_flagged (depth : nat) (t : Type_)
    (data : option bytes) :
  keeps (inv error_flagged any) (request depth t data) any.
Proof.
  apply keeps_request with (okb := any) (okf := any);
    unfold error_flagged, any; cbn; intros; auto.
Qed.

Lemma event_keeps_error_flagged (depth : nat) (t : Type_) (data : bytes) :
  keeps (inv error_flagged any) (event (request depth) t data) any.
Proof.
  apply keeps_event with (okf := any);
    try apply request_keeps_error_flagged;
    unfold error_flagged, any; cbn; intros; auto.
Qed.

(** *** No payment appears by itself *)

Lemma request_keeps_no_payment (depth : nat) (t : Type_)
    (data : option bytes) :
  keeps (inv no_payment any) (request depth t data) any.
Proof.
  apply keeps_request with (okb := any) (okf := any);
    unfold no_payment, any; cbn; intros; auto; congruence.
Qed.

(** *** Without an ACK or a report the object stays unconnected *)

Lemma decode_rest_skipn (data : bytes) :
  exists j, snd (decode data) = skipn j data.
Proof.
  unfold decode.
  destruct (length data <? 5)%nat; [now exists 0%nat|].
  destruct data as [|l0 [|l1 [|c0 [|c1 tl]]]]; try now exists 0%nat.
  set (data := l0 :: l1 :: c0 :: c1 :: tl).
  destruct (length data <? _)%nat; [now exists 0%nat|].
  destruct (negb _); [eexists; reflexivity|].
  destruct (slice _ _ _); [eexists; reflexivity|].
  destruct (Type_of_N _); eexists; reflexivity.
Qed.

Lemma quiet_bytes_buffer (data : bytes) :
  quiet_bytes data = true -> quiet_buffer data.
Proof.
  unfold quiet_bytes. rewrite forallb_forall. intros H k.
  destruct (Nat.le_gt_cases k (length data)) as [Hk|Hk].
  - apply negb_true_iff, H, in_seq. lia.
  - rewrite skipn_all2 by lia.
    rewrite <- (skipn_all data).
    apply negb_true_iff, H, in_seq. lia.
Qed.

Lemma quiet_buffer_rest (data : bytes) :
  quiet_buffer data -> quiet_buffer (snd (decode data)).
Proof.
  intros H k. destruct (decode_rest_skipn data) as [j ->].
  rewrite skipn_skipn. apply H.
Qed.

Lemma quiet_buffer_frame (data : bytes) (t : Type_) (p : bytes) :
  quiet_buffer data -> fst (decode data) = Frame t p -> quiet_type t.
Proof.
  intros H E. specialize (H 0%nat). cbn [skipn] in H. rewrite E in H.
  split; intros ->; discriminate.
Qed.

Lemma quiet_buffer_nil : quiet_buffer [].
Proof. intros k. now rewrite skipn_nil. Qed.

Lemma request_keeps_unconnected (depth : nat) (t : Type_)
    (data : option bytes) :
  keeps (inv unconnected quiet_world) (request depth t data) any.
Proof.
  apply keeps_request with (okb := quiet_buffer) (okf := quiet_type);
    unfold unconnected, quiet_world, quiet_type, quiet; cbn; intros;
    auto using quiet_buffer_nil, quiet_buffer_rest;
    try (eapply quiet_buffer_frame; eassumption);
    try tauto; try lia.
  - rewrite H0 in H. cbn in H. now apply andb_true_iff in H.
  - rewrite H0 in H. cbn in H.
    apply andb_true_iff in H. destruct H as [H _].
    apply andb_true_iff in H. destruct H.
    split; now apply quiet_bytes_buffer.
  - split; [lia | tauto].
Qed.

Ltac unconnected_conditions :=
  unfold unconnected, quiet_world, quiet_type, quiet; cbn; intros;
  auto using quiet_buffer_nil, quiet_buffer_rest;
  try (eapply quiet_buffer_frame; eassumption);
  try tauto; try lia.

Lemma loop_round_keeps_unconnected (depth rounds : nat) :
  keeps (inv unconnected quiet_world) (loop_round (request depth) rounds) any.
Proof.
  apply keeps_loop_round with (okb := quiet_buffer) (okf := quiet_type);
    try apply request_keeps_unconnected; unconnected_conditions.
  all: try (rewrite H0 in H; cbn in H; apply andb_true_iff in H).
  all: try tauto.
  all: try (destruct H as [H _]; apply andb_true_iff in H; destruct H;
            split; now apply quiet_bytes_buffer).
  all: try (split; [lia | tauto]).
Qed.

Lemma open_keeps_unconnected (depth : nat) :
  keeps (inv unconnected quiet_world) (open (request depth)) any.
Proof.
  apply keeps_open with (okb := quiet_buffer);
    try apply request_keeps_unconnected; unconnected_conditions.
  all: try (rewrite H0 in H; cbn in H; apply andb_true_iff in H).
  all: try tauto.
  all: try (destruct H as [H _]; apply andb_true_iff in H; destruct H;
            split; now apply quiet_bytes_buffer).
Qed.

Lemma loop_except_keeps_unconnected :
  keeps (inv unconnected quiet_world) loop_except any.
Proof. apply keeps_loop_except; unconnected_conditions. Qed.

(* ================================================================== *)
(** * No [SerialException] leaves [request] *)

Lemma calm_ret {A} (a : A) : calm (ret a).
Proof. intros st. discriminate. Qed.

Lemma calm_bind {A B} (m : M A) (k : A -> M B) :
  calm m -> (forall a, calm (k a)) -> calm (bind m k).
Proof.
  intros Hm Hk st. unfold bind. specialize (Hm st).
  destruct (m st) as [[a|h] st']; [apply Hk|].
  cbn in *. intros [= ->]. now apply Hm.
Qed.

Lemma calm_try {A} (body handler : M A) :
  calm handler -> calm (try_except_serial body handler).
Proof.
  intros Hh st. unfold try_except_serial.
  destruct (body st) as [[a|[[]| |]] st']; cbn; try discriminate.
  apply Hh.
Qed.


Lemma calm_modify_self (f : Vendista -> Vendista) : calm (modify_self f).
Proof. intros st. discriminate. Qed.

Lemma calm_logger (level : Level) (msg : Message) : calm (logger level msg).
Proof. intros st. discriminate. Qed.


Lemma calm_time : calm time.
Proof. intros st. discriminate. Qed.

Lemma calm_get_self : calm get_self.
Proof. intros st. discriminate. Qed.

Lemma calm_count_error : calm count_error.
Proof. intros st. discriminate. Qed.

Lemma calm_lock_release : calm lock_release.
Proof.
  intros st. unfold lock_release, bind, get_self.
  destruct (lock (self st)); discriminate.
Qed.



Lemma calm_request (depth : nat) (t : Type_) (data : option bytes) :
  calm (request depth t data).
Proof.
  destruct depth as [|depth]; [intros st; discriminate|].
  cbn [request]. unfold request_once.
  apply calm_bind; [apply calm_logger | intros _].
  apply calm_bind; [destruct (request_packet t data); intros st; discriminate|].
  intros packet. apply calm_bind; [apply calm_time | intros now].
  apply calm_bind; [apply calm_modify_self | intros _].
  apply calm_try.
  apply calm_bind; [apply calm_lock_release | intros _].
  apply calm_bind; [apply calm_count_error | intros _].
  apply calm_bind; [apply calm_logger | intros _]. apply calm_ret.
Qed.

Section CalmNested.
Variable request' : Type_ -> option bytes -> M (option Reply).
Hypothesis calm_request' : forall t d, calm (request' t d).



End CalmNested.

(* ================================================================== *)
(** * The state machine of the poll loop *)

Lemma keeps_loop_pass (Is : Vendista -> Prop) (Iw : World -> Prop)
    (depth rounds n : nat) :
  (forall t d, keeps (inv Is Iw) (request depth t d) any) ->
  (forall r, keeps (inv Is Iw) (loop_round (request depth) r) any) ->
  keeps (inv Is Iw) (open (request depth)) any ->
  keeps (inv Is Iw) loop_except any ->
  keeps (inv Is Iw) (loop_pass depth rounds n) any.
Proof.
  intros Hreq Hround Hopen Hexcept. apply keeps_try; [|exact Hexcept].
  apply (keeps_bind _ _ _ any); [exact Hopen|]. intros _ _.
  now apply keeps_times.
Qed.

Lemma check_connection_status_idle (st : State) :
  connect_state (self st) = NONE ->
  error_counter (self st) <> 0%Z ->
  check_connection_status st = (Done tt, st).
Proof.
  intros Hc He. unfold check_connection_status, bind, get_self. cbn.
  rewrite Hc. apply Z.eqb_neq in He. rewrite He. cbn.
  now rewrite andb_false_r.
Qed.

Lemma times_idle (n : nat) (m : M unit) (st : State) :
  m st = (Done tt, st) -> times n m st = (Done tt, st).
Proof.
  intros Hm. induction n as [|n IH]; [reflexivity|].
  cbn [times]. unfold bind. now rewrite Hm.
Qed.

(** C9. One evaluation of the rule on the counter: with the counter at 0
    and the state [NONE], the state becomes [DISCONNECTED] and nothing
    else changes; with the counter above 5 and the state above [NONE],
    the state becomes [NONE] and one error record is logged; and however
    many evaluations follow while the counter is above 5, they change
    nothing more: the demotion is logged once. *)
Theorem check_connection_status_rule (st : State) :
  (error_counter (self st) = 0%Z -> connect_state (self st) = NONE ->
   check_connection_status st =
   (Done tt, {| self := set_connect_state DISCONNECTED (self st);
                world := world st |}))
  /\ ((5 < error_counter (self st))%Z ->
      ConnectState_gtb (connect_state (self st)) NONE = true ->
      check_connection_status st =
      (Done tt,
       {| self := set_connect_state NONE (self st);
          world := set_log (log (world st) ++ [(LOG_ERROR, Connect_state NONE)])
                     (world st) |})
      /\ forall n,
           times (S n) check_connection_status st =
           check_connection_status st).
Proof.
  split.
  - intros He Hc. unfold check_connection_status, bind, get_self. cbn.
    now rewrite He, Hc.
  - intros He Hc.
    assert (E : check_connection_status st =
      (Done tt,
       {| self := set_connect_state NONE (self st);
          world := set_log (log (world st) ++ [(LOG_ERROR, Connect_state NONE)])
                     (world st) |})).
    { unfold check_connection_status, bind, get_self. cbn.
      rewrite Hc. rewrite (proj2 (Z.ltb_lt _ _) He).
      destruct (Z.eqb_spec (error_counter (self st)) 0); [lia|].
      reflexivity. }
    split; [exact E|]. intros n. cbn [times]. unfold bind. rewrite E.
    apply times_idle, check_connection_status_idle; [reflexivity | cbn; lia].
Qed.

Lemma check_connection_status_rule_witness :
  check_connection_status
    {| self := set_error_counter 0 init; world := world_of [] demo_clock |}
  = (Done tt,
     {| self := set_connect_state DISCONNECTED (set_error_counter 0 init);
        world := world_of [] demo_clock |})
  /\ check_connection_status
       {| self := set_connect_state SERVER_CONNECTED (set_error_counter 6 init);
          world := world_of [] demo_clock |}
     = (Done tt,
        {| self := set_connect_state NONE
                     (set_connect_state SERVER_CONNECTED
                        (set_error_counter 6 init));
           world := set_log [(LOG_ERROR, Connect_state NONE)]
                      (world_of [] demo_clock) |})
  /\ times 4 check_connection_status
       {| self := set_connect_state SERVER_CONNECTED (set_error_counter 6 init);
          world := world_of [] demo_clock |}
     = check_connection_status
         {| self := set_connect_state SERVER_CONNECTED
                      (set_error_counter 6 init);
            world := world_of [] demo_clock |}.
Proof.
  split; [|split].
  - apply (proj1 (check_connection_status_rule
                    {| self := set_error_counter 0 init;
                       world := world_of [] demo_clock |}));
      reflexivity.
  - apply (proj2 (check_connection_status_rule
                    {| self := set_connect_state SERVER_CONNECTED
                                 (set_error_counter 6 init);
                       world := world_of [] demo_clock |}));
      reflexivity.
  - apply (proj2 (check_connection_status_rule
                    {| self := set_connect_state SERVER_CONNECTED
                                 (set_error_counter 6 init);
                       world := world_of [] demo_clock |}));
      reflexivity.
Defined.

(** C10. A fresh object has its counter at 10, the state [NONE] and no
    payment.  From there, as long as what the port delivers holds no ACK
    and no connect-state report, the thread of the object -- [open] and
    any number of rounds -- and any [request] made meanwhile leave the
    state at [NONE] and the counter above 0: the rule cannot promote. *)
Theorem fresh_session_stays_unconnected
    (depth rounds n : nat) (t : Type_) (data : option bytes) (w : World) :
  quiet w = true ->
  error_counter init = 10%Z /\ connect_state init = NONE
  /\ pending_payment init = None
  /\ (let st' :=
        snd (loop_pass depth rounds n {| self := init; world := w |}) in
      connect_state (self st') = NONE /\ (1 <= error_counter (self st'))%Z)
  /\ (let st' := snd (request depth t data {| self := init; world := w |}) in
      connect_state (self st') = NONE /\ (1 <= error_counter (self st'))%Z
      /\ check_connection_status st' = (Done tt, st')).
Proof.
  intros Hq. repeat (split; [reflexivity|]).
  assert (Hinit : inv unconnected quiet_world {| self := init; world := w |}).
  { split; [|exact Hq]. split; [cbn; lia | reflexivity]. }
  split.
  - destruct (keeps_loop_pass unconnected quiet_world depth rounds n) with
      (st := {| self := init; world := w |}) as [[[[H1 _] H2] _] _];
      auto using request_keeps_unconnected,
        loop_round_keeps_unconnected, open_keeps_unconnected,
        loop_except_keeps_unconnected.
  - destruct (request_keeps_unconnected depth t data _ Hinit)
      as [[[[H1 _] H2] _] _].
    repeat split; auto. apply check_connection_status_idle; [auto | lia].
Qed.

Lemma fresh_session_stays_unconnected_witness :
  error_counter init = 10%Z /\ connect_state init = NONE
  /\ pending_payment init = None
  /\ (let st' := snd (loop_pass 3 8 2
                        {| self := init;
                           world := world_of [PortData []; PortError]
                                      demo_clock |}) in
      connect_state (self st') = NONE /\ (1 <= error_counter (self st'))%Z)
  /\ (let st' := snd (request 3 CONNECT_STATE_REQUEST None
                        {| self := init;
                           world := world_of [PortData []; PortError]
                                      demo_clock |}) in
      connect_state (self st') = NONE /\ (1 <= error_counter (self st'))%Z
      /\ check_connection_status st' = (Done tt, st')).
Proof.
  apply (fresh_session_stays_unconnected 3 8 2 CONNECT_STATE_REQUEST None
           (world_of [PortData []; PortError] demo_clock)).
  reflexivity.
Defined.

(* ================================================================== *)
(** * The loop over the received bytes *)

Lemma decode_logged_residue (received : bytes) (st : State) :
  (length received < 5)%nat ->
  fst (decode_logged received st) = Done (None, received).
Proof.
  intros Hlen. unfold decode_logged, decode.
  apply Nat.ltb_lt in Hlen. now rewrite Hlen.
Qed.

(** A buffer of one to four bytes is never used up: every round leaves it
    as it is, so the loop goes on for as long as it is allowed to. *)
Lemma dispatch_received_residue
    (request' : Type_ -> option bytes -> M (option Reply))
    (rounds : nat) (received : bytes) (st : State) :
  (0 < length received < 5)%nat ->
  fst (dispatch_received request' rounds received st) <> Done tt.
Proof.
  intros [Hpos Hlen]. revert st.
  induction rounds as [|n IH]; intros st;
    (destruct received as [|b tl] eqn:E; [cbn in Hpos; lia|]);
    cbn [dispatch_received]; [discriminate|].
  rewrite <- E in *. unfold bind at 1.
  pose proof (decode_logged_residue received st Hlen) as Hd.
  destruct (decode_logged received st) as [o st1]. cbn [fst] in Hd. subst o.
  unfold bind at 1.
  destruct ((get_connect_state request';; ret tt) st1) as [[[]|h] st2];
    [apply IH | discriminate].
Qed.

(** On a silent line a request without data returns nothing, and the line is
    silent afterwards. *)
Lemma request_silent (depth : nat) (t : Type_) (st : State) :
  silent st ->
  exists st', request (S depth) t None st = (Done None, st') /\ silent st'.
Proof.
  intros (Hport & Hlock & Hsc).
  destruct (request_packet_fits t None) as [packet Hp]; [cbn; lia|].
  destruct st as [[p0 l0 pp0 cs0 ce0 lct0 ec0 lrt0] [sc ck0 cr0 wr0 q0 lg0]].
  cbn in Hport, Hlock, Hsc. subst.
  cbn [request]. unfold request_once. rewrite Hp.
  cbn -[request_body]. eexists. split; [reflexivity|].
  unfold silent. destruct (ec0 <? 10)%Z; cbn; auto.
Qed.

Lemma get_connect_state_silent (depth : nat) (st : State) :
  silent st ->
  exists st',
    (get_connect_state (request (S depth)) ;; ret tt) st = (Done tt, st')
    /\ silent st'.
Proof.
  intros Hs.
  destruct (request_silent depth CONNECT_STATE_REQUEST st Hs)
    as (st' & Hr & Hs').
  exists st'. split; [|exact Hs'].
  unfold bind, get_connect_state, bind. now rewrite Hr.
Qed.

Lemma dispatch_received_silent (depth rounds : nat) (st : State) :
  silent st ->
  fst (dispatch_received (request (S depth)) rounds ["000"%byte] st)
  = Halt OutOfFuel.
Proof.
  revert st. induction rounds as [|n IH]; intros st Hs; [reflexivity|].
  cbn [dispatch_received]. unfold bind at 1.
  assert (Hd : decode_logged ["000"%byte] st
               = (Done (None, ["000"%byte]),
                  {| self := self st;
                     world := set_log
                                (log (world st)
                                 ++ [(LOG_DEBUG, Invalid_packet ["000"%byte])])
                                (world st) |})) by reflexivity.
  rewrite Hd. cbv beta iota. unfold bind at 1.
  destruct (get_connect_state_silent depth
              {| self := self st;
                 world := set_log
                            (log (world st)
                             ++ [(LOG_DEBUG, Invalid_packet ["000"%byte])])
                            (world st) |})
    as (st' & Hr & Hs').
  { destruct Hs as (H1 & H2 & H3). repeat split; cbn; auto. }
  rewrite Hr. now apply IH.
Qed.

(** C2, at the buffer that holds the single byte [00]: whatever the depth
    allowed to nested calls, the number of rounds allowed to the loop and
    the state it starts from, the loop of the poll round does not come to
    its end -- each round [decode] rejects the byte without taking it,
    a connect-state request is made, and the byte is still there.  On an
    open port that stays silent no exception cuts the loop short either:
    however many rounds it is given, it uses them all. *)
Theorem dispatch_received_never_ends (depth rounds : nat) (st : State) :
  fst (dispatch_received (request depth) rounds ["000"%byte] st) <> Done tt
  /\ fst (dispatch_received (request (S depth)) rounds ["000"%byte]
            {| self := set_port (Some true) init;
               world := world_of [] demo_clock |})
     = Halt OutOfFuel.
Proof.
  split.
  - apply dispatch_received_residue. cbn. lia.
  - apply dispatch_received_silent. repeat split.
Qed.

(** Forty rounds on that byte: forty connect-state requests written. *)
Example dispatch_received_busy :
  length (written (world (snd
    (dispatch_received (request 1) 40 ["000"%byte]
       {| self := set_port (Some true) init;
          world := world_of [] demo_clock |})))) = 40%nat.
Proof. vm_compute. reflexivity. Qed.

(** The same loop does end on a buffer made of whole frames. *)
Example dispatch_received_ack :
  fst (dispatch_received (request 2) 2
         ["001"; "000"; "128"; "130"; "021"]%byte
         {| self := set_port (Some true) init;
            world := world_of [] demo_clock |})
  = Done tt.
Proof. reflexivity. Qed.

(* ================================================================== *)
(** * The error counter *)






Lemma ConnectState_eqb_eq (a b : ConnectState) :
  ConnectState_eqb a b = true <-> a = b.
Proof. destruct a, b; cbn; split; intros H; congruence. Qed.

(** A report of one byte, up to the point where the idle picture is shown
    again: the counter is 0; the flag is set if it was set, or if the
    state was [SERVER_CONNECTED] and the report says otherwise; a report of
    recovery is put on the queue and leaves the flag set. *)
Lemma event_report_steps
    (request' : Type_ -> option bytes -> M (option Reply))
    (b : byte) (st : State) :
  exists st0,
    error_counter (self st0) = 0%Z
    /\ (event request' CONNECT_STATE_REPORT [b] st = (Done tt, st0)
        \/ event request' CONNECT_STATE_REPORT [b] st
           = show_idle_picture request' st0)
    /\ (connection_error (self st0) = true <->
        connection_error (self st) = true
        \/ (connect_state (self st) = SERVER_CONNECTED
            /\ reported_state b <> SERVER_CONNECTED))
    /\ (connection_error (self st) = true ->
        reported_state b = SERVER_CONNECTED ->
        connect_state (self st) <> SERVER_CONNECTED ->
        connection_error (self st0) = true
        /\ event_queue (world st0)
           = event_queue (world st)
             ++ [Connect_state_item (ConnectState_str SERVER_CONNECTED)]).
Proof.
  destruct st as [[p0 l0 pp0 cs0 ce0 lct0 ec0 lrt0] w0].
  cbn -[show_idle_picture reported_state ConnectState_eqb].
  destruct (ConnectState_eqb (reported_state b) cs0) eqn:E1; cbn [negb].
  - apply ConnectState_eqb_eq in E1.
    eexists. split; [|split; [left; reflexivity|]]; [reflexivity|].
    cbn. split; [|intros; congruence].
    split; [auto|]. intros [H|[H1 H2]]; congruence.
  - assert (N1 : reported_state b <> cs0).
    { intros H. apply ConnectState_eqb_eq in H. congruence. }
    unfold bind.
    destruct ce0; cbn [andb].
    + destruct (ConnectState_eqb (reported_state b) SERVER_CONNECTED) eqn:E2.
      * apply ConnectState_eqb_eq in E2.
        cbn -[show_idle_picture reported_state].
        eexists. split; [|split; [right; reflexivity|]]; [reflexivity|].
        cbn -[reported_state]. rewrite E2. split; [tauto | auto].
      * destruct (ConnectState_eqb cs0 SERVER_CONNECTED) eqn:E3;
          cbn -[show_idle_picture reported_state];
          (eexists; split; [|split; [right; reflexivity|]]; [reflexivity|]);
          cbn -[reported_state];
          (split; [tauto|]); intros _ H; apply ConnectState_eqb_eq in H;
          congruence.
    + destruct (ConnectState_eqb cs0 SERVER_CONNECTED) eqn:E3;
        cbn -[show_idle_picture reported_state];
        (eexists; split; [|split; [right; reflexivity|]]; [reflexivity|]);
        cbn -[reported_state]; (split; [|intros; congruence]).
      * apply ConnectState_eqb_eq in E3. subst cs0. split; auto.
      * split; [discriminate|]. intros [H|[H _]]; [discriminate|].
        apply ConnectState_eqb_eq in H. congruence.
Qed.





(* ================================================================== *)
(** * A port that cannot be opened *)

(** C4, at a closed port that refuses to open, the lock being free: the
    [SerialException] of [Serial(...)] is caught, but the handler releases
    a lock that was never taken, and [request] ends in [RuntimeError];
    the counter is not touched and no error is logged. *)
Theorem request_open_failure_escapes :
  fst (request 2 CONNECT_STATE_REQUEST None
         {| self := set_error_counter 3 init;
            world := world_of [PortError] demo_clock |})
  = Halt (Raised RuntimeError)
  /\ error_counter
       (self (snd (request 2 CONNECT_STATE_REQUEST None
                     {| self := set_error_counter 3 init;
                        world := world_of [PortError] demo_clock |})))
     = 3%Z
  /\ log (world (snd (request 2 CONNECT_STATE_REQUEST None
                        {| self := set_error_counter 3 init;
                           world := world_of [PortError] demo_clock |})))
     = [(LOG_DEBUG, Send_packet CONNECT_STATE_REQUEST ["016"%byte])].
Proof. repeat split. Qed.

(** The handler of the poll loop tests the lock before it releases it:
    there the same failure is absorbed. *)
Example loop_pass_open_failure_absorbed :
  fst (loop_pass 2 2 1
         {| self := set_error_counter 3 init;
            world := world_of [PortError] demo_clock |})
  = Done tt.
Proof. reflexivity. Qed.

(** With the lock taken the failure is handled as the handler means to. *)
Example request_write_failure_handled :
  fst (request 2 CONNECT_STATE_REQUEST None
         {| self := set_port (Some true) (set_error_counter 3 init);
            world := world_of [PortError] demo_clock |})
  = Done None
  /\ error_counter
       (self (snd (request 2 CONNECT_STATE_REQUEST None
                     {| self := set_port (Some true) (set_error_counter 3 init);
                        world := world_of [PortError] demo_clock |})))
     = 4%Z.
Proof. split; reflexivity. Qed.

(* ================================================================== *)
(** * The flag [connection_error] *)

(** C5, as the code has it.  No [event] and no [request] clears the flag:
    set before, it is set after, however the call ends.  A connect-state
    report of one byte sets it exactly when the state was
    [SERVER_CONNECTED] and the report names another state -- a loss; and a
    report of recovery (flag set, [SERVER_CONNECTED] reported, another
    state held) puts its event on the queue and leaves the flag set. *)
Theorem connection_error_latch
    (depth : nat) (t : Type_) (payload : bytes) (data : option bytes)
    (b : byte) (st : State) :
  (connection_error (self st) = true ->
   connection_error (self (snd (event (request depth) t payload st))) = true
   /\ connection_error (self (snd (request depth t data st))) = true)
  /\ exists st0,
       (event (request depth) CONNECT_STATE_REPORT [b] st = (Done tt, st0)
        \/ event (request depth) CONNECT_STATE_REPORT [b] st
           = show_idle_picture (request depth) st0)
       /\ (connection_error (self st0) = true <->
           connection_error (self st) = true
           \/ (connect_state (self st) = SERVER_CONNECTED
               /\ reported_state b <> SERVER_CONNECTED))
       /\ (connection_error (self st) = true ->
           reported_state b = SERVER_CONNECTED ->
           connect_state (self st) <> SERVER_CONNECTED ->
           connection_error (self st0) = true
           /\ event_queue (world st0)
              = event_queue (world st)
                ++ [Connect_state_item (ConnectState_str SERVER_CONNECTED)]).
Proof.
  split.
  - intros Hf.
    assert (HI : inv error_flagged any st) by (split; [exact Hf | exact I]).
    split.
    + apply (event_keeps_error_flagged depth t payload st HI).
    + apply (request_keeps_error_flagged depth t data st HI).
  - destruct (event_report_steps (request depth) b st)
      as (st0 & _ & H1 & H2 & H3).
    exists st0. auto.
Qed.

Lemma connection_error_latch_witness :
  connection_error
    (self (snd (event (request 2) CONNECT_STATE_REPORT ["009"%byte]
                  {| self := set_connection_error true
                               (set_connect_state GPRS_ACTIVE
                                  (set_port (Some true) init));
                     world := world_of [] demo_clock |}))) = true
  /\ connection_error
       (self (snd (request 2 CONNECT_STATE_REQUEST None
                     {| self := set_connection_error true
                                  (set_connect_state GPRS_ACTIVE
                                     (set_port (Some true) init));
                        world := world_of [] demo_clock |}))) = true.
Proof.
  apply (proj1 (connection_error_latch 2 CONNECT_STATE_REPORT ["009"%byte]
                  None "009"%byte
                  {| self := set_connection_error true
                               (set_connect_state GPRS_ACTIVE
                                  (set_port (Some true) init));
                     world := world_of [] demo_clock |})).
  reflexivity.
Defined.

(** A report of recovery: the flag is set, the state is [GPRS_ACTIVE] and
    [SERVER_CONNECTED] is reported.  The event goes on the queue, and the
    flag is still set afterwards. *)
Lemma recovery_report_leaves_flag_set :
  event_queue
    (world (snd (event (request 2) CONNECT_STATE_REPORT ["009"%byte]
                   {| self := set_connection_error true
                                (set_connect_state GPRS_ACTIVE
                                   (set_port (Some true) init));
                      world := world_of [] demo_clock |})))
  = [Connect_state_item "Server connected"]
  /\ connection_error
       (self (snd (event (request 2) CONNECT_STATE_REPORT ["009"%byte]
                     {| self := set_connection_error true
                                  (set_connect_state GPRS_ACTIVE
                                     (set_port (Some true) init));
                        world := world_of [] demo_clock |})))
     <> false.
Proof. split; [reflexivity | cbn; discriminate]. Qed.

(* ================================================================== *)
(** * The timeout of a pending payment *)

Lemma Qgt_bool_iff (a b : Q) : negb (Qle_bool a b) = true <-> (b < a)%Q.
Proof.
  rewrite negb_true_iff. split.
  - intros H. apply Qnot_le_lt. intros Hle.
    apply Qle_bool_iff in Hle. congruence.
  - intros H. destruct (Qle_bool a b) eqn:E; [|reflexivity].
    apply Qle_bool_iff in E. now apply Qlt_not_le in H.
Qed.

Lemma show_picture_keeps_no_payment (depth : nat) (id : Picture) :
  keeps (inv no_payment any) (show_picture (request depth) id ;; ret tt) any.
Proof.
  apply (keeps_bind _ _ _ any).
  - apply keeps_show_picture, request_keeps_no_payment.
  - intros. now apply keeps_ret.
Qed.

(** ** What is written to the port only grows *)

Ltac written_conditions :=
  unfold written_from, any; cbn; intros; auto;
  repeat match goal with
         | H : exists _, _ |- _ => destruct H
         end;
  try (eexists; rewrite app_assoc; f_equal; eassumption).

Lemma request_keeps_written_from
    (pre : list bytes) (depth : nat) (t : Type_) (data : option bytes) :
  keeps (inv any (written_from pre)) (request depth t data) any.
Proof.
  apply keeps_request with (okb := any) (okf := any); written_conditions.
Qed.

Lemma after_write_keeps_written_from (pre : list bytes) (depth rounds : nat) :
  keeps (inv any (written_from pre)) (after_write (request depth) rounds)
    any.
Proof.
  apply keeps_after_write with (okb := any) (okf := any);
    try apply request_keeps_written_from; written_conditions.
Qed.

Lemma request_except_keeps_written_from (pre : list bytes) :
  keeps (inv any (written_from pre))
    (lock_release ;; count_error ;;
     logger LOG_ERROR Serial_error ;; ret None) (@any (option Reply)).
Proof. apply keeps_request_except; written_conditions. Qed.

(** A request on an open port, the lock being free, whose write the port
    accepts: the packet is the next thing written, whatever follows. *)
Lemma request_writes_packet
    (depth : nat) (t : Type_) (data : option bytes) (packet : bytes)
    (st : State) :
  request_packet t data = Some packet ->
  port (self st) = Some true ->
  lock (self st) = false ->
  (forall tl, script (world st) <> PortError :: tl) ->
  exists more,
    written (world (snd (request (S depth) t data st)))
    = written (world st) ++ packet :: more.
Proof.
  intros Hp Hport Hlock Hsc.
  enough (H : written_from (written (world st) ++ [packet])
                (world (snd (request (S depth) t data st)))).
  { destruct H as [more H]. exists more.
    now rewrite H, <- app_assoc. }
  destruct st as [[p0 l0 pp0 cs0 ce0 lct0 ec0 lrt0] [sc ck0 cr0 wr0 q0 lg0]].
  cbn in Hport, Hlock, Hsc. subst.
  cbn [request]. unfold request_once. rewrite Hp.
  unfold bind at 1, logger at 1, modify_world at 1.
  unfold bind at 1, ret at 1. unfold bind at 1, time at 1.
  unfold bind at 1, get_world at 1. unfold bind at 1, modify_world at 1.
  unfold ret at 1. unfold bind at 1, modify_self at 1.
  cbn [self world written set_log set_clock_reads set_last_request_time
       clock clock_reads log fst snd].
  assert (Hafter : forall st2,
            written_from (wr0 ++ [packet]) (world st2) ->
            written_from (wr0 ++ [packet])
              (world (snd (match after_write (request depth) depth st2 with
                           | (Halt (Raised SerialException), st') =>
                               (lock_release ;; count_error ;;
                                logger LOG_ERROR Serial_error ;;
                                ret None) st'
                           | r => r
                           end)))).
  { intros st2 H2.
    destruct (after_write_keeps_written_from (wr0 ++ [packet]) depth depth
                st2) as [[_ H3] _]; [split; [exact I | exact H2]|].
    destruct (after_write (request depth) depth st2)
      as [[a|[[]| |]] st3]; cbn [fst snd] in *; try exact H3.
    destruct (request_except_keeps_written_from (wr0 ++ [packet]) st3)
      as [[_ H4] _]; [split; [exact I | exact H3]|].
    exact H4. }
  destruct sc as [|[|tx] sc'].
  - apply (Hafter
             {| self := {| port := Some true; lock := true;
                           pending_payment := pp0; connect_state := cs0;
                           connection_error := ce0; last_check_time := lct0;
                           error_counter := ec0;
                           last_request_time := Some (ck0 cr0) |};
                world := {| script := []; clock := ck0;
                            clock_reads := S cr0;
                            written := wr0 ++ [packet]; event_queue := q0;
                            log := lg0 ++ [(LOG_DEBUG,
                                            Send_packet t
                                              (request_body t data))] |} |}).
    exists []. cbn. now rewrite app_nil_r.
  - now elim (Hsc sc').
  - apply (Hafter
             {| self := {| port := Some true; lock := true;
                           pending_payment := pp0; connect_state := cs0;
                           connection_error := ce0; last_check_time := lct0;
                           error_counter := ec0;
                           last_request_time := Some (ck0 cr0) |};
                world := {| script := sc'; clock := ck0;
                            clock_reads := S cr0;
                            written := wr0 ++ [packet]; event_queue := q0;
                            log := lg0 ++ [(LOG_DEBUG,
                                            Send_packet t
                                              (request_body t data))] |} |}).
    exists []. cbn. now rewrite app_nil_r.
Qed.

Lemma snd_bind_ret {A B} (m : M A) (f : A -> B) (st : State) :
  snd ((a <- m ;; ret (f a)) st) = snd (m st).
Proof. unfold bind. now destruct (m st) as [[a|h] st']. Qed.

(** C6. In a round of the poll loop that finds a payment pending, with
    [elapsed] the float [time() - payment time] the code computes and
    [timeout] 70 when the payment is [active], 50 when it is not: the
    payment is gone after the check if and only if [elapsed > timeout].
    When it is not, the check changes nothing but the clock it has read;
    when it is, the payment is set to absent and the round goes on as
    [show_picture] of [SELECT_GOODS] -- the state being
    [SERVER_CONNECTED] -- or of [UNAVAILABLE]: on an open port with the
    lock free, if the write does not fail, the [SHOW_PICTURE] packet of
    that picture is the next thing written to the port. *)
Theorem pending_payment_timeout (depth : nat) (st : State) (p : Payment) :
  pending_payment (self st) = Some p ->
  let now := clock (world st) (clock_reads (world st)) in
  let elapsed := float_sub now (p_time p) in
  let timeout := (if p_active p then 70 else 50)%Q in
  let picture :=
    if ConnectState_eqb (connect_state (self st)) SERVER_CONNECTED
    then SELECT_GOODS else UNAVAILABLE in
  let r := check_pending_transaction (request (S depth)) st in
  (pending_payment (self (snd r)) = None <-> (timeout < elapsed)%Q)
  /\ ((elapsed <= timeout)%Q ->
      r = (Done tt,
           {| self := self st;
              world := set_clock_reads (S (clock_reads (world st)))
                         (world st) |}))
  /\ ((timeout < elapsed)%Q ->
      r = (show_picture (request (S depth)) picture ;; ret tt)
            {| self := set_pending_payment None (self st);
               world := set_log
                          (log (world st) ++ [(LOG_DEBUG, Close_payment)])
                          (set_clock_reads (S (clock_reads (world st)))
                             (world st)) |}
      /\ (port (self st) = Some true ->
          lock (self st) = false ->
          (forall tl, script (world st) <> PortError :: tl) ->
          exists packet more,
            request_packet SHOW_PICTURE
              (Some [byte_of_N (Picture_value picture)]) = Some packet
            /\ written (world (snd r))
               = written (world st) ++ packet :: more)).
Proof.
  intros Hp now elapsed timeout picture r.
  assert (Hr : r = if negb (Qle_bool elapsed timeout)
                   then close_payment (request (S depth))
                          {| self := self st;
                             world := set_clock_reads
                                        (S (clock_reads (world st)))
                                        (world st) |}
                   else (Done tt,
                         {| self := self st;
                            world := set_clock_reads
                                       (S (clock_reads (world st)))
                                       (world st) |})).
  { subst r. unfold check_pending_transaction, bind at 1, get_self at 1.
    rewrite Hp. unfold bind at 1, time at 1.
    cbn -[close_payment Qle_bool float_sub request].
    fold now. fold elapsed.
    change (if p_active p then 70%Q else 50%Q) with timeout.
    destruct (negb (Qle_bool elapsed timeout)); reflexivity. }
  set (st1 := {| self := set_pending_payment None (self st);
                 world := set_log
                            (log (world st) ++ [(LOG_DEBUG, Close_payment)])
                            (set_clock_reads (S (clock_reads (world st)))
                               (world st)) |}).
  assert (Hclose :
    close_payment (request (S depth))
      {| self := self st;
         world := set_clock_reads (S (clock_reads (world st))) (world st) |}
    = (show_picture (request (S depth)) picture ;; ret tt) st1).
  { unfold close_payment, bind at 1, get_self at 1. cbn [self fst snd].
    rewrite Hp. reflexivity. }
  destruct (negb (Qle_bool elapsed timeout)) eqn:E.
  - apply Qgt_bool_iff in E. split; [|split].
    + split; [intros _; exact E | intros _].
      rewrite Hr, Hclose.
      apply show_picture_keeps_no_payment.
      split; [reflexivity | exact I].
    + intros Hle. now apply Qlt_not_le in E.
    + intros _. split; [now rewrite Hr, Hclose|].
      intros Hport Hlock Hsc.
      assert (Hpk : exists packet,
                 request_packet SHOW_PICTURE
                   (Some [byte_of_N (Picture_value picture)]) = Some packet).
      { subst picture. destruct (ConnectState_eqb _ _); eexists; reflexivity. }
      destruct Hpk as [packet Hpk]. exists packet.
      destruct (request_writes_packet depth SHOW_PICTURE
                  (Some [byte_of_N (Picture_value picture)]) packet st1
                  Hpk Hport Hlock)
        as [more Hw].
      { intros tl. destruct st as [s0 [sc ck0 cr0 wr0 q0 lg0]].
        exact (Hsc tl). }
      exists more. split; [exact Hpk|].
      rewrite Hr, Hclose.
      rewrite (snd_bind_ret (show_picture (request (S depth)) picture)
                 (fun _ => tt)).
      unfold show_picture. rewrite (snd_bind_ret _ is_ack). exact Hw.
  - assert (Hle : (elapsed <= timeout)%Q).
    { apply Qle_bool_iff. now apply negb_false_iff in E. }
    split; [|split].
    + rewrite Hr. cbn [snd self]. rewrite Hp.
      split; [discriminate | intros Hlt; now apply Qlt_not_le in Hlt].
    + intros _. exact Hr.
    + intros Hlt. now apply Qlt_not_le in Hlt.
Qed.

Lemma pending_payment_timeout_witness :
  pending_payment
    (self (snd (check_pending_transaction (request 2)
                  (at_check true SERVER_CONNECTED 71)))) = None
  <-> (70 < float_sub 71 0)%Q.
Proof.
  apply (pending_payment_timeout 1 (at_check true SERVER_CONNECTED 71)
           {| p_amount := 150; p_active := true;
              p_time := 0; p_card_number := None |}).
  reflexivity.
Defined.

Example payment_active_69 :
  snd (check_pending_transaction (request 2) (at_check true NONE 69))
  = {| self := self (at_check true NONE 69);
       world := set_clock_reads 1 (world (at_check true NONE 69)) |}.
Proof. reflexivity. Qed.

Example payment_active_71 :
  pending_payment
    (self (snd (check_pending_transaction (request 2)
                  (at_check true SERVER_CONNECTED 71)))) = None
  /\ written
       (world (snd (check_pending_transaction (request 2)
                      (at_check true SERVER_CONNECTED 71))))
     = [["002"; "000"; "253"; "245"; "003"; "002"]%byte]
  /\ request_packet SHOW_PICTURE
       (Some [byte_of_N (Picture_value SELECT_GOODS)])
     = Some ["002"; "000"; "253"; "245"; "003"; "002"]%byte.
Proof. repeat split. Qed.

Example payment_inactive_49 :
  snd (check_pending_transaction (request 2) (at_check false NONE 49))
  = {| self := self (at_check false NONE 49);
       world := set_clock_reads 1 (world (at_check false NONE 49)) |}.
Proof. reflexivity. Qed.

Example payment_inactive_51 :
  pending_payment
    (self (snd (check_pending_transaction (request 2)
                  (at_check false GPRS_ACTIVE 51)))) = None
  /\ written
       (world (snd (check_pending_transaction (request 2)
                      (at_check false GPRS_ACTIVE 51))))
     = [["002"; "000"; "193"; "245"; "003"; "008"]%byte]
  /\ request_packet SHOW_PICTURE
       (Some [byte_of_N (Picture_value UNAVAILABLE)])
     = Some ["002"; "000"; "193"; "245"; "003"; "008"]%byte.
Proof. repeat split. Qed.

(** The floats nearest to 0.001 and 70.001: their difference is above 70
    by less than half a unit in the last place, [time() - payment time]
    is the float 70.0, and the payment stays. *)
Example payment_active_70_rounded :
  let t := (1152921504606847 # 1152921504606846976)%Q in
  let now := (2462941230590329 # 35184372088832)%Q in
  let st :=
    {| self := set_pending_payment
                 (Some {| p_amount := 150; p_active := true;
                          p_time := t; p_card_number := None |})
                 (set_port (Some true) init);
       world := world_of [] (fun _ => now) |} in
  (70 < now - t)%Q
  /\ (float_sub now t == 70)%Q
  /\ snd (check_pending_transaction (request 2) st)
     = {| self := self st; world := set_clock_reads 1 (world st) |}.
Proof. repeat split. Qed.


(* ================================================================== *)
(** * More on the codec *)

Lemma request_packet_framed (t : Type_) (data : option bytes) :
  request_packet t data = framed (request_body t data).
Proof. reflexivity. Qed.

Lemma framed_shape (body packet : bytes) :
  framed body = Some packet ->
  exists l0 l1 c0 c1,
    packet = l0 :: l1 :: c0 :: c1 :: body
    /\ unpack_H l0 l1 = N.of_nat (length body)
    /\ unpack_H c0 c1 = body_crc body.
Proof.
  unfold framed, header_pack.
  destruct (N.leb_spec (N.of_nat (length body)) 0xFFFF) as [Hl|];
    [|discriminate].
  pose proof (body_crc_lt body) as Hc.
  destruct (N.leb_spec (body_crc body) 0xFFFF) as [_|]; [|lia].
  cbn [andb]. intros [= <-].
  pose proof (unpack_pack_H (N.of_nat (length body))) as P1.
  pose proof (unpack_pack_H (body_crc body)) as P2.
  unfold pack_H in *. cbn [app].
  repeat eexists; [apply P1; lia | apply P2; lia].
Qed.

(** X1. A buffer that starts with a well-formed frame -- header and
    checksum right, whatever its first body byte -- loses exactly that
    frame: with a known type byte [decode] returns type and payload, with
    an unknown one it returns nothing, and in both cases the bytes that
    follow the frame are what is left in the buffer. *)
Theorem decode_takes_first_frame (b : byte) (payload tail packet : bytes) :
  framed (b :: payload) = Some packet ->
  decode (packet ++ tail)
  = (match Type_of_N (Byte.to_N b) with
     | Some t => Frame t payload
     | None => UnknownType b
     end, tail).
Proof.
  intros Hp.
  destruct (framed_shape _ _ Hp) as (l0 & l1 & c0 & c1 & -> & Hl & Hc).
  change ((l0 :: l1 :: c0 :: c1 :: b :: payload) ++ tail)
    with (l0 :: l1 :: c0 :: c1 :: (b :: payload) ++ tail).
  rewrite decode_framed by assumption.
  now rewrite Hc, N.eqb_refl.
Qed.

Lemma decode_takes_first_frame_witness :
  decode (["003"; "000"; "023"; "247"; "013"; "001"; "002"]%byte
          ++ ["001"; "000"; "128"; "130"; "021"]%byte)
  = (UnknownType "013"%byte, ["001"; "000"; "128"; "130"; "021"]%byte).
Proof.
  apply (decode_takes_first_frame "013"%byte ["001"; "002"]%byte
           ["001"; "000"; "128"; "130"; "021"]%byte
           ["003"; "000"; "023"; "247"; "013"; "001"; "002"]%byte).
  reflexivity.
Defined.

(** X2. [decode] takes all of a frame or nothing: when its verdict is
    "too short" (fewer than 5 bytes, or fewer than the header announces)
    the buffer is as it was; with any other verdict -- frame, bad
    checksum, unknown type, or the [IndexError] of an empty body -- the
    buffer has lost exactly the announced length plus four bytes, and so
    at least four. *)
Theorem decode_all_or_nothing (data : bytes) :
  match fst (decode data) with
  | InvalidPacket | InvalidLength => snd (decode data) = data
  | _ =>
      exists n,
        declared_length data = Some n
        /\ snd (decode data) = skipn (N.to_nat (n + 4)) data
        /\ (length (snd (decode data)) + N.to_nat (n + 4) = length data)%nat
  end.
Proof.
  unfold decode.
  destruct (length data <? 5)%nat eqn:E5; [reflexivity|].
  destruct data as [|l0 [|l1 [|c0 [|c1 tl]]]]; try reflexivity.
  set (data := l0 :: l1 :: c0 :: c1 :: tl) in *.
  destruct (Nat.ltb_spec (length data) (N.to_nat (unpack_H l0 l1 + 4)))
    as [|Hlen]; [reflexivity|].
  assert (Hn : exists n,
             declared_length data = Some n
             /\ skipn (N.to_nat (unpack_H l0 l1 + 4)) data
                = skipn (N.to_nat (n + 4)) data
             /\ (length (skipn (N.to_nat (unpack_H l0 l1 + 4)) data)
                 + N.to_nat (n + 4) = length data)%nat).
  { exists (unpack_H l0 l1). repeat split. rewrite length_skipn. lia. }
  destruct (negb _); [exact Hn|].
  destruct (slice _ _ _); [exact Hn|].
  destruct (Type_of_N _); exact Hn.
Qed.

(** X3. A buffer of five bytes or more that starts with four zero bytes
    announces an empty body with checksum 0, which is the checksum of the
    empty body: [decode] takes the four bytes and fails on [body[0]].
    [request], given such a response on an open port, lets the
    [IndexError] out: the lock is free again, but the counter has not
    moved. *)
Theorem empty_body_raises_index_error
    (depth : nat) (t : Type_) (data : option bytes) (packet tx more : bytes)
    (b : byte) (tl : list io) (st : State) :
  request_packet t data = Some packet ->
  port (self st) = Some true ->
  lock (self st) = false ->
  script (world st)
  = PortData tx :: PortData ("000" :: "000" :: "000" :: "000" :: b :: more)%byte
    :: tl ->
  decode ("000" :: "000" :: "000" :: "000" :: b :: more)%byte
  = (BodyIndexError, b :: more)
  /\ fst (request (S depth) t data st) = Halt (Raised IndexError)
  /\ lock (self (snd (request (S depth) t data st))) = false
  /\ error_counter (self (snd (request (S depth) t data st)))
     = error_counter (self st).
Proof.
  intros Hp Hport Hlock Hsc. split; [reflexivity|].
  destruct st as [[p0 l0 pp0 cs0 ce0 lct0 ec0 lrt0] [sc ck0 cr0 wr0 q0 lg0]].
  cbn in Hport, Hlock, Hsc. subst.
  cbn [request]. unfold request_once. rewrite Hp.
  cbn -[request_body]. auto.
Qed.

Lemma empty_body_raises_index_error_witness :
  decode ["000"; "000"; "000"; "000"; "021"]%byte
  = (BodyIndexError, ["021"%byte])
  /\ fst (request 1 CONNECT_STATE_REQUEST None
            {| self := set_port (Some true) init;
               world := world_of
                          [PortData [];
                           PortData ["000"; "000"; "000"; "000"; "021"]%byte]
                          demo_clock |})
     = Halt (Raised IndexError)
  /\ lock (self (snd (request 1 CONNECT_STATE_REQUEST None
            {| self := set_port (Some true) init;
               world := world_of
                          [PortData [];
                           PortData ["000"; "000"; "000"; "000"; "021"]%byte]
                          demo_clock |}))) = false
  /\ error_counter (self (snd (request 1 CONNECT_STATE_REQUEST None
            {| self := set_port (Some true) init;
               world := world_of
                          [PortData [];
                           PortData ["000"; "000"; "000"; "000"; "021"]%byte]
                          demo_clock |}))) = 10%Z.
Proof.
  apply (empty_body_raises_index_error 0 CONNECT_STATE_REQUEST None
           ["001"; "000"; "158"; "130"; "016"]%byte [] [] "021"%byte []
           {| self := set_port (Some true) init;
              world := world_of
                         [PortData [];
                          PortData ["000"; "000"; "000"; "000"; "021"]%byte]
                         demo_clock |});
    reflexivity.
Defined.

(** X4. The body of a packet is at most 65535 bytes: [request] with a
    payload of 65535 bytes or more fails in [header_format.pack]
    ([struct.error]) after the debug line and before anything else --
    the clock is not read, the port not touched, the lock not taken. *)
Theorem request_oversized_payload
    (depth : nat) (t : Type_) (payload : bytes) (st : State) :
  65535 <= N.of_nat (length payload) ->
  request_packet t (Some payload) = None
  /\ request (S depth) t (Some payload) st
     = (Halt (Raised StructError),
        {| self := self st;
           world := set_log
                      (log (world st)
                       ++ [(LOG_DEBUG,
                            Send_packet t (request_body t (Some payload)))])
                      (world st) |}).
Proof.
  intros Hlen.
  assert (Hp : request_packet t (Some payload) = None).
  { unfold request_packet, header_pack. rewrite request_body_cons.
    cbn [length payload_of].
    destruct (N.leb_spec (N.of_nat (S (length payload))) 0xFFFF); [lia|].
    reflexivity. }
  split; [exact Hp|].
  cbn [request]. unfold request_once. rewrite Hp. reflexivity.
Qed.

Lemma request_oversized_payload_witness :
  request_packet TOUCH (Some (repeat "000"%byte (N.to_nat 65535))) = None
  /\ request 1 TOUCH (Some (repeat "000"%byte (N.to_nat 65535)))
       {| self := init; world := world_of [] demo_clock |}
     = (Halt (Raised StructError),
        {| self := init;
           world := set_log
                      [(LOG_DEBUG,
                        Send_packet TOUCH
                          (request_body TOUCH
                             (Some (repeat "000"%byte (N.to_nat 65535)))))]
                      (world_of [] demo_clock) |}).
Proof.
  apply (request_oversized_payload 0 TOUCH
           (repeat "000"%byte (N.to_nat 65535))
           {| self := init; world := world_of [] demo_clock |}).
  rewrite repeat_length. lia.
Defined.

(* ================================================================== *)
(** * The currency code *)

Lemma bcd_loop_enough (fuel : nat) (number bcd_value multiplier : N) :
  number < 2 ^ N.of_nat fuel ->
  bcd_loop (S fuel) number bcd_value multiplier
  = bcd_loop fuel number bcd_value multiplier.
Proof.
  revert number bcd_value multiplier.
  induction fuel as [|fuel IH]; intros number bcd_value multiplier Hn.
  - cbn in Hn. assert (number = 0) as -> by lia. reflexivity.
  - cbn [bcd_loop]. destruct (0 <? number); [|reflexivity].
    apply IH. rewrite Nat2N.inj_succ, N.pow_succ_r' in Hn.
    generalize dependent (2 ^ N.of_nat fuel). intros p _ Hn. nlia.
Qed.

Lemma bcd_loop_more (extra fuel : nat) (number bcd_value multiplier : N) :
  number < 2 ^ N.of_nat fuel ->
  bcd_loop (fuel + extra) number bcd_value multiplier
  = bcd_loop fuel number bcd_value multiplier.
Proof.
  intros Hn. induction extra as [|extra IH].
  - now rewrite Nat.add_0_r.
  - rewrite Nat.add_succ_r, bcd_loop_enough; [exact IH|].
    eapply N.lt_le_trans; [exact Hn|].
    apply N.pow_le_mono_r; lia.
Qed.

Lemma forallb_below (P : N -> bool) (k : nat) :
  forallb P (map N.of_nat (seq 0 k)) = true ->
  forall n, n < N.of_nat k -> P n = true.
Proof.
  rewrite forallb_forall. intros H n Hn. apply H.
  rewrite <- (N2Nat.id n). apply in_map, in_seq. lia.
Qed.

Lemma bcd_of_below_10000 :
  forallb (fun n => bcd_of n =? bcd_swapped n)
          (map N.of_nat (seq 0 (N.to_nat 10000))) = true.
Proof. vm_compute. reflexivity. Qed.

Lemma bcd_of_lt (n : N) : bcd_of n < 65536.
Proof.
  unfold bcd_of.
  set (v := bcd_loop _ _ _ _).
  change 0x00FF with (N.ones 8). rewrite N.land_ones.
  rewrite N.shiftl_mul_pow2, N.shiftr_div_pow2.
  assert (Hhi : N.land v 0xFF00 / 2 ^ 8 < 256).
  { apply N.Div0.div_lt_upper_bound.
    change (2 ^ 8 * 256) with (2 ^ 16).
    destruct (N.eq_dec (N.land v 0xFF00) 0) as [->|Hnz]; [reflexivity|].
    apply N.log2_lt_pow2; [lia|].
    eapply N.le_lt_trans; [apply N.log2_land|].
    apply N.min_lt_iff. right. reflexivity. }
  assert (Hlo : v mod 2 ^ 8 * 2 ^ 8 < 65536).
  { change (2 ^ 8) with 256. nlia. }
  set (a := v mod 2 ^ 8 * 2 ^ 8) in *.
  set (b := N.land v 0xFF00 / 2 ^ 8) in *.
  destruct (N.eq_dec (N.lor a b) 0) as [->|Hnz]; [reflexivity|].
  change 65536 with (2 ^ 16).
  apply N.log2_lt_pow2; [now apply N.neq_0_lt_0|].
  rewrite N.log2_lor. apply N.max_lub_lt.
  + destruct (N.eq_dec a 0) as [->|]; [reflexivity|].
    apply N.log2_lt_pow2; [lia | exact Hlo].
  + destruct (N.eq_dec b 0) as [->|]; [reflexivity|].
    apply N.log2_lt_pow2; [lia|]. change (2 ^ 16) with 65536. lia.
Qed.

(** X5. [Currency.bcd], on any value: the rounds granted to its loop are
    never used up, and the result fits 16 bits, so that packing it as [H]
    cannot fail.  On a value below 10000, with decimal digits
    [d3 d2 d1 d0], the result packed little-endian is the byte [d3 d2]
    followed by the byte [d1 d0]: the code in packed decimal, high digits
    first. *)
Theorem bcd_packed_decimal (n : N) (extra : nat) :
  bcd_loop (N.to_nat (N.size n) + extra) n 0 1
  = bcd_loop (N.to_nat (N.size n)) n 0 1
  /\ bcd_of n < 65536
  /\ (n < 10000 ->
      bcd_of n = bcd_swapped n
      /\ le_bytes 2 (bcd_of n)
         = [byte_of_N (16 * (n / 1000) + n / 100 mod 10);
            byte_of_N (16 * (n / 10 mod 10) + n mod 10)]).
Proof.
  split; [|split].
  - apply bcd_loop_more. rewrite N2Nat.id. apply N.size_gt.
  - apply bcd_of_lt.
  - intros Hn.
    assert (E : bcd_of n = bcd_swapped n).
    { apply N.eqb_eq.
      apply (forallb_below _ _ bcd_of_below_10000). now rewrite N2Nat.id. }
    split; [exact E|]. rewrite E. unfold bcd_swapped. cbn [le_bytes].
    f_equal; [|f_equal]; apply to_N_inj; rewrite !to_N_byte_of_N; nlia.
Qed.

Lemma bcd_packed_decimal_witness :
  bcd RUB = 0x4306
  /\ le_bytes 2 (bcd RUB) = ["006"; "C"]%byte.
Proof.
  destruct (bcd_packed_decimal 643 0) as (_ & _ & H).
  destruct (H ltac:(reflexivity)) as [H1 H2].
  split; [exact H1 | exact H2].
Defined.

(* ================================================================== *)
(** * The card events *)

Lemma mask_card_of_eight (c0 c1 c2 c3 c4 c5 c6 c7 : byte) :
  mask_card (hexlify [c0; c1; c2; c3; c4; c5; c6; c7])
  = (hexlify [c0; c1] ++ "********" ++ hexlify [c6; c7])%string.
Proof. reflexivity. Qed.

(** X6. A card-read result with code 2, met with a payment pending: the
    payment gets as card number the hex digits of the first two and of the
    last two of the eight card bytes around eight stars -- the four middle
    bytes leave no trace --, is no longer active and is dated by the clock;
    the amount stays, nothing goes on the queue, and bytes after the ninth
    are ignored. *)
Theorem card_read_masks_number
    (request' : Type_ -> option bytes -> M (option Reply))
    (c0 c1 c2 c3 c4 c5 c6 c7 : byte) (more : bytes) (p : Payment)
    (st : State) :
  pending_payment (self st) = Some p ->
  let r := event request' CARD_READ_RESULT
             ("002"%byte :: c0 :: c1 :: c2 :: c3 :: c4 :: c5 :: c6 :: c7
              :: more) st in
  fst r = Done tt
  /\ pending_payment (self (snd r))
     = Some {| p_amount := p_amount p;
               p_active := false;
               p_time := clock (world st) (clock_reads (world st));
               p_card_number :=
                 Some (hexlify [c0; c1] ++ "********"
                       ++ hexlify [c6; c7])%string |}
  /\ event_queue (world (snd r)) = event_queue (world st).
Proof.
  intros Hp.
  destruct st as [[p0 l0 pp0 cs0 ce0 lct0 ec0 lrt0] [sc ck0 cr0 wr0 q0 lg0]].
  cbn in Hp. subst pp0.
  cbn -[mask_card hexlify]. rewrite mask_card_of_eight. auto.
Qed.

Lemma card_read_masks_number_witness :
  pending_payment
    (self (snd (event (request 0) CARD_READ_RESULT
                  ["002"; "170"; "187"; "204"; "221"; "238"; "255"; "000";
                   "017"]%byte
                  (at_check true SERVER_CONNECTED 5))))
  = Some {| p_amount := 150; p_active := false; p_time := 5;
            p_card_number := Some "aabb********0011"%string |}.
Proof.
  apply (card_read_masks_number (request 0)
           "170" "187" "204" "221" "238" "255" "000" "017"%byte []
           {| p_amount := 150; p_active := true; p_time := 0;
              p_card_number := None |}
           (at_check true SERVER_CONNECTED 5)).
  reflexivity.
Defined.

(** X7. An event of any type but the connect-state report makes no
    request and leaves the connection alone: port, lock, connect state,
    error flag, error counter and the two timestamps are as before, and
    nothing is read from or written to the port. *)
Theorem event_leaves_connection
    (request' : Type_ -> option bytes -> M (option Reply))
    (t : Type_) (data : bytes) (st : State) :
  t <> CONNECT_STATE_REPORT ->
  same_connection st (snd (event request' t data st)).
Proof.
  intros Ht.
  destruct st as [[p0 l0 pp0 cs0 ce0 lct0 ec0 lrt0] [sc ck0 cr0 wr0 q0 lg0]].
  destruct t; try (now elim Ht); try (cbn; repeat split; fail).
  - (* CARD_READ_RESULT *)
    cbn [event]. destruct data as [|result rest]; [cbn; repeat split|].
    destruct (length rest <? 8)%nat; [cbn; repeat split|].
    destruct (Byte.to_N result) as [|[[]|[]|]]; try (cbn; repeat split; fail);
      destruct pp0; cbn -[mask_card hexlify]; repeat split.
  - (* CARD_AUTH_RESULT *)
    cbn [event]. destruct data as [|b [|]];
      try (destruct pp0; cbn; repeat split; fail).
    destruct (Byte.to_N b =? 1) eqn:E; destruct pp0;
      cbn; rewrite ?E; cbn; repeat split.
Qed.

Lemma event_leaves_connection_witness :
  same_connection (at_check true SERVER_CONNECTED 5)
    (snd (event (request 0) CARD_AUTH_RESULT ["001"%byte]
            (at_check true SERVER_CONNECTED 5))).
Proof.
  apply (event_leaves_connection (request 0) CARD_AUTH_RESULT ["001"%byte]
           (at_check true SERVER_CONNECTED 5)).
  discriminate.
Defined.

(** X8. A card-authorization result returns, and puts an event on the
    queue exactly when its payload is the single byte 01 and a payment is
    pending: the event carries the amount and the card number of the
    payment ([""] when it has none).  The payment is neither closed nor
    created: one that was pending is still pending, no longer active and
    dated by the clock, with its amount and card number. *)
Theorem card_auth_result_outcome
    (request' : Type_ -> option bytes -> M (option Reply))
    (payload : bytes) (st : State) :
  let r := event request' CARD_AUTH_RESULT payload st in
  fst r = Done tt
  /\ event_queue (world (snd r))
     = event_queue (world st)
       ++ match payload, pending_payment (self st) with
          | [b], Some p =>
              if Byte.to_N b =? 1
              then [Card_auth_item (p_amount p) (card_number_of p)]
              else []
          | _, _ => []
          end
  /\ pending_payment (self (snd r))
     = match pending_payment (self st) with
       | Some p =>
           Some {| p_amount := p_amount p;
                   p_active := false;
                   p_time := clock (world st) (clock_reads (world st));
                   p_card_number := p_card_number p |}
       | None => None
       end.
Proof.
  destruct st as [[p0 l0 pp0 cs0 ce0 lct0 ec0 lrt0] [sc ck0 cr0 wr0 q0 lg0]].
  cbn [event]. destruct payload as [|b [|]];
    try (destruct pp0; cbn; rewrite ?app_nil_r; auto; fail).
  destruct (Byte.to_N b =? 1) eqn:E; destruct pp0;
    cbn; rewrite ?E; cbn; rewrite ?app_nil_r; auto.
Qed.

(** X9. The two card events in a row, met with a payment pending: a
    card-read result with code 2, then an authorization result 01.
    Exactly one event goes on the queue, with the amount of the payment
    and the masked number of the card just read; the payment is still
    pending afterwards. *)
Theorem card_read_then_auth
    (request' : Type_ -> option bytes -> M (option Reply))
    (c0 c1 c2 c3 c4 c5 c6 c7 : byte) (p : Payment) (st : State) :
  pending_payment (self st) = Some p ->
  let r := (event request' CARD_READ_RESULT
              ["002"%byte; c0; c1; c2; c3; c4; c5; c6; c7] ;;
            event request' CARD_AUTH_RESULT ["001"%byte]) st in
  fst r = Done tt
  /\ event_queue (world (snd r))
     = event_queue (world st)
       ++ [Card_auth_item (p_amount p)
             (hexlify [c0; c1] ++ "********" ++ hexlify [c6; c7])%string]
  /\ exists p', pending_payment (self (snd r)) = Some p'
                /\ p_amount p' = p_amount p /\ p_active p' = false.
Proof.
  intros Hp.
  destruct st as [[p0 l0 pp0 cs0 ce0 lct0 ec0 lrt0] [sc ck0 cr0 wr0 q0 lg0]].
  cbn in Hp. subst pp0.
  cbn -[mask_card hexlify]. rewrite mask_card_of_eight.
  repeat split. eexists. repeat split.
Qed.

Lemma card_read_then_auth_witness :
  event_queue
    (world (snd ((event (request 0) CARD_READ_RESULT
                    ["002"; "170"; "187"; "204"; "221"; "238"; "255"; "000";
                     "017"]%byte ;;
                  event (request 0) CARD_AUTH_RESULT ["001"%byte])
                   (at_check true SERVER_CONNECTED 5))))
  = [Card_auth_item 150 "aabb********0011"].
Proof.
  apply (card_read_then_auth (request 0)
           "170" "187" "204" "221" "238" "255" "000" "017"%byte
           {| p_amount := 150; p_active := true; p_time := 0;
              p_card_number := None |}
           (at_check true SERVER_CONNECTED 5)).
  reflexivity.
Defined.

(* ================================================================== *)
(** * More on the exchange and on the poll loop *)

Lemma decode_framed_packet (b : byte) (payload tail packet : bytes) :
  framed (b :: payload) = Some packet ->
  decode (packet ++ tail)
  = (match Type_of_N (Byte.to_N b) with
     | Some t => Frame t payload
     | None => UnknownType b
     end, tail).
Proof.
  intros Hp.
  destruct (framed_shape _ _ Hp) as (l0 & l1 & c0 & c1 & -> & Hl & Hc).
  change ((l0 :: l1 :: c0 :: c1 :: b :: payload) ++ tail)
    with (l0 :: l1 :: c0 :: c1 :: (b :: payload) ++ tail).
  rewrite decode_framed by assumption.
  now rewrite Hc, N.eqb_refl.
Qed.

Lemma framed_cons (body packet : bytes) :
  framed body = Some packet -> exists h tl, packet = h :: tl.
Proof.
  intros Hp. destruct (framed_shape _ _ Hp) as (l0 & l1 & c0 & c1 & -> & _).
  eauto.
Qed.

Lemma event_card_read_short
    (request' : Type_ -> option bytes -> M (option Reply))
    (payload : bytes) (st : State) :
  (length payload < 9)%nat ->
  event request' CARD_READ_RESULT payload st = (Halt (Raised StructError), st).
Proof.
  intros Hlen. cbn [event]. destruct payload as [|result rest]; [reflexivity|].
  cbn [length] in Hlen.
  destruct (Nat.ltb_spec (length rest) 8); [reflexivity | lia].
Qed.

(** X10. A card-read result whose payload is shorter than the nine bytes
    of its format fails in [unpack_from] ([struct.error]) and changes
    nothing.  When such a frame, well formed otherwise, is what the poll
    loop reads from an open port, the error is none that the loop
    catches: the round and the pass of the loop end with it. *)
Theorem short_card_read_ends_loop
    (depth rounds n : nat) (payload packet : bytes) (tl : list io)
    (st : State) :
  (length payload < 9)%nat ->
  request_packet CARD_READ_RESULT (Some payload) = Some packet ->
  port (self st) = Some true ->
  lock (self st) = false ->
  script (world st) = PortData packet :: tl ->
  event (request depth) CARD_READ_RESULT payload st
  = (Halt (Raised StructError), st)
  /\ fst (loop_round (request depth) (S rounds) st)
     = Halt (Raised StructError)
  /\ fst (loop_pass depth (S rounds) (S n) st) = Halt (Raised StructError).
Proof.
  intros Hlen Hp Hport Hlock Hsc.
  split; [now apply event_card_read_short|].
  assert (Hd : decode packet = (Frame CARD_READ_RESULT payload, [])).
  { rewrite <- (app_nil_r packet).
    now rewrite (decode_framed_packet _ payload [] packet Hp). }
  destruct (framed_cons _ _ Hp) as (h & tl' & Epacket).
  assert (Hround : fst (loop_round (request depth) (S rounds) st)
                   = Halt (Raised StructError)).
  { destruct st as [[p0 l0 pp0 cs0 ce0 lct0 ec0 lrt0]
                      [sc ck0 cr0 wr0 q0 lg0]].
    cbn in Hport, Hlock, Hsc. subst p0 l0 sc.
    unfold loop_round, with_lock, finally, bind at 1.
    cbn -[dispatch_received decode].
    rewrite Epacket. cbn [dispatch_received]. rewrite <- Epacket.
    unfold bind at 1, decode_logged. rewrite Hd.
    cbv beta iota delta [bind ret].
    rewrite event_card_read_short by assumption. reflexivity. }
  split; [exact Hround|].
  unfold loop_pass, try_except_serial, bind at 1, open, bind at 1, get_self.
  rewrite Hport. cbn [ret times]. unfold bind at 1.
  destruct (loop_round (request depth) (S rounds) st) as [o st'].
  cbn in Hround. subst o. reflexivity.
Qed.

Lemma short_card_read_ends_loop_witness :
  event (request 1) CARD_READ_RESULT ["002"; "170"]%byte
    {| self := set_port (Some true) init;
       world := world_of
                  [PortData ["003"; "000"; "|"; "127"; "019"; "002"; "170"]%byte]
                  demo_clock |}
  = (Halt (Raised StructError),
     {| self := set_port (Some true) init;
        world := world_of
                   [PortData ["003"; "000"; "|"; "127"; "019"; "002"; "170"]%byte]
                   demo_clock |})
  /\ fst (loop_round (request 1) 1
            {| self := set_port (Some true) init;
               world := world_of
                          [PortData ["003"; "000"; "|"; "127"; "019"; "002";
                                     "170"]%byte]
                          demo_clock |})
     = Halt (Raised StructError)
  /\ fst (loop_pass 1 1 1
            {| self := set_port (Some true) init;
               world := world_of
                          [PortData ["003"; "000"; "|"; "127"; "019"; "002";
                                     "170"]%byte]
                          demo_clock |})
     = Halt (Raised StructError).
Proof.
  apply (short_card_read_ends_loop 1 0 0 ["002"; "170"]%byte
           ["003"; "000"; "|"; "127"; "019"; "002"; "170"]%byte []
           {| self := set_port (Some true) init;
              world := world_of
                         [PortData ["003"; "000"; "|"; "127"; "019"; "002";
                                    "170"]%byte]
                         demo_clock |});
    try reflexivity.
  cbn. lia.
Defined.

Lemma reported_state_value (b : byte) :
  ConnectState_value (reported_state b)
  = if Byte.to_N b <? 10 then Byte.to_N b else 0.
Proof. destruct b; reflexivity. Qed.

(** X11. A connect-state report of one byte, up to the point where the
    idle picture is shown again.  The byte is read as the state of that
    number, and as [NONE] when it is above 9.  If that is the state already
    held, the call returns and the picture is not shown again; otherwise
    the state held becomes the reported one.  An event goes on the queue
    exactly when the state changes and either the flag is set and
    [SERVER_CONNECTED] is reported, or [SERVER_CONNECTED] was held: a
    change between two other states with the flag down is silent. *)
Theorem report_outcome
    (request' : Type_ -> option bytes -> M (option Reply))
    (b : byte) (st : State) :
  let c := reported_state b in
  let changed := negb (ConnectState_eqb c (connect_state (self st))) in
  ConnectState_value c = (if Byte.to_N b <? 10 then Byte.to_N b else 0)
  /\ exists st0,
       event request' CONNECT_STATE_REPORT [b] st
       = (if changed then show_idle_picture request' st0 else (Done tt, st0))
       /\ connect_state (self st0) = c
       /\ event_queue (world st0)
          = event_queue (world st)
            ++ (if changed
                   && ((connection_error (self st)
                        && ConnectState_eqb c SERVER_CONNECTED)
                       || ConnectState_eqb (connect_state (self st))
                            SERVER_CONNECTED)
                then [Connect_state_item (ConnectState_str c)]
                else []).
Proof.
  intros c changed. split; [apply reported_state_value|].
  subst c changed.
  destruct st as [[p0 l0 pp0 cs0 ce0 lct0 ec0 lrt0] w0].
  cbn -[show_idle_picture reported_state ConnectState_eqb].
  destruct (ConnectState_eqb (reported_state b) cs0) eqn:E1; cbn [negb].
  - apply ConnectState_eqb_eq in E1.
    eexists. split; [reflexivity|]. cbn. rewrite app_nil_r. auto.
  - unfold bind.
    destruct ce0; cbn [andb orb];
      [destruct (ConnectState_eqb (reported_state b) SERVER_CONNECTED);
       cbn [orb]|];
      try destruct (ConnectState_eqb cs0 SERVER_CONNECTED);
      cbn -[show_idle_picture reported_state];
      (eexists; split; [reflexivity|]); cbn -[reported_state];
      rewrite ?app_nil_r; auto.
Qed.

(** X12. No [SerialException] leaves [request], at any depth and from any
    state; none leaves a pass of the poll loop either, whose handler
    cannot fail. *)
Theorem serial_exception_contained
    (depth rounds n : nat) (t : Type_) (data : option bytes) (st : State) :
  fst (request depth t data st) <> Halt (Raised SerialException)
  /\ fst (loop_pass depth rounds n st) <> Halt (Raised SerialException).
Proof.
  split; [apply calm_request|].
  apply calm_try.
  apply calm_bind; [apply calm_get_self | intros s].
  apply calm_bind.
  { destruct (lock s); [apply calm_lock_release | apply calm_ret]. }
  intros _. apply calm_bind; [apply calm_modify_self | intros _].
  apply calm_logger.
Qed.

(** X13. The first frame of a response is never dispatched.  When the
    response to a request on an open port is one frame of another type
    than ACK, [request] returns that frame to its caller and the exchange
    leaves the object as it was but for [last_request_time]: the counter
    is neither reset nor incremented, and a connect-state report that
    comes first in the response changes neither the state nor the queue. *)
Theorem first_frame_is_returned
    (depth : nat) (t t' : Type_) (data : option bytes)
    (packet tx rx body' : bytes) (tl : list io) (st : State) :
  request_packet t data = Some packet ->
  port (self st) = Some true ->
  lock (self st) = false ->
  script (world st) = PortData tx :: PortData rx :: tl ->
  decode (firstn 128 rx) = (Frame t' body', []) ->
  t' <> ACK ->
  let r := request (S depth) t data st in
  fst r = Done (Some (Reply_pair t' body'))
  /\ self (snd r)
     = set_last_request_time
         (Some (clock (world st) (clock_reads (world st)))) (self st)
  /\ event_queue (world (snd r)) = event_queue (world st)
  /\ written (world (snd r)) = written (world st) ++ [packet]
  /\ script (world (snd r)) = tl.
Proof.
  intros Hp Hport Hlock Hsc Hd Ht.
  assert (E : Type_eqb t' ACK = false)
    by (destruct t'; try reflexivity; now elim Ht).
  destruct st as [[p0 l0 pp0 cs0 ce0 lct0 ec0 lrt0] [sc ck0 cr0 wr0 q0 lg0]].
  cbn in Hport, Hlock, Hsc. subst.
  cbn [request]. unfold request_once. rewrite Hp.
  unfold try_except_serial, bind.
  cbn -[request_body decode firstn Type_eqb].
  destruct (firstn 128 rx) as [|b0 rx'] eqn:Erx; [discriminate|].
  unfold decode_logged. rewrite Hd.
  cbn -[request_body Type_eqb]. rewrite E.
  destruct depth; cbn -[request_body]; auto.
Qed.

Lemma first_frame_is_returned_witness :
  fst (request 1 CONNECT_STATE_REQUEST None
         {| self := set_port (Some true) init;
            world := world_of
                       [PortData [];
                        PortData ["002"; "000"; "196"; "/"; "024"; "009"]%byte]
                       demo_clock |})
  = Done (Some (Reply_pair CONNECT_STATE_REPORT ["009"%byte]))
  /\ self (snd (request 1 CONNECT_STATE_REQUEST None
         {| self := set_port (Some true) init;
            world := world_of
                       [PortData [];
                        PortData ["002"; "000"; "196"; "/"; "024"; "009"]%byte]
                       demo_clock |}))
     = set_last_request_time (Some (demo_clock 0)) (set_port (Some true) init).
Proof.
  destruct (first_frame_is_returned 0 CONNECT_STATE_REQUEST
              CONNECT_STATE_REPORT None
              ["001"; "000"; "158"; "130"; "016"]%byte []
              ["002"; "000"; "196"; "/"; "024"; "009"]%byte ["009"%byte] []
              {| self := set_port (Some true) init;
                 world := world_of
                            [PortData [];
                             PortData ["002"; "000"; "196"; "/"; "024";
                                       "009"]%byte]
                            demo_clock |})
    as (H1 & H2 & _); try reflexivity; [discriminate|].
  split; [exact H1 | exact H2].
Defined.

(** X14. A read that fails in the poll loop, on an open port with the
    lock free: leaving the [with] block releases the lock, the handler of
    the loop forces the state to [NONE] and logs the error, and the pass
    returns.  The failure is not counted in the error counter, and the
    port object stays in place, open as far as the object knows: the
    [open] of the next pass will find nothing to do. *)
Theorem loop_read_failure
    (depth rounds n : nat) (tl : list io) (st : State) :
  port (self st) = Some true ->
  lock (self st) = false ->
  script (world st) = PortError :: tl ->
  loop_pass depth rounds (S n) st
  = (Done tt,
     {| self := set_connect_state NONE (self st);
        world := set_log (log (world st) ++ [(LOG_ERROR, Serial_error)])
                   (set_script tl (world st)) |})
  /\ open (request depth)
       {| self := set_connect_state NONE (self st);
          world := set_log (log (world st) ++ [(LOG_ERROR, Serial_error)])
                     (set_script tl (world st)) |}
     = (Done tt,
        {| self := set_connect_state NONE (self st);
           world := set_log (log (world st) ++ [(LOG_ERROR, Serial_error)])
                      (set_script tl (world st)) |}).
Proof.
  intros Hport Hlock Hsc.
  destruct st as [[p0 l0 pp0 cs0 ce0 lct0 ec0 lrt0] [sc ck0 cr0 wr0 q0 lg0]].
  cbn in Hport, Hlock, Hsc. subst. split; reflexivity.
Qed.

Lemma loop_read_failure_witness :
  loop_pass 1 1 1
    {| self := set_connect_state SERVER_CONNECTED
                 (set_error_counter 0 (set_port (Some true) init));
       world := world_of [PortError] demo_clock |}
  = (Done tt,
     {| self := set_connect_state NONE
                  (set_connect_state SERVER_CONNECTED
                     (set_error_counter 0 (set_port (Some true) init)));
        world := set_log [(LOG_ERROR, Serial_error)]
                   (set_script [] (world_of [PortError] demo_clock)) |}).
Proof.
  apply (loop_read_failure 1 1 0 []
           {| self := set_connect_state SERVER_CONNECTED
                        (set_error_counter 0 (set_port (Some true) init));
              world := world_of [PortError] demo_clock |});
    reflexivity.
Defined.

(* ================================================================== *)
(** * The lock *)

Ltac ready_conditions :=
  unfold ready, any; cbn; intros; auto.

Lemma request_except_ready (st : State) :
  port (self st) = Some true ->
  inv ready any (snd (request_except st)).
Proof.
  intros Hport.
  destruct st as [[p0 l0 pp0 cs0 ce0 lct0 ec0 lrt0] w0].
  cbn in Hport. subst p0.
  destruct l0; cbn; [destruct (ec0 <? 10)%Z|]; repeat split.
Qed.

(** The locked part of an exchange, from a ready object: either the port
    fails, and the [SerialException] finds the lock held and the port in
    place; or the lock is released and what was read is handed on. *)
Lemma locked_exchange {A} (packet : bytes) (k : bytes -> M A) (st : State) :
  inv ready any st ->
  (exists st',
      (lock_acquire ;; port_write packet ;;
       received <- port_read 128 ;; lock_release ;; k received) st
      = (Halt (Raised SerialException), st')
      /\ port (self st') = Some true)
  \/ (exists rx st',
        (lock_acquire ;; port_write packet ;;
         received <- port_read 128 ;; lock_release ;; k received) st
        = k rx st'
        /\ inv ready any st').
Proof.
  intros [[Hport Hlock] _].
  destruct st as [[p0 l0 pp0 cs0 ce0 lct0 ec0 lrt0] [sc ck0 cr0 wr0 q0 lg0]].
  cbn in Hport, Hlock. subst.
  destruct sc as [|[|tx] sc'].
  - right. exists [].
    eexists. split; [reflexivity | repeat split].
  - left. eexists. split; reflexivity.
  - destruct sc' as [|[|rx] tl].
    + right. exists [].
      eexists. split; [reflexivity | repeat split].
    + left. eexists. split; reflexivity.
    + right. exists (firstn 128 rx).
      eexists. split; [reflexivity | repeat split].
Qed.

Section ReadyNested.
Variable request' : Type_ -> option bytes -> M (option Reply).
Hypothesis request'_ready : forall t d, keeps (inv ready any) (request' t d) any.

Lemma open_keeps_ready : keeps (inv ready any) (open request') any.
Proof.
intros st HI. pose proof HI as [[Hport _] _].
unfold keeps_at, open, bind, get_self. cbn [fst snd]. rewrite Hport.
split; [exact HI | constructor].
Qed.

(** What [request] does with the bytes it has read keeps the object
  ready. *)
Lemma after_exchange_keeps_ready (rounds : nat) (received : bytes) :
keeps (inv ready any)
  (match received with
   | _ :: _ =>
       '(response, received') <- decode_logged received ;;
       match response with
       | Some (packet_type', body') =>
           if Type_eqb packet_type' ACK then
             modify_self (set_error_counter 0%Z) ;;
             logger LOG_DEBUG Response_ack ;;
             dispatch_rest request' rounds received' ;;
             ret (Some (Reply_type packet_type'))
           else
             logger LOG_DEBUG (Response packet_type' body') ;;
             dispatch_rest request' rounds received' ;;
             ret (Some (Reply_pair packet_type' body'))
       | None =>
           count_error ;;
           logger LOG_DEBUG (Bad_response received') ;;
           ret None
       end
   | [] =>
       count_error ;;
       logger LOG_DEBUG No_response ;;
       ret None
   end) any.
Proof.
assert (Hcount : keeps (inv ready any) count_error any)
  by (apply keeps_count_error; ready_conditions).
assert (Hlog : forall l m, keeps (inv ready any) (logger l m) any)
  by (intros; apply keeps_logger; ready_conditions).
assert (Hrest : forall n b,
           keeps (inv ready any) (dispatch_rest request' n b) any).
{ intros n b.
  apply keeps_dispatch_rest with (okb := any) (okf := any);
    try exact request'_ready; ready_conditions. }
destruct received as [|b tl].
{ apply (keeps_bind _ _ _ any); [exact Hcount | intros _ _].
  apply (keeps_bind _ _ _ any); [apply Hlog | intros _ _].
  now apply keeps_ret. }
apply (keeps_bind _ _ _ any).
{ eapply keeps_weaken.
  - apply keeps_decode_logged with (okb := any) (okf := any);
      ready_conditions.
  - intros; exact I. }
intros [response received'] _.
destruct response as [[t' body']|].
- destruct (Type_eqb t' ACK).
  + apply (keeps_bind _ _ _ any).
    { intros st [HIs HIw]. apply keeps_at_modify_self. split; auto. }
    intros _ _. apply (keeps_bind _ _ _ any); [apply Hlog | intros _ _].
    apply (keeps_bind _ _ _ any); [apply Hrest | intros _ _].
    now apply keeps_ret.
  + apply (keeps_bind _ _ _ any); [apply Hlog | intros _ _].
    apply (keeps_bind _ _ _ any); [apply Hrest | intros _ _].
    now apply keeps_ret.
- apply (keeps_bind _ _ _ any); [exact Hcount | intros _ _].
  apply (keeps_bind _ _ _ any); [apply Hlog | intros _ _].
  now apply keeps_ret.
Qed.

(** The guarded part of [request], after a command [pre] that leaves the
  lock free and, when it returns, the object ready. *)
Lemma try_exchange_lock_free (pre : M unit) (rounds : nat) (packet : bytes)
  (k : bytes -> M (option Reply)) (st : State) :
(forall rx, keeps (inv ready any) (k rx) any) ->
lock_free (self (snd (pre st))) ->
(forall a, fst (pre st) = Done a -> inv ready any (snd (pre st))) ->
(port (self st) = Some true -> port (self (snd (pre st))) = Some true) ->
let st' :=
  snd (try_except_serial
         (pre ;; lock_acquire ;; port_write packet ;;
          received <- port_read 128 ;; lock_release ;; k received)
         request_except st) in
lock_free (self st')
/\ (port (self st) = Some true -> port (self st') = Some true).
Proof.
intros Hk Hfree Hdone Hport. cbv zeta.
enough (H : forall P : State -> Prop,
           (forall s, lock_free (self s) ->
                      (port (self st) = Some true ->
                       port (self s) = Some true) -> P s) ->
           P (snd (try_except_serial
                     (pre ;; lock_acquire ;; port_write packet ;;
                      received <- port_read 128 ;; lock_release ;;
                      k received)
                     request_except st))).
{ apply H. intros s H1 H2. split; assumption. }
intros P HP.
unfold try_except_serial, bind at 1.
destruct (pre st) as [[[]|h] st1]; cbn [fst snd] in *.
- specialize (Hdone tt eq_refl).
  destruct (locked_exchange packet k st1 Hdone)
    as [(st2 & -> & Hp2)|(rx & st2 & -> & HI2)].
  + destruct (request_except_ready st2 Hp2) as [[H1 H2] _].
    apply HP; auto.
  + destruct (Hk rx st2 HI2) as [HI3 _].
    destruct (k rx st2) as [[a|[[]| |]] st3]; cbn [fst snd] in *;
      try (destruct HI3 as [[H1 H2] _]; apply HP; auto; fail).
    destruct HI3 as [[H1 H2] _].
    destruct (request_except_ready st3 H1) as [[H3 H4] _].
    apply HP; auto.
- assert (Hx : lock_free (self (snd (request_except st1)))
               /\ (port (self st) = Some true ->
                   port (self (snd (request_except st1))) = Some true)).
  { destruct st1 as [[p0 l0 pp0 cs0 ce0 lct0 ec0 lrt0] w0].
    unfold lock_free in *. cbn in Hfree, Hport. subst l0. cbn. auto. }
  destruct h as [[]| |]; cbn [fst snd]; apply HP; tauto.
Qed.

Lemma after_open_keeps_ready :
keeps (inv ready any)
  (logger LOG_INFO Port_opened ;; show_picture request' WAIT ;; ret tt) any.
Proof.
apply (keeps_bind _ _ _ any);
  [apply keeps_logger; ready_conditions | intros _ _].
apply (keeps_bind _ _ _ any); [|intros; now apply keeps_ret].
apply keeps_show_picture. exact request'_ready.
Qed.

(** [open], from any state of the port, the lock being free. *)
Lemma open_lock_free (st : State) :
lock_free (self st) ->
lock_free (self (snd (open request' st)))
/\ (forall a, fst (open request' st) = Done a ->
              inv ready any (snd (open request' st)))
/\ (port (self st) = Some true ->
    port (self (snd (open request' st))) = Some true).
Proof.
intros Hfree.
assert (Hclosed :
  forall st1, lock_free (self st1) ->
    let r := (Serial ;; logger LOG_INFO Port_opened ;;
              show_picture request' WAIT ;; ret tt) st1 in
    lock_free (self (snd r))
    /\ (forall a, fst r = Done a -> inv ready any (snd r))
    /\ (port (self st1) = Some true -> port (self (snd r)) = Some true)).
{ intros st1 Hf. cbv zeta.
  assert (Hopened :
    forall w1,
      let r := (logger LOG_INFO Port_opened ;;
                show_picture request' WAIT ;; ret tt)
                 {| self := set_port (Some true) (self st1); world := w1 |} in
      lock_free (self (snd r))
      /\ (forall a, fst r = Done a -> inv ready any (snd r))
      /\ (port (self st1) = Some true ->
          port (self (snd r)) = Some true)).
  { intros w1. cbv zeta.
    destruct (after_open_keeps_ready
                {| self := set_port (Some true) (self st1); world := w1 |})
      as [[[H1 H2] H3] _].
    { repeat split. exact Hf. }
    repeat split; auto. }
  destruct st1 as [s1 [sc ck0 cr0 wr0 q0 lg0]].
  destruct sc as [|[|rx] tl].
  - apply (Hopened {| script := []; clock := ck0; clock_reads := cr0;
                      written := wr0; event_queue := q0; log := lg0 |}).
  - cbn. repeat split; try exact Hf; try discriminate; auto.
  - apply (Hopened {| script := tl; clock := ck0; clock_reads := cr0;
                      written := wr0; event_queue := q0; log := lg0 |}). }
assert (E : open request' st
            = match port (self st) with
              | Some true => (Done tt, st)
              | _ => (Serial ;; logger LOG_INFO Port_opened ;;
                      show_picture request' WAIT ;; ret tt) st
              end).
{ unfold open, bind at 1, get_self.
  destruct (port (self st)) as [[|]|]; reflexivity. }
rewrite E.
destruct (port (self st)) as [[|]|] eqn:Ep.
- cbn. repeat split; try exact Hfree; auto.
- destruct (Hclosed st Hfree) as (H1 & H2 & _).
  split; [exact H1 | split; [exact H2 | discriminate]].
- destruct (Hclosed st Hfree) as (H1 & H2 & _).
  split; [exact H1 | split; [exact H2 | discriminate]].
Qed.

Lemma request_once_lock_free
  (rounds : nat) (t : Type_) (data : option bytes) (st : State) :
lock_free (self st) ->
lock_free (self (snd (request_once request' rounds t data st)))
/\ (port (self st) = Some true ->
    port (self (snd (request_once request' rounds t data st))) = Some true).
Proof.
intros Hfree. unfold request_once.
unfold bind at 1, logger at 1, modify_world at 1.
destruct (request_packet t data) as [packet|];
  [|cbn; split; [exact Hfree | auto]].
unfold bind at 1, ret at 1. unfold bind at 1, time at 1.
unfold bind at 1, get_world at 1. unfold bind at 1, modify_world at 1.
unfold ret at 1. unfold bind at 1, modify_self at 1.
cbn [self world].
match goal with
| |- context [try_except_serial _ _ ?s] => set (st1 := s)
end.
assert (Hf1 : lock_free (self st1)) by exact Hfree.
destruct (open_lock_free st1 Hf1) as (H1 & H2 & H3).
apply (try_exchange_lock_free (open request') rounds packet _ st1
         (after_exchange_keeps_ready rounds) H1 H2 H3).
Qed.
End ReadyNested.

Lemma request_lock_free
    (depth : nat) (t : Type_) (data : option bytes) (st : State) :
  lock_free (self st) ->
  lock_free (self (snd (request depth t data st)))
  /\ (port (self st) = Some true ->
      port (self (snd (request depth t data st))) = Some true).
Proof.
  revert t data st.
  induction depth as [|depth IH]; intros t data st Hfree;
    [split; [exact Hfree | auto]|].
  cbn [request]. apply request_once_lock_free; [|exact Hfree].
  intros t' d' st' [[Hp Hl] _].
  destruct (IH t' d' st' Hl) as [H1 H2].
  split; [|constructor]. repeat split; auto.
Qed.

Lemma request_keeps_ready (depth : nat) (t : Type_) (data : option bytes) :
  keeps (inv ready any) (request depth t data) any.
Proof.
  intros st [[Hp Hl] _].
  destruct (request_lock_free depth t data st Hl) as [H1 H2].
  split; [|constructor]. repeat split; auto.
Qed.

Lemma read_all_keeps_ready :
  keeps (inv ready any) (with_lock port_read_all) any.
Proof.
  intros st [[Hport Hlock] _].
  destruct st as [[p0 l0 pp0 cs0 ce0 lct0 ec0 lrt0] [sc ck0 cr0 wr0 q0 lg0]].
  cbn in Hport, Hlock. subst.
  destruct sc as [|[|rx] tl]; cbn; repeat split.
Qed.

Lemma loop_round_keeps_ready (depth rounds : nat) :
  keeps (inv ready any) (loop_round (request depth) rounds) any.
Proof.
  pose proof (request_keeps_ready depth) as Hreq.
  apply (keeps_bind _ _ _ any); [apply read_all_keeps_ready | intros rx _].
  apply (keeps_bind _ _ _ any).
  { apply keeps_dispatch_received with (okb := any) (okf := any);
      try exact Hreq; ready_conditions. }
  intros _ _. apply (keeps_bind _ _ _ any).
  { apply keeps_check_pending_transaction; try exact Hreq; ready_conditions. }
  intros _ _. apply (keeps_bind _ _ _ any).
  { apply keeps_check_connection_status; ready_conditions. }
  intros _ _. apply (keeps_bind _ _ _ any).
  { apply keeps_check_heartbeat; try exact Hreq; ready_conditions. }
  intros _ _. apply keeps_prevent_sleep; try exact Hreq; ready_conditions.
Qed.

Lemma loop_except_lock_free (st : State) :
  lock_free (self st) ->
  lock_free (self (snd (loop_except st)))
  /\ port (self (snd (loop_except st))) = port (self st).
Proof.
  destruct st as [[p0 l0 pp0 cs0 ce0 lct0 ec0 lrt0] w0].
  unfold lock_free. cbn. intros ->. cbn. auto.
Qed.

Lemma loop_pass_lock_free (depth rounds n : nat) (st : State) :
  lock_free (self st) ->
  lock_free (self (snd (loop_pass depth rounds n st)))
  /\ (port (self st) = Some true ->
      port (self (snd (loop_pass depth rounds n st))) = Some true).
Proof.
  intros Hfree.
  destruct (open_lock_free (request depth) (request_keeps_ready depth)
              st Hfree) as (H1 & H2 & H3).
  enough (H : forall P : State -> Prop,
             (forall s, lock_free (self s) ->
                        (port (self st) = Some true ->
                         port (self s) = Some true) -> P s) ->
             P (snd (loop_pass depth rounds n st))).
  { apply H. intros s Hs1 Hs2. split; assumption. }
  intros P HP.
  unfold loop_pass, try_except_serial, bind at 1.
  destruct (open (request depth) st) as [[[]|h] st1]; cbn [fst snd] in *.
  - specialize (H2 tt eq_refl).
    destruct (keeps_times _ n _ (loop_round_keeps_ready depth rounds) st1 H2)
      as [[[Hp Hl] _] _].
    destruct (times n (loop_round (request depth) rounds) st1)
      as [[a|[[]| |]] st2]; cbn [fst snd] in *; try (apply HP; auto; fail).
    destruct (loop_except_lock_free st2 Hl) as [E1 E2].
    apply HP; [exact E1 | intros _; now rewrite E2].
  - destruct (loop_except_lock_free st1 H1) as [E1 E2].
    destruct h as [[]| |]; cbn [fst snd]; apply HP; auto.
    intros Hs. rewrite E2. auto.
Qed.

(** X15. The lock is never left held.  From a state where the lock is
    free, [request] -- whatever the port does, whatever frames arrive,
    however deep the nested requests, and whether it returns, raises or
    hangs -- ends with the lock free; so does a pass of the poll loop.
    And neither of them loses the port: open before, it is open after. *)
Theorem lock_is_left_free
    (depth rounds n : nat) (t : Type_) (data : option bytes) (st : State) :
  lock (self st) = false ->
  lock (self (snd (request depth t data st))) = false
  /\ lock (self (snd (loop_pass depth rounds n st))) = false
  /\ (port (self st) = Some true ->
      port (self (snd (request depth t data st))) = Some true
      /\ port (self (snd (loop_pass depth rounds n st))) = Some true).
Proof.
  intros Hfree.
  destruct (request_lock_free depth t data st Hfree) as [H1 H2].
  destruct (loop_pass_lock_free depth rounds n st Hfree) as [H3 H4].
  repeat split; auto.
Qed.

Lemma lock_is_left_free_witness :
  lock (self (snd (request 3 CONNECT_STATE_REQUEST None
                     {| self := init;
                        world := world_of
                                   [PortData []; PortData []; PortError]
                                   demo_clock |}))) = false
  /\ lock (self (snd (loop_pass 3 4 2
                     {| self := init;
                        world := world_of
                                   [PortData []; PortData []; PortError]
                                   demo_clock |}))) = false.
Proof.
  destruct (lock_is_left_free 3 4 2 CONNECT_STATE_REQUEST None
              {| self := init;
                 world := world_of [PortData []; PortData []; PortError]
                            demo_clock |})
    as (H1 & H2 & _); [reflexivity|].
  split; [exact H1 | exact H2].
Defined.

(* ================================================================== *)
(** * Opening and cancelling a payment *)

Ltac amount_conditions :=
  unfold pending_amount, any; cbn; intros; auto;
  try match goal with
      | H : exists p, _ = Some p /\ _ |- _ =>
          let p' := fresh "p" in
          let H1 := fresh in
          let H2 := fresh in
          destruct H as (p' & H1 & H2)
      end;
  try congruence; eauto.

Lemma request_keeps_pending_amount
    (a : Q) (depth : nat) (t : Type_) (data : option bytes) :
  keeps (inv (pending_amount a) any) (request depth t data) any.
Proof.
  apply keeps_request with (okb := any) (okf := any); amount_conditions.
  eexists. split; [reflexivity|]. cbn. congruence.
Qed.

Lemma event_keeps_pending_amount
    (a : Q) (depth : nat) (t : Type_) (data : bytes) :
  keeps (inv (pending_amount a) any) (event (request depth) t data) any.
Proof.
  apply keeps_event with (okf := any);
    try apply request_keeps_pending_amount; amount_conditions.
  eexists. split; [reflexivity|]. cbn. congruence.
Qed.

Lemma touch_keeps_pending_amount (a : Q) (c : option string) :
  keeps (inv (pending_amount a) any) (touch_payment c) any.
Proof.
  apply keeps_touch_payment; amount_conditions.
  eexists. split; [reflexivity|]. cbn. congruence.
Qed.

(** X16. [request], [event] and [cancel_last_transaction] neither drop a
    pending payment nor change its amount: if a payment of some amount is
    pending before the call, a payment of that amount is pending after
    it, however the call ends. *)
Theorem payment_stays_pending
    (a : Q) (depth : nat) (t t' : Type_) (data : option bytes)
    (payload : bytes) (line : Message) (st : State) :
  pending_amount a (self st) ->
  pending_amount a (self (snd (request depth t data st)))
  /\ pending_amount a (self (snd (event (request depth) t' payload st)))
  /\ pending_amount a
       (self (snd (cancel_last_transaction (request depth) line st))).
Proof.
  intros Ha.
  assert (HI : inv (pending_amount a) any st) by (split; [exact Ha | exact I]).
  split; [apply (request_keeps_pending_amount a depth t data st HI)|].
  split; [apply (event_keeps_pending_amount a depth t' payload st HI)|].
  unfold cancel_last_transaction.
  apply (keeps_bind (inv (pending_amount a) any) _ _ any any); [| |exact HI].
  { apply keeps_logger; amount_conditions. }
  intros _ _.
  apply (keeps_bind _ _ _ any); [apply request_keeps_pending_amount|].
  intros result _.
  apply (keeps_bind _ _ _ any); [apply touch_keeps_pending_amount|].
  intros _ _. now apply keeps_ret.
Qed.

Lemma payment_stays_pending_witness :
  pending_amount 150
    (self (snd (request 2 CANCEL_LAST_TRANSACTION None
                  (at_check true SERVER_CONNECTED 5))))
  /\ pending_amount 150
       (self (snd (event (request 2) CARD_AUTH_RESULT ["001"%byte]
                     (at_check true SERVER_CONNECTED 5))))
  /\ pending_amount 150
       (self (snd (cancel_last_transaction (request 2) Close_payment
                     (at_check true SERVER_CONNECTED 5)))).
Proof.
  apply (payment_stays_pending 150 2 CANCEL_LAST_TRANSACTION
           CARD_AUTH_RESULT None ["001"%byte] Close_payment (at_check true SERVER_CONNECTED 5)).
  eexists. split; reflexivity.
Defined.

Lemma pack_field_some (size : nat) (v : Z) :
  (0 <= v < 2 ^ (8 * Z.of_nat size))%Z ->
  pack_field size v = Some (le_bytes size (Z.to_N v)).
Proof.
  intros [H0 H1]. unfold pack_field.
  now rewrite (proj2 (Z.leb_le _ _) H0), (proj2 (Z.ltb_lt _ _) H1).
Qed.

Lemma pack_field_none (size : nat) (v : Z) :
  (v < 0 \/ 2 ^ (8 * Z.of_nat size) <= v)%Z -> pack_field size v = None.
Proof.
  intros H. unfold pack_field.
  destruct (Z.leb_spec 0 v); [|reflexivity].
  destruct (Z.ltb_spec v (2 ^ (8 * Z.of_nat size))); [lia | reflexivity].
Qed.

Lemma pack_field_bcd (c : Currency) :
  pack_field 2 (Z.of_N (bcd c)) = Some (le_bytes 2 (bcd c)).
Proof.
  rewrite pack_field_some; [now rewrite N2Z.id|].
  pose proof (bcd_of_lt (Currency_value c)). unfold bcd.
  change (2 ^ (8 * Z.of_nat 2))%Z with 65536%Z. lia.
Qed.

(** X17. [read_card] for an amount in whole units.  However the call ends,
    a payment of that amount is pending after it.  An amount whose
    hundredfold does not fit 32 bits unsigned -- a negative one, or one of
    42949673 and more -- fails in [pack] ([struct.error]) after the payment
    has been recorded and before anything is sent: the payment stays
    behind, active.  Otherwise the call goes on as one [READ_CARD] request
    whose payload is the amount in hundredths on four bytes, low byte
    first, the currency code in packed decimal on two, four zero bytes and
    the byte 01. *)
Theorem read_card_outcome
    (depth : nat) (line : Z -> Currency -> Message)
    (sum : Z) (currency : Currency) (st : State) :
  let r := read_card (request depth) line sum currency st in
  let st1 :=
    {| self := set_pending_payment
                 (Some (new_payment sum
                          (clock (world st) (clock_reads (world st)))))
                 (self st);
       world := set_clock_reads (S (clock_reads (world st)))
                  (set_log (log (world st)
                            ++ [(LOG_INFO, line sum currency)])
                     (world st)) |} in
  pending_amount (inject_Z sum) (self (snd r))
  /\ ((sum < 0 \/ 2 ^ 32 <= sum * 100)%Z ->
      r = (Halt (Raised StructError), st1))
  /\ ((0 <= sum /\ sum * 100 < 2 ^ 32)%Z ->
      r = (result <- request depth READ_CARD
                       (Some (le_bytes 4 (Z.to_N (sum * 100))
                              ++ le_bytes 2 (bcd currency)
                              ++ ["000"; "000"; "000"; "000"; "001"]%byte)) ;;
           ret (is_ack result)) st1).
Proof.
  intros r st1.
  assert (Hr : r = (body <- match packet_read_card_pack (sum * 100)
                                    (Z.of_N (bcd currency)) 0 1 with
                            | Some body => ret body
                            | None => raise StructError
                            end ;;
                    result <- request depth READ_CARD (Some body) ;;
                    ret (is_ack result)) st1) by reflexivity.
  assert (H1 : pending_amount (inject_Z sum) (self st1)).
  { eexists. split; reflexivity. }
  assert (Hbad : (sum < 0 \/ 2 ^ 32 <= sum * 100)%Z ->
                 r = (Halt (Raised StructError), st1)).
  { intros Hs. rewrite Hr. unfold packet_read_card_pack.
    rewrite pack_field_none; [reflexivity|].
    change (2 ^ (8 * Z.of_nat 4))%Z with (2 ^ 32)%Z. lia. }
  assert (Hgood : (0 <= sum /\ sum * 100 < 2 ^ 32)%Z ->
      r = (result <- request depth READ_CARD
                       (Some (le_bytes 4 (Z.to_N (sum * 100))
                              ++ le_bytes 2 (bcd currency)
                              ++ ["000"; "000"; "000"; "000"; "001"]%byte)) ;;
           ret (is_ack result)) st1).
  { intros Hs. rewrite Hr. unfold packet_read_card_pack.
    rewrite pack_field_some
      by (change (2 ^ (8 * Z.of_nat 4))%Z with (2 ^ 32)%Z; lia).
    rewrite pack_field_bcd. reflexivity. }
  split; [|split; [exact Hbad | exact Hgood]].
  destruct (Z.lt_ge_cases sum 0) as [Hneg|Hpos];
    [rewrite Hbad by auto; exact H1|].
  destruct (Z.lt_ge_cases (sum * 100) (2 ^ 32)) as [Hfit|Hbig];
    [|rewrite Hbad by (right; lia); exact H1].
  rewrite Hgood by auto.
  apply (keeps_bind (inv (pending_amount (inject_Z sum)) any) _ _ any any).
  - apply request_keeps_pending_amount.
  - intros result _. now apply keeps_ret.
  - split; [exact H1 | exact I].
Qed.

Lemma read_card_outcome_witness :
  read_card (request 1) (fun _ _ => Close_payment) (-1) RUB
    {| self := set_port (Some true) init; world := world_of [] demo_clock |}
  = (Halt (Raised StructError),
     {| self := set_pending_payment (Some (new_payment (-1) (demo_clock 0)))
                  (set_port (Some true) init);
        world := set_clock_reads 1
                   (set_log [(LOG_INFO, Close_payment)]
                      (world_of [] demo_clock)) |}).
Proof.
  apply (read_card_outcome 1 (fun _ _ => Close_payment) (-1) RUB
           {| self := set_port (Some true) init;
              world := world_of [] demo_clock |}).
  left. lia.
Defined.

(** The request for 150 units in roubles, as it goes to the port. *)
Example read_card_150_rub :
  written
    (world (snd (read_card (request 1) (fun _ _ => Close_payment) 150 RUB
                   {| self := set_port (Some true) init;
                      world := world_of [] demo_clock |})))
  = [["012"; "000"; "167"; "138"; "001"; "152"; ":"; "000"; "000"; "006";
      "C"; "000"; "000"; "000"; "000"; "001"]%byte].
Proof. reflexivity. Qed.

(** X18. [vend_request] for an amount in whole units.  However the call
    ends, a payment of that amount is pending after it.  An amount whose
    hundredfold does not fit 16 bits unsigned -- a negative one, or one
    above 655 -- fails in [pack] after the payment has been recorded and
    before anything is sent.  Otherwise the call goes on as one
    [VEND_REQUEST] request whose payload is the amount in hundredths on two
    bytes, low byte first, and the bytes 01 00 01. *)
Theorem vend_request_outcome
    (depth : nat) (line : Z -> Message) (sum : Z) (st : State) :
  let r := vend_request (request depth) line sum st in
  let st1 :=
    {| self := set_pending_payment
                 (Some (new_payment sum
                          (clock (world st) (clock_reads (world st)))))
                 (self st);
       world := set_clock_reads (S (clock_reads (world st)))
                  (set_log (log (world st) ++ [(LOG_INFO, line sum)])
                     (world st)) |} in
  pending_amount (inject_Z sum) (self (snd r))
  /\ ((sum < 0 \/ 655 < sum)%Z -> r = (Halt (Raised StructError), st1))
  /\ ((0 <= sum <= 655)%Z ->
      r = (request depth VEND_REQUEST
             (Some (le_bytes 2 (Z.to_N (sum * 100))
                    ++ ["001"; "000"; "001"]%byte)) ;;
           ret tt) st1).
Proof.
  intros r st1.
  assert (Hr : r = (body <- match packet_vend_request_pack (sum * 100) 1 1 with
                            | Some body => ret body
                            | None => raise StructError
                            end ;;
                    request depth VEND_REQUEST (Some body) ;;
                    ret tt) st1) by reflexivity.
  assert (H1 : pending_amount (inject_Z sum) (self st1)).
  { eexists. split; reflexivity. }
  assert (Hbad : (sum < 0 \/ 655 < sum)%Z ->
                 r = (Halt (Raised StructError), st1)).
  { intros Hs. rewrite Hr. unfold packet_vend_request_pack.
    rewrite pack_field_none; [reflexivity|].
    change (2 ^ (8 * Z.of_nat 2))%Z with 65536%Z. lia. }
  assert (Hgood : (0 <= sum <= 655)%Z ->
      r = (request depth VEND_REQUEST
             (Some (le_bytes 2 (Z.to_N (sum * 100))
                    ++ ["001"; "000"; "001"]%byte)) ;;
           ret tt) st1).
  { intros Hs. rewrite Hr. unfold packet_vend_request_pack.
    rewrite pack_field_some
      by (change (2 ^ (8 * Z.of_nat 2))%Z with 65536%Z; lia).
    reflexivity. }
  split; [|split; [exact Hbad | exact Hgood]].
  destruct (Z.lt_ge_cases sum 0) as [Hneg|Hpos];
    [rewrite Hbad by auto; exact H1|].
  destruct (Z.lt_ge_cases 655 sum) as [Hbig|Hfit];
    [rewrite Hbad by auto; exact H1|].
  rewrite Hgood by lia.
  apply (keeps_bind (inv (pending_amount (inject_Z sum)) any) _ _ any any).
  - apply request_keeps_pending_amount.
  - intros result _. now apply keeps_ret.
  - split; [exact H1 | exact I].
Qed.

Lemma vend_request_outcome_witness :
  vend_request (request 1) (fun _ => Close_payment) 656
    {| self := set_port (Some true) init; world := world_of [] demo_clock |}
  = (Halt (Raised StructError),
     {| self := set_pending_payment (Some (new_payment 656 (demo_clock 0)))
                  (set_port (Some true) init);
        world := set_clock_reads 1
                   (set_log [(LOG_INFO, Close_payment)]
                      (world_of [] demo_clock)) |}).
Proof.
  apply (vend_request_outcome 1 (fun _ => Close_payment) 656
           {| self := set_port (Some true) init;
              world := world_of [] demo_clock |}).
  right. lia.
Defined.

Lemma close_payment_keeps_no_payment (depth : nat) :
  keeps (inv no_payment any) (close_payment (request depth)) any.
Proof.
  apply keeps_close_payment; try apply request_keeps_no_payment;
    unfold no_payment, any; cbn; intros; auto.
Qed.

(** X19. [cancel_read_card] drops the payment whenever its request comes
    back, whatever it comes back with -- an ACK, another frame, or nothing
    at all: the outcome of the request is not looked at.  The payment is
    gone before the idle picture is asked for, so it is gone however that
    second request ends. *)
Theorem cancel_read_card_drops_payment
    (depth : nat) (line : Message) (result : option Reply) (st : State) :
  fst (request depth CANCEL_READ_CARD None (snd (logger LOG_INFO line st)))
  = Done result ->
  pending_payment (self (snd (cancel_read_card (request depth) line st)))
  = None.
Proof.
  intros Hreq. unfold cancel_read_card, bind at 1. cbn [logger modify_world].
  change (set_log _ _) with (world (snd (logger LOG_INFO line st))).
  change {| self := self st; world := world (snd (logger LOG_INFO line st)) |}
    with (snd (logger LOG_INFO line st)).
  unfold bind at 1.
  destruct (request depth CANCEL_READ_CARD None (snd (logger LOG_INFO line st)))
    as [o st1].
  cbn in Hreq. subst o.
  unfold close_payment, bind at 1, get_self at 1. cbn [fst snd].
  assert (Hclear :
    forall st2, pending_payment (self st2) = None ->
      pending_payment (self (snd (show_idle_picture (request depth) st2)))
      = None).
  { intros st2 H2.
    apply (keeps_show_idle_picture no_payment any _
             (request_keeps_no_payment depth) st2).
    split; [exact H2 | exact I]. }
  unfold bind at 1.
  destruct (pending_payment (self st1)) eqn:Ep.
  - cbn -[show_idle_picture]. now apply Hclear.
  - cbn -[show_idle_picture]. now apply Hclear.
Qed.

Lemma cancel_read_card_drops_payment_witness :
  pending_payment
    (self (snd (cancel_read_card (request 1) Close_payment
                  (at_check true SERVER_CONNECTED 5))))
  = None.
Proof.
  apply (cancel_read_card_drops_payment 1 Close_payment None
           (at_check true SERVER_CONNECTED 5)).
  reflexivity.
Defined.

(* ================================================================== *)
(** * Rounds of the poll loop *)

Ltac plain_conditions :=
  unfold counter_in_range, error_flagged, no_payment, any; cbn; intros;
  auto; try lia; try congruence.

Lemma loop_pass_keeps_counter_in_range (depth rounds n : nat) :
  keeps (inv counter_in_range any) (loop_pass depth rounds n) any.
Proof.
  apply keeps_loop_pass.
  - apply request_keeps_counter_in_range.
  - intros r. apply keeps_loop_round with (okb := any) (okf := any);
      try apply request_keeps_counter_in_range; plain_conditions.
  - apply keeps_open with (okb := any);
      try apply request_keeps_counter_in_range; plain_conditions.
  - apply keeps_loop_except; plain_conditions.
Qed.

Lemma loop_pass_keeps_error_flagged (depth rounds n : nat) :
  keeps (inv error_flagged any) (loop_pass depth rounds n) any.
Proof.
  apply keeps_loop_pass.
  - apply request_keeps_error_flagged.
  - intros r. apply keeps_loop_round with (okb := any) (okf := any);
      try apply request_keeps_error_flagged; plain_conditions.
  - apply keeps_open with (okb := any);
      try apply request_keeps_error_flagged; plain_conditions.
  - apply keeps_loop_except; plain_conditions.
Qed.

Lemma loop_pass_keeps_no_payment (depth rounds n : nat) :
  keeps (inv no_payment any) (loop_pass depth rounds n) any.
Proof.
  apply keeps_loop_pass.
  - apply request_keeps_no_payment.
  - intros r. apply keeps_loop_round with (okb := any) (okf := any);
      try apply request_keeps_no_payment; plain_conditions.
  - apply keeps_open with (okb := any);
      try apply request_keeps_no_payment; plain_conditions.
  - apply keeps_loop_except; plain_conditions.
Qed.

(** X20. What a pass of the poll loop keeps, however many rounds it makes
    and however it ends: a counter within [0, 10] stays within [0, 10]; the
    error flag, once set, stays set; and where no payment is pending, none
    is after the pass -- the loop closes payments, it never opens one. *)
Theorem loop_pass_keeps (depth rounds n : nat) (st : State) :
  ((0 <= error_counter (self st) <= 10)%Z ->
   (0 <= error_counter (self (snd (loop_pass depth rounds n st))) <= 10)%Z)
  /\ (connection_error (self st) = true ->
      connection_error (self (snd (loop_pass depth rounds n st))) = true)
  /\ (pending_payment (self st) = None ->
      pending_payment (self (snd (loop_pass depth rounds n st))) = None).
Proof.
  split; [|split]; intros H.
  - apply (loop_pass_keeps_counter_in_range depth rounds n st).
    split; [exact H | exact I].
  - apply (loop_pass_keeps_error_flagged depth rounds n st).
    split; [exact H | exact I].
  - apply (loop_pass_keeps_no_payment depth rounds n st).
    split; [exact H | exact I].
Qed.

Lemma loop_pass_keeps_witness :
  (0 <= error_counter
          (self (snd (loop_pass 2 3 2
                        {| self := init;
                           world := world_of [PortData []; PortError]
                                      demo_clock |}))) <= 10)%Z
  /\ pending_payment
       (self (snd (loop_pass 2 3 2
                     {| self := init;
                        world := world_of [PortData []; PortError]
                                   demo_clock |}))) = None.
Proof.
  destruct (loop_pass_keeps 2 3 2
              {| self := init;
                 world := world_of [PortData []; PortError] demo_clock |})
    as (H1 & _ & H3).
  split; [apply H1; cbn; lia | apply H3; reflexivity].
Defined.

(** X21. An idle round sends nothing.  On an open port with the lock
    free, when nothing has arrived, no payment is pending, the state is
    above [NONE] with the counter at 5 or less, the last connect-state
    check is no more than 10 s old and the last request no more than
    600 s: the round reads the port once and the clock twice, and changes
    nothing else -- no request is made. *)
Theorem idle_round_is_silent
    (depth rounds : nat) (tl : list io) (t0 t1 : Q) (st : State) :
  port (self st) = Some true ->
  lock (self st) = false ->
  script (world st) = PortData [] :: tl ->
  pending_payment (self st) = None ->
  ConnectState_gtb (connect_state (self st)) NONE = true ->
  (error_counter (self st) <= 5)%Z ->
  last_check_time (self st) = Some t0 ->
  (clock (world st) (clock_reads (world st)) - t0 <= 10)%Q ->
  last_request_time (self st) = Some t1 ->
  (clock (world st) (S (clock_reads (world st))) - t1 <= 10 * 60)%Q ->
  loop_round (request depth) rounds st
  = (Done tt,
     {| self := self st;
        world := set_clock_reads (S (S (clock_reads (world st))))
                   (set_script tl (world st)) |}).
Proof.
  intros Hport Hlock Hsc Hpay Hcs Hec Hlct Hnow Hlrt Hnow'.
  destruct st as [[p0 l0 pp0 cs0 ce0 lct0 ec0 lrt0] [sc ck0 cr0 wr0 q0 lg0]].
  cbn in *. subst.
  apply (float_sub_le_Z _ _ 10) in Hnow;
    [|split; [discriminate | reflexivity]].
  apply (float_sub_le_Z _ _ 600) in Hnow';
    [|split; [discriminate | reflexivity]].
  change (inject_Z 10) with 10%Q in Hnow.
  change (inject_Z 600) with (10 * 60)%Q in Hnow'.
  assert (Hc : ConnectState_eqb cs0 NONE = false)
    by (destruct cs0; try reflexivity; discriminate).
  assert (He : (5 <? ec0)%Z = false) by (apply Z.ltb_ge; exact Hec).
  unfold loop_round, with_lock, finally, bind.
  cbn -[Qle_bool float_sub Qmult].
  destruct rounds; cbn -[Qle_bool float_sub Qmult];
    rewrite Hc, He, andb_false_r; cbn -[Qle_bool float_sub Qmult];
    rewrite Hnow; cbn -[Qle_bool float_sub Qmult];
    rewrite Hnow'; reflexivity.
Qed.

Lemma idle_round_is_silent_witness :
  loop_round (request 1) 1
    {| self := set_last_request_time (Some 0%Q)
                 (set_last_check_time (Some 0%Q)
                    (set_error_counter 0
                       (set_connect_state SERVER_CONNECTED
                          (set_port (Some true) init))));
       world := world_of [PortData []] (fun _ => 5%Q) |}
  = (Done tt,
     {| self := set_last_request_time (Some 0%Q)
                  (set_last_check_time (Some 0%Q)
                     (set_error_counter 0
                        (set_connect_state SERVER_CONNECTED
                           (set_port (Some true) init))));
        world := set_clock_reads 2
                   (set_script []
                      (world_of [PortData []] (fun _ => 5%Q))) |}).
Proof.
  apply (idle_round_is_silent 1 1 [] 0%Q 0%Q
           {| self := set_last_request_time (Some 0%Q)
                        (set_last_check_time (Some 0%Q)
                           (set_error_counter 0
                              (set_connect_state SERVER_CONNECTED
                                 (set_port (Some true) init))));
              world := world_of [PortData []] (fun _ => 5%Q) |});
    try reflexivity; try (cbn; lia); try (cbv; discriminate).
Defined.
